(** * Log extraction pipeline of the VFH-vs-ND Player/Stage comparison

    A shallow embedding of [main.py]: the laser and position extractors,
    the obstacle projector, the per-log assembler and the grouping helper,
    with the properties of the design document stated and settled on them.

    Numbers.  The entries of the tables are real numbers or NaN.  NaN is
    modelled in full, because the program uses it as its "unknown" marker
    and because [np.genfromtxt] yields it for every token it cannot
    convert.  The operations round their results as an [arithmetic] says.
    The one operation of the program that makes an infinity of two numbers
    is the division of the acceleration column, whose results have a type
    of their own, [quotient].  What is beyond the range of [float64] is
    not modelled: a result that overflows, or the infinity that [float()]
    reads in a token such as [inf]; the numbers of the tables are finite. *)

From Stdlib Require Import Reals Lra Lia List ZArith Bool Arith.
From Stdlib Require String DecimalString.
Import ListNotations.
Import String.StringSyntax.
Delimit Scope string_scope with string.
Open Scope string_scope.

(** ** Floating-point values *)

Inductive float : Type :=
| NaN
| Fin (x : R).

Definition isnan (v : float) : bool :=
  match v with NaN => true | Fin _ => false end.

Definition Rgeb (a b : R) : bool := if Rle_dec b a then true else false.

(** [a >= b] on floats: false as soon as one side is NaN. *)
Definition fge (a b : float) : bool :=
  match a, b with
  | Fin x, Fin y => Rgeb x y
  | _, _ => false
  end.

(** The arithmetic of [float64] on numbers.  [round] takes the exact
    result of an operation to the number that is stored; [cos_libm] and
    [sin_libm] are what [np.cos] and [np.sin] return.  Rounding keeps zero
    and the order, and is off by at most [unit_roundoff] times the exact
    result plus [underflow_unit] ([2^-53] and [2^-1075] for [float64]); the
    two library functions are within [libm_error] of the cosine and of the
    sine. *)
Class arithmetic : Type := {
  round : R -> R;
  cos_libm : R -> R;
  sin_libm : R -> R;
  unit_roundoff : R;
  underflow_unit : R;
  libm_error : R;
  unit_roundoff_pos : (0 <= unit_roundoff)%R;
  underflow_unit_pos : (0 <= underflow_unit)%R;
  round_0 : round 0 = 0%R;
  round_monotone : forall x y, (x <= y)%R -> (round x <= round y)%R;
  round_error :
    forall x, (Rabs (round x - x) <= unit_roundoff * Rabs x + underflow_unit)%R;
  cos_error : forall x, (Rabs (cos_libm x - cos x) <= libm_error)%R;
  sin_error : forall x, (Rabs (sin_libm x - sin x) <= libm_error)%R
}.

Section Operations.

Context {A : arithmetic}.

Definition fadd (a b : float) : float :=
  match a, b with Fin x, Fin y => Fin (round (x + y)) | _, _ => NaN end.

Definition fsub (a b : float) : float :=
  match a, b with Fin x, Fin y => Fin (round (x - y)) | _, _ => NaN end.

Definition fmul (a b : float) : float :=
  match a, b with Fin x, Fin y => Fin (round (x * y)) | _, _ => NaN end.

(** The value of a division: a float, or an infinity with its sign. *)
Inductive quotient : Type :=
| Float (v : float)
| Inf (negative : bool).

(** Division.  NumPy makes of a division by zero (with a warning) NaN when
    the dividend is zero too and an infinity otherwise.  The zero of the
    model has no sign: the zero divisor is taken as +0, which the
    difference of two equal numbers is, and the infinity has the sign of
    the dividend (with the divisor -0, which is the difference of the
    numbers -0.0 and 0.0 only, NumPy's infinity has the other sign). *)
Definition fdiv (a b : float) : quotient :=
  match a, b with
  | Fin x, Fin y =>
      if Req_dec_T y 0 then
        if Req_dec_T x 0 then Float NaN
        else Inf (if Rlt_dec x 0 then true else false)
      else Float (Fin (round (x / y)))
  | _, _ => Float NaN
  end.

(** Division by a count that is not zero. *)
Definition fdiv_count (a : float) (n : nat) : float :=
  match a with
  | Fin x => Fin (round (x / INR n))
  | NaN => NaN
  end.

(** [x ** 2] *)
Definition fsquare (a : float) : float := fmul a a.

Definition fsqrt (a : float) : float :=
  match a with
  | Fin x => if Rlt_dec x 0 then NaN else Fin (round (sqrt x))
  | NaN => NaN
  end.

Definition fcos (a : float) : float :=
  match a with Fin x => Fin (cos_libm x) | NaN => NaN end.

Definition fsin (a : float) : float :=
  match a with Fin x => Fin (sin_libm x) | NaN => NaN end.

End Operations.

(** The arithmetic without rounding, in which the examples are run. *)
Definition exact : arithmetic.
Proof.
  refine {| round := fun x => x; cos_libm := cos; sin_libm := sin;
            unit_roundoff := 0; underflow_unit := 0; libm_error := 0 |};
    intros; try lra; replace (_ - _)%R with 0%R by ring; rewrite Rabs_R0; lra.
Defined.

(** [np.minimum] of two values. *)
Definition fminimum (a b : float) : float :=
  match a, b with Fin x, Fin y => Fin (Rmin x y) | _, _ => NaN end.

(** Truncation toward zero. *)
Definition Rtrunc (x : R) : Z :=
  if Rle_dec 0 x then Int_part x else (- Int_part (- x))%Z.

(** The conversion of a number to [int64]: it is truncated toward zero,
    and a number whose truncation is beyond the range of [int64] is stored
    as [-2^63], what the conversion instruction of x86-64 gives. *)
Definition cast_int64 (x : R) : Z :=
  let z := Rtrunc x in
  if ((- 2 ^ 63 <=? z) && (z <? 2 ^ 63))%Z then z else (- 2 ^ 63)%Z.

(** ** Exceptions *)

Inductive exn : Type :=
| StopIteration
| IndexError
| ValueError
| KeyError
| FileNotFoundError
| IsADirectoryError
| PermissionError.

Inductive result (A : Type) : Type :=
| Ok (a : A)
| Raise (e : exn).

Arguments Ok {A} a.
Arguments Raise {A} e.

Definition bind {A B : Type} (c : result A) (k : A -> result B) : result B :=
  match c with
  | Ok a => k a
  | Raise e => Raise e
  end.

Notation "x <- c ;; k" := (bind c (fun x => k))
  (at level 61, c at next level, right associativity).

Fixpoint mapM {A B : Type} (f : A -> result B) (l : list A) : result (list B) :=
  match l with
  | [] => Ok []
  | x :: rest =>
      y <- f x ;;
      ys <- mapM f rest ;;
      Ok (y :: ys)
  end.

(** ** Sequences and slices *)

(** [l[::2]] *)
Fixpoint every_other {A : Type} (l : list A) : list A :=
  match l with
  | [] => []
  | x :: rest =>
      x :: match rest with
           | [] => []
           | _ :: rest' => every_other rest'
           end
  end.

(** [l[start::2]] *)
Definition slice_from_step2 {A : Type} (start : nat) (l : list A) : list A :=
  every_other (skipn start l).

(** [[values[_] for _ in usecols]]: [None] stands for the [IndexError] of a
    line that is too short. *)
Fixpoint select_cols {A : Type} (usecols : list nat) (values : list A)
  : option (list A) :=
  match usecols with
  | [] => Some []
  | c :: cs =>
      match nth_error values c, select_cols cs values with
      | Some v, Some vs => Some (v :: vs)
      | _, _ => None
      end
  end.

(** [np.diff] of a one-dimensional array. *)
Fixpoint diff {A : arithmetic} (l : list float) : list float :=
  match l with
  | x :: (y :: _) as rest => fsub y x :: diff rest
  | _ => []
  end.

Fixpoint map2 {A B C : Type} (f : A -> B -> C) (l : list A) (l' : list B)
  : list C :=
  match l, l' with
  | x :: r, y :: r' => f x y :: map2 f r r'
  | _, _ => []
  end.

(** ** Arrays returned by [np.genfromtxt] *)

(** The result is squeezed: no data row gives an empty one-dimensional
    array, one data row gives a one-dimensional array of its columns, and
    only two rows or more give a two-dimensional array. *)
Inductive ndarray : Type :=
| Array1 (xs : list float)
| Array2 (rows : list (list float)).

Definition squeeze (rows : list (list float)) : ndarray :=
  match rows with
  | [] => Array1 []
  | [r] => Array1 r
  | _ => Array2 rows
  end.

(** [a[:, ...]]: two indices on a one-dimensional array raise. *)
Definition rows2d (a : ndarray) : result (list (list float)) :=
  match a with
  | Array1 _ => Raise IndexError
  | Array2 rows => Ok rows
  end.

(** [a[:, k]] of a two-dimensional array whose rows have more than [k] columns. *)
Definition column (k : nat) (rows : list (list float)) : list float :=
  map (fun r => nth k r NaN) rows.

(** A text line, split at white space. *)
Definition line : Type := list String.string.

Definition nonblank (l : line) : bool :=
  match l with [] => false | _ :: _ => true end.

(** A line as [np.genfromtxt] splits it (comments='#', its default): the
    line is cut at its first comment mark before it is split, so the
    tokens after the first one that holds a mark are dropped, and of that
    token what is before the mark is kept, when there is something. *)
Fixpoint cut_comment (l : line) : line :=
  match l with
  | [] => []
  | token :: rest =>
      match String.index 0 "#" token with
      | None => token :: cut_comment rest
      | Some 0 => []
      | Some n => [String.substring 0 n token]
      end
  end.

(** The lines that [np.genfromtxt] reads: what is left of a line may be
    blank, and blank lines are skipped. *)
Definition data_lines (lines : list line) : list line :=
  filter nonblank (map cut_comment lines).

(** A line that holds tokens and no comment mark, as the numeric records
    of a log do: [np.genfromtxt] reads it as it is. *)
Definition plain (l : line) : Prop :=
  l <> [] /\ Forall (fun token => String.index 0 "#" token = None) l.

(** ** The three tables *)

Module Laser.
Record row : Type := {
  time : float;
  scan_id : Z;
  min_angle : float;
  max_angle : float;
  resolution : float;
  max_range : float;
  count : Z;
  ranges : list float;
  intensities : list float
}.

(** [laser_data["ranges"] = laser_data["ranges"].apply(f)] on one row. *)
Definition set_ranges (f : list float -> list float) (r : row) : row :=
  {| time := time r; scan_id := scan_id r; min_angle := min_angle r;
     max_angle := max_angle r; resolution := resolution r;
     max_range := max_range r; count := count r;
     ranges := f (ranges r); intensities := intensities r |}.
End Laser.

Module Position.
Record row : Type := {
  time : float;
  px : float;
  py : float;
  pa : float;
  vx : float;
  vy : float;
  va : float;
  scalar_speed : float;
  a : quotient;
  distance_to_target : float
}.
End Position.

Module Obstacle.
Record row : Type := {
  time : float;
  obs_x : list float;
  obs_y : list float;
  distance_to_nearest_obstacle : float
}.
End Obstacle.

Section Extractors.

Context {A : arithmetic}.

(** The conversion of one token by [float()], NaN for a token that is not a
    number ([genfromtxt] is called with its default [loose=True]). *)
Variable to_float : String.string -> float.

(** [np.genfromtxt(lines, usecols=...)]: the lines are cut at their
    comment marks, blank lines are skipped, a line without one of the
    wanted columns makes the call raise, and every selected token is
    converted. *)
Definition genfromtxt (lines : list line) (usecols : list nat) : result ndarray :=
  rows <- mapM (fun l => match select_cols usecols l with
                         | Some values => Ok (map to_float values)
                         | None => Raise ValueError
                         end) (data_lines lines) ;;
  Ok (squeeze rows).

(** ** LaserExtractor *)

(** [.astype("int64")] of one value: a NaN makes the cast raise (pandas'
    [IntCastingNaNError], a [ValueError]); a number is converted. *)
Definition to_int64 (v : float) : result Z :=
  match v with
  | NaN => Raise ValueError
  | Fin x => Ok (cast_int64 x)
  end.

Definition laser_usecols : list nat := 0 :: seq 7 728.

(** One row [[*m, r, i]] of the laser frame under its nine column names,
    with [scan_id] and [count] cast to integers. *)
Definition laser_row (mri : list float * (list float * list float))
  : result Laser.row :=
  let '(m, (r, i)) := mri in
  match m with
  | [t; sid; lo; hi; res; mr; cnt] =>
      sid' <- to_int64 sid ;;
      cnt' <- to_int64 cnt ;;
      Ok {| Laser.time := t; Laser.scan_id := sid'; Laser.min_angle := lo;
            Laser.max_angle := hi; Laser.resolution := res;
            Laser.max_range := mr; Laser.count := cnt';
            Laser.ranges := r; Laser.intensities := i |}
  | _ => Raise ValueError
  end.

(** [np.where(r >= max_range, np.nan, r)] *)
Definition mask_out_of_range (max_range : float) (r : list float) : list float :=
  map (fun x => if fge x max_range then NaN else x) r.

Definition get_laser_data (laser_lines : list line) : result (list Laser.row) :=
  match laser_lines with
  | [] => Raise StopIteration
  | _ :: laser_lines =>
      laser_readings <- genfromtxt laser_lines laser_usecols ;;
      readings <- rows2d laser_readings ;;
      let metadata := map (firstn 7) readings in
      let ranges := map (slice_from_step2 7) readings in
      let intensities := map (slice_from_step2 8) readings in
      laser_data <- mapM laser_row (combine metadata (combine ranges intensities)) ;;
      match laser_data with
      | [] => Raise KeyError
      | first :: _ =>
          let max_range := Laser.max_range first in
          Ok (map (Laser.set_ranges (mask_out_of_range max_range)) laser_data)
      end
  end.

(** ** PositionExtractor *)

Definition position_usecols : list nat := [0; 7; 8; 9; 10; 11; 12].

Definition position_row (cols : list float * (float * (quotient * float)))
  : result Position.row :=
  let '(r, (s, (acc, d))) := cols in
  match r with
  | [t; x; y; heading; velx; vely; vela] =>
      Ok {| Position.time := t; Position.px := x; Position.py := y;
            Position.pa := heading; Position.vx := velx; Position.vy := vely;
            Position.va := vela; Position.scalar_speed := s;
            Position.a := acc; Position.distance_to_target := d |}
  | _ => Raise ValueError
  end.

(** [np.sqrt(x ** 2 + y ** 2)] *)
Definition hypot (x y : float) : float := fsqrt (fadd (fsquare x) (fsquare y)).

Definition get_position_data (position_lines : list line) (target_position : R * R)
  : result (list Position.row) :=
  match position_lines with
  | [] => Raise StopIteration
  | _ :: position_lines =>
      position_readings <- genfromtxt position_lines position_usecols ;;
      readings <- rows2d position_readings ;;
      let vx := column 4 readings in
      let vy := column 5 readings in
      let scalar_speed := map2 hypot vx vy in
      let time := column 0 readings in
      let a := map2 fdiv (diff scalar_speed) (diff time) in
      let a := Float (Fin 0) :: a in
      let '(target_x, target_y) := target_position in
      let px := column 1 readings in
      let py := column 2 readings in
      let distance_to_target :=
        map2 (fun x y => hypot (fsub x (Fin target_x)) (fsub y (Fin target_y))) px py in
      mapM position_row
        (combine readings (combine scalar_speed (combine a distance_to_target)))
  end.

End Extractors.

(** ** ObstacleProjector *)

(** Two-dimensional arrays with their broadcasting rules.  The number of
    columns is kept beside the rows, so that an array without rows still
    has a shape. *)
Record matrix : Type := {
  ncols : nat;
  mrows : list (list float)
}.

Definition nrows (m : matrix) : nat := length (mrows m).

(** Index into a dimension of size [n] that is stretched when [n = 1]. *)
Definition bix (n i : nat) : nat := if n =? 1 then 0 else i.

Definition item (m : matrix) (i j : nat) : float :=
  nth (bix (ncols m) j) (nth (bix (nrows m) i) (mrows m) []) NaN.

(** Two dimensions are compatible when they are equal or one of them is 1. *)
Definition broadcast_dim (a b : nat) : result nat :=
  if a =? b then Ok a
  else if a =? 1 then Ok b
  else if b =? 1 then Ok a
  else Raise ValueError.

Definition broadcast (f : float -> float -> float) (x y : matrix) : result matrix :=
  r <- broadcast_dim (nrows x) (nrows y) ;;
  c <- broadcast_dim (ncols x) (ncols y) ;;
  Ok {| ncols := c;
        mrows := map (fun i => map (fun j => f (item x i j) (item y i j)) (seq 0 c))
                     (seq 0 r) |}.

Definition mmap (f : float -> float) (x : matrix) : matrix :=
  {| ncols := ncols x; mrows := map (map f) (mrows x) |}.

(** A one-dimensional array as the second operand of a two-dimensional one. *)
Definition row_vector (v : list float) : matrix :=
  {| ncols := length v; mrows := [v] |}.

(** [v.repeat(c).reshape((-1, c))]; the unknown dimension cannot be
    inferred when [c] is 0. *)
Definition repeat_reshape (v : list float) (c : nat) : result matrix :=
  if c =? 0 then Raise ValueError
  else Ok {| ncols := c; mrows := map (fun x => repeat x c) v |}.

(** [np.stack]: at least one array, all of one length. *)
Definition stack (arrays : list (list float)) : result matrix :=
  match arrays with
  | [] => Raise ValueError
  | first :: rest =>
      if forallb (fun r => length r =? length first) rest
      then Ok {| ncols := length first; mrows := arrays |}
      else Raise ValueError
  end.

(** [y[-1] = v] *)
Definition set_last (y : list float) (v : float) : list float :=
  match y with
  | [] => []
  | _ :: _ => removelast y ++ [v]
  end.

(** [step == 0] *)
Definition is_zero (v : float) : bool :=
  match v with
  | Fin x => if Req_dec_T x 0 then true else false
  | NaN => false
  end.

(** [np.linspace(start, stop, num)]: the samples are [k * step + start],
    or [(k / div) * delta + start] when the step has rounded to zero, and
    the last of two or more is [stop] itself. *)
Definition linspace {A : arithmetic} (start stop : float) (num : Z)
  : result (list float) :=
  if (num <? 0)%Z then Raise ValueError
  else
    let n := Z.to_nat num in
    let delta := fsub stop start in
    if 1 <? n then
      let step := fdiv_count delta (n - 1) in
      let y :=
        if is_zero step
        then map (fun k => fadd (fmul (fdiv_count (Fin (INR k)) (n - 1)) delta) start)
                 (seq 0 n)
        else map (fun k => fadd (fmul (Fin (INR k)) step) start) (seq 0 n) in
      Ok (set_last y stop)
    else
      Ok (map (fun k => fadd (fmul (Fin (INR k)) delta) start) (seq 0 n)).

(** [row.min(initial=initial, where=mask)] *)
Definition min_where (initial : float) (row : list float) (mask : list bool) : float :=
  fold_left (fun acc (rm : float * bool) =>
               if snd rm then fminimum acc (fst rm) else acc)
            (combine row mask) initial.

Definition polar_to_cartesian {A : arithmetic} (r theta : matrix)
  : result (matrix * matrix) :=
  x <- broadcast fmul r (mmap fcos theta) ;;
  y <- broadcast fmul r (mmap fsin theta) ;;
  Ok (x, y).

Definition obstacle_row (txyd : float * (list float * (list float * float)))
  : Obstacle.row :=
  let '(t, (x, (y, d))) := txyd in
  {| Obstacle.time := t; Obstacle.obs_x := x; Obstacle.obs_y := y;
     Obstacle.distance_to_nearest_obstacle := d |}.

Definition get_obstacle_data {A : arithmetic} (position_data : list Position.row)
    (laser_data : list Laser.row) : result (list Obstacle.row) :=
  match laser_data with
  | [] => Raise KeyError
  | laser_reading :: _ =>
      laser_angles <- linspace (Laser.min_angle laser_reading)
                               (Laser.max_angle laser_reading)
                               (Laser.count laser_reading) ;;
      let pa := map Position.pa position_data in
      pa_rep <- repeat_reshape pa (length laser_angles) ;;
      angles <- broadcast fadd pa_rep (row_vector laser_angles) ;;
      let range_values := map Laser.ranges laser_data in
      ranges <- stack range_values ;;
      obs_relative <- polar_to_cartesian ranges angles ;;
      let '(obs_relative_x, obs_relative_y) := obs_relative in
      let row_size := ncols obs_relative_x in
      px_rep <- repeat_reshape (map Position.px position_data) row_size ;;
      obs_x <- broadcast fadd px_rep obs_relative_x ;;
      py_rep <- repeat_reshape (map Position.py position_data) row_size ;;
      obs_y <- broadcast fadd py_rep obs_relative_y ;;
      let distance_to_nearest_obstacle :=
        map (fun row => min_where (Fin 8) row (map (fun v => negb (isnan v)) row))
            (mrows ranges) in
      Ok (map obstacle_row
            (combine (map Laser.time laser_data)
               (combine (mrows obs_x)
                  (combine (mrows obs_y) distance_to_nearest_obstacle))))
  end.

(** ** LogAssembler *)

Record LogMetadata : Type := {
  index : nat;
  path : String.string;
  algorithm : String.string;
  difficulty : String.string
}.

Record LogData : Type := {
  metadata : LogMetadata;
  laser_data : list Laser.row;
  position_data : list Position.row;
  obstacle_data : list Obstacle.row
}.

Section Assembler.

Context {A : arithmetic}.
Variable to_float : String.string -> float.

(** [open(log_file)]: the lines of the file, or the exception that
    [open] raises on the path: [FileNotFoundError] when nothing is there,
    [IsADirectoryError] for a directory, [PermissionError] for a file that
    may not be read. *)
Variable files : String.string -> result (list line).

(** The lines of [log_file] whose fourth token is [interface]. *)
Definition read_log (log_file interface : String.string) : result (list line) :=
  lines <- files log_file ;;
  Ok (filter (fun splits =>
                (3 <? length splits) && String.eqb (nth 3 splits String.EmptyString) interface)
             lines).

Definition target_position_of (log_metadata : LogMetadata) : R * R :=
  if String.eqb (difficulty log_metadata) "realistic"%string
  then (-1, 6)%R else (-8, -7.5)%R.

Definition get_log_data (log_metadata : LogMetadata) : result LogData :=
  let path := path log_metadata in
  laser_lines <- read_log path "laser"%string ;;
  laser_data <- get_laser_data to_float laser_lines ;;
  let target_position := target_position_of log_metadata in
  position_lines <- read_log path "position2d"%string ;;
  position_data <- get_position_data to_float position_lines target_position ;;
  obstacle_data <- get_obstacle_data position_data laser_data ;;
  Ok {| metadata := log_metadata; laser_data := laser_data;
        position_data := position_data; obstacle_data := obstacle_data |}.

End Assembler.

(** ** Grouping *)

Section Grouping.

Context {T K : Type}.
Variable key_eqb : K -> K -> bool.
Variable key_function : T -> K.

(** [itertools.groupby]: the maximal runs of consecutive elements with equal
    keys, each with the key of its first element. *)
Fixpoint groupby (iterable : list T) : list (K * list T) :=
  match iterable with
  | [] => []
  | x :: rest =>
      match groupby rest with
      | (k, g) :: gs =>
          if key_eqb (key_function x) k then (key_function x, x :: g) :: gs
          else (key_function x, [x]) :: (k, g) :: gs
      | [] => [(key_function x, [x])]
      end
  end.

(** [d[k] = v] on a dictionary kept in insertion order: an existing key
    keeps its place and takes the new value. *)
Fixpoint dict_set (k : K) (v : list T) (d : list (K * list T)) : list (K * list T) :=
  match d with
  | [] => [(k, v)]
  | (k', v') :: d' =>
      if key_eqb k k' then (k', v) :: d' else (k', v') :: dict_set k v d'
  end.

Definition group_by (iterable : list T) : list (K * list T) :=
  fold_left (fun d (kg : K * list T) => dict_set (fst kg) (snd kg) d)
            (groupby iterable) [].

End Grouping.

(** The two-level grouping of [process_log_dir]. *)
Definition group_by_algorithm_and_difficulty (logs_data : list LogData)
  : list (String.string * list (String.string * list LogData)) :=
  let grouped_by_algorithm :=
    group_by String.eqb (fun ld => algorithm (metadata ld)) logs_data in
  map (fun al : String.string * list LogData =>
         (fst al, group_by String.eqb (fun ld => difficulty (metadata ld)) (snd al)))
      grouped_by_algorithm.

(** ** The layout of a laser line *)

Section LaserLayout.

Variable to_float : String.string -> float.

(** The number read from column [c] of a line. *)
Definition token_float (l : line) (c : nat) : float :=
  to_float (nth c l String.EmptyString).

Definition int_of (v : float) : Z :=
  match v with Fin x => cast_int64 x | NaN => 0%Z end.

(** The scan held by one data line, column by column, before the
    out-of-range readings are masked. *)
Definition scan_of_line (l : line) : Laser.row :=
  {| Laser.time := token_float l 0;
     Laser.scan_id := int_of (token_float l 7);
     Laser.min_angle := token_float l 8;
     Laser.max_angle := token_float l 9;
     Laser.resolution := token_float l 10;
     Laser.max_range := token_float l 11;
     Laser.count := int_of (token_float l 12);
     Laser.ranges := map (fun k => token_float l (13 + 2 * k)) (seq 0 361);
     Laser.intensities := map (fun k => token_float l (14 + 2 * k)) (seq 0 361) |}.

(** A data line that [get_laser_data] accepts: all 735 columns are there
    and the two columns cast to integers hold numbers. *)
Definition scan_line_ok (l : line) : Prop :=
  735 <= length l /\ token_float l 7 <> NaN /\ token_float l 12 <> NaN.

End LaserLayout.

(** What the design document promises of every stored range: unknown, or a
    number strictly below the recorded maximum range. *)
Definition below_max_range_or_unknown (max_range v : float) : Prop :=
  v = NaN \/ exists x m, v = Fin x /\ max_range = Fin m /\ (x < m)%R.

(** The column of the [k]-th range as the design document words the layout:
    seven metadata values first within columns 7..734, then the pairs. *)
Definition spec_range_column (k : nat) : nat := 7 + 7 + 2 * k.

(** ** Readings and derived columns *)

(** The numbers that [genfromtxt] reads from one line. *)
Definition readings_of (to_float : String.string -> float) (usecols : list nat)
    (l : line) : list float :=
  map to_float (map (fun c => nth c l String.EmptyString) usecols).

(** The three derived columns of the position table. *)
Definition speeds {A : arithmetic} (readings : list (list float)) : list float :=
  map2 hypot (column 4 readings) (column 5 readings).

Definition accelerations {A : arithmetic} (readings : list (list float))
  : list quotient :=
  Float (Fin 0) :: map2 fdiv (diff (speeds readings)) (diff (column 0 readings)).

Definition distances {A : arithmetic} (target : R * R)
    (readings : list (list float)) : list float :=
  map2 (fun x y => hypot (fsub x (Fin (fst target))) (fsub y (Fin (snd target))))
       (column 1 readings) (column 2 readings).

(** ** The rows of the position table *)

(** The row that [get_position_data] makes of the seven numbers read from a
    line and of the three derived values. *)
Definition position_row_of (cols : list float * (float * (quotient * float)))
  : Position.row :=
  let '(r, (s, (acc, d))) := cols in
  {| Position.time := nth 0 r NaN; Position.px := nth 1 r NaN;
     Position.py := nth 2 r NaN; Position.pa := nth 3 r NaN;
     Position.vx := nth 4 r NaN; Position.vy := nth 5 r NaN;
     Position.va := nth 6 r NaN; Position.scalar_speed := s;
     Position.a := acc; Position.distance_to_target := d |}.

(** ** Entries of arrays *)

(** The entry of row [i] and column [j], without stretching. *)
Definition entry (m : matrix) (i j : nat) : float :=
  nth j (nth i (mrows m) []) NaN.

(** [row.min(initial=8, where=~np.isnan(row))] *)
Definition nearest (row : list float) : float :=
  min_where (Fin 8) row (map (fun v => negb (isnan v)) row).

(** The nearest-obstacle distance as the design document words it: the
    minimum of the known ranges of the scan, and the recorded maximum range
    of the laser when no range of the scan is known. *)
Fixpoint min_known (row : list float) : option R :=
  match row with
  | [] => None
  | NaN :: rest => min_known rest
  | Fin x :: rest =>
      match min_known rest with
      | None => Some x
      | Some m => Some (Rmin x m)
      end
  end.

Definition spec_nearest (max_range : float) (row : list float) : float :=
  match min_known row with
  | Some m => Fin m
  | None => max_range
  end.

(** ** The tolerance of the projection *)

(** How far the stored coordinate [round (p + round (r * c))], with [c]
    the library cosine (or sine) of an angle, can be from [p] plus [r]
    times the cosine (or sine) of that angle: the error of the library
    function, that of the product and that of the sum. *)
Definition coordinate_error {A : arithmetic} (p r : R) : R :=
  let product := (Rabs r * (1 + libm_error))%R in
  let product_error := (unit_roundoff * product + underflow_unit)%R in
  (libm_error * Rabs r + product_error
   + (unit_roundoff * (Rabs p + (product + product_error)) + underflow_unit))%R.

Definition projection_tolerance {A : arithmetic} (px py r : R) : R :=
  (coordinate_error px r + coordinate_error py r)%R.

(** ** Buckets *)

(** The records of all the buckets of a two-level grouping, bucket after
    bucket. *)
Definition all_records
    (grouped : list (String.string * list (String.string * list LogData)))
  : list LogData :=
  concat (map (fun al : String.string * list (String.string * list LogData) =>
                 concat (map snd (snd al)))
              grouped).

(** No key heads two runs of the sequence: the elements with one key are
    adjacent. *)
Definition keys_adjacent {T : Type} (key_function : T -> String.string)
    (iterable : list T) : Prop :=
  NoDup (map fst (groupby String.eqb key_function iterable)).

(** ** Example inputs *)

(** The conversion of the examples: [float()] on the tokens that are integer
    numerals; every other token reads as NaN, as [genfromtxt] makes of a
    token [float()] rejects. *)
Definition float_of_numeral (s : String.string) : float :=
  match DecimalString.NilZero.int_of_string s with
  | Some d => Fin (IZR (Z.of_int d))
  | None => NaN
  end.

Definition numeral (n : nat) : String.string :=
  DecimalString.NilZero.string_of_uint (Nat.to_uint n).

Definition laser_header : line :=
  ["0"; "host"; "0"; "laser"; "00"; "004"; "001"]%string.

(** A scan line whose recorded maximum range does not parse: every column
    holds 1, column 11 holds the text nan. *)
Definition scan_line_nan : line :=
  (repeat "1" 11 ++ ["nan"] ++ repeat "1" 723)%string.

Definition scan_line_ones : line := repeat "1"%string 735.

(** A scan line with maximum range 8 whose ranges are 3, except the second
    which is 8 and the third which is 9. *)
Definition scan_line_8 : line :=
  map (fun c => if c =? 11 then "8" else if c =? 15 then "8"
                else if c =? 17 then "9" else "3")%string (seq 0 735).

(** A scan line whose column [c] holds the number [c], the maximum range
    apart, which is 1000. *)
Definition scan_line_index : line :=
  map (fun c => if c =? 11 then "1000"%string else numeral c) (seq 0 735).

Definition position_header : line :=
  ["0"; "host"; "0"; "position2d"; "00"; "004"; "001"].

(** A position line at time [t], at rest at the origin but for the
    velocity ([vx], [vy]). *)
Definition position_line (t vx vy : String.string) : line :=
  [t; "host"; "0"; "position2d"; "00"; "001"; "001"; "0"; "0"; "0"; vx; vy; "0"].

(** A laser line of 361 beams, of maximum range 8, all ranges 3. *)
Definition scan_line_run : line :=
  map (fun c => if c =? 3 then "laser" else if c =? 11 then "8"
                else if c =? 12 then "361" else "3") (seq 0 735).

(** A log of two scans and two position samples, interleaved, and the
    directory that holds it under a difficulty that is no preset. *)
Definition run_log : list line :=
  [laser_header; position_header;
   scan_line_run; position_line "0" "3" "4";
   scan_line_run; position_line "2" "0" "0"].

Definition run_files (p : String.string) : result (list line) :=
  if String.eqb p "logs/vfh/hard/1.log" then Ok run_log else Raise FileNotFoundError.

Definition run_metadata : LogMetadata :=
  {| index := 1; path := "logs/vfh/hard/1.log"; algorithm := "vfh";
     difficulty := "hard" |}.

(** ** Example tables *)

(** A position sample at rest. *)
Definition pose (t x y heading : R) : Position.row :=
  {| Position.time := Fin t; Position.px := Fin x; Position.py := Fin y;
     Position.pa := Fin heading; Position.vx := Fin 0; Position.vy := Fin 0;
     Position.va := Fin 0; Position.scalar_speed := Fin 0; Position.a := Float (Fin 0);
     Position.distance_to_target := Fin 0 |}.

(** A scan over the angles 0 to 1 with the given maximum range and ranges. *)
Definition scan (t max_range : R) (ranges : list float) : Laser.row :=
  {| Laser.time := Fin t; Laser.scan_id := 0%Z; Laser.min_angle := Fin 0;
     Laser.max_angle := Fin 1; Laser.resolution := Fin 1;
     Laser.max_range := Fin max_range; Laser.count := Z.of_nat (length ranges);
     Laser.ranges := ranges; Laser.intensities := map (fun _ => Fin 0) ranges |}.

(** A laser of maximum range 30: one scan sees obstacles at 10 and 20, the
    next sees nothing. *)
Definition far_scans : list Laser.row :=
  [scan 0 30 [Fin 10; Fin 20]; scan 1 30 [NaN; NaN]].

Definition two_poses : list Position.row := [pose 0 0 0 0; pose 1 0 0 0].

Definition three_poses : list Position.row :=
  [pose 0 0 0 0; pose 1 0 0 0; pose 2 0 0 0].
(** One scan with a negative range and an unknown one. *)
Definition odd_scans : list Laser.row := [scan 0 8 [Fin (-1); NaN]].

Definition one_pose : list Position.row := [pose 0 0 0 0].

(** A position sample whose [px] did not parse, and a scan with a range 2. *)
Definition pose_without_px : Position.row :=
  {| Position.time := Fin 0; Position.px := NaN; Position.py := Fin 0;
     Position.pa := Fin 0; Position.vx := Fin 0; Position.vy := Fin 0;
     Position.va := Fin 0; Position.scalar_speed := Fin 0; Position.a := Float (Fin 0);
     Position.distance_to_target := NaN |}.

Definition near_scans : list Laser.row := [scan 0 8 [Fin 2; Fin 3]].

(** A log record that holds its metadata only. *)
Definition bare_log (i : nat) (alg diff : String.string) : LogData :=
  {| metadata := {| index := i; path := "log"%string; algorithm := alg; difficulty := diff |};
     laser_data := []; position_data := []; obstacle_data := [] |}.

(** Three records in which the algorithm vfh comes back after nd. *)
Definition interleaved_logs : list LogData :=
  [bare_log 1 "vfh" "easy"; bare_log 2 "nd" "easy"; bare_log 3 "vfh" "realistic"]%string.

(** The records as the log directory is walked: algorithm by algorithm,
    difficulty by difficulty. *)
Definition walked_logs : list LogData :=
  [bare_log 1 "vfh" "easy"; bare_log 2 "vfh" "easy"; bare_log 1 "vfh" "realistic";
   bare_log 1 "nd" "easy"]%string.

(** The scan line [scan_line_8] with the interface name in its fourth
    column, as the log holds it. *)
Definition scan_line_8_tagged : line :=
  map (fun c => if c =? 3 then "laser" else if c =? 11 then "8"
                else if c =? 15 then "8" else if c =? 17 then "9" else "3")
      (seq 0 735).

(** The position stream of the example log. *)
Definition position_stream : list line :=
  [position_header; position_line "0" "3" "4"; position_line "2" "0" "0"].

(** A scan of three beams over the angles 0 to 1. *)
Definition three_beams : list Laser.row := [scan 0 8 [Fin 1; Fin 2; Fin 3]].

(** A directory in which the log of the example holds its laser lines
    only. *)
Definition laser_only_files (p : String.string) : result (list line) :=
  if String.eqb p "logs/vfh/hard/1.log"
  then Ok [laser_header; scan_line_run; scan_line_run] else Raise FileNotFoundError.

(** A scan line with a comment mark in its second token: [np.genfromtxt]
    reads its first token only. *)
Definition scan_line_commented : line :=
  map (fun c => if c =? 1 then "#host" else "3") (seq 0 735).

(** A directory where the log file should be. *)
Definition directory_files (p : String.string) : result (list line) :=
  Raise IsADirectoryError.

(** ** LogDiscovery *)

Section Discovery.

(** The directory tree as [pathlib] shows it: [iterdir] lists the paths in
    a directory, in the order of the operating system, or raises;
    [glob_log] is [glob] with the pattern of the log files; [stem] is the
    last component of a path without its suffix.  [E] is the type of the
    exceptions of the two listings. *)
Context {E : Type}.
Variable iterdir : String.string -> E + list String.string.
Variable glob_log : String.string -> E + list String.string.
Variable stem : String.string -> String.string.

(** [enumerate(iterable, start)]. *)
Definition enumerate {A : Type} (start : nat) (iterable : list A) : list (nat * A) :=
  combine (seq start (length iterable)) iterable.

(** A nested [for] of the generator: the records of every element, in
    order, up to the first listing that raises. *)
Fixpoint for_each {A : Type} (body : A -> E + list LogMetadata) (iterable : list A)
  : E + list LogMetadata :=
  match iterable with
  | [] => inr []
  | x :: rest =>
      match body x with
      | inl e => inl e
      | inr records =>
          match for_each body rest with
          | inl e => inl e
          | inr more => inr (records ++ more)
          end
      end
  end.

(** The records of one difficulty folder. *)
Definition difficulty_logs (algorithm_path difficulty_path : String.string)
  : E + list LogMetadata :=
  match glob_log difficulty_path with
  | inl e => inl e
  | inr log_files =>
      inr (map (fun il : nat * String.string =>
                  {| index := fst il;
                     path := snd il;
                     algorithm := stem algorithm_path;
                     difficulty := stem difficulty_path |})
               (enumerate 1 log_files))
  end.

(** The records of one algorithm folder. *)
Definition algorithm_logs (algorithm_path : String.string) : E + list LogMetadata :=
  match iterdir algorithm_path with
  | inl e => inl e
  | inr difficulty_paths => for_each (difficulty_logs algorithm_path) difficulty_paths
  end.

(** The generator of [get_logs_metadata] consumed to its end, as [Pool.map]
    consumes it before it hands out any record. *)
Definition get_logs_metadata (log_dir : String.string) : E + list LogMetadata :=
  match iterdir log_dir with
  | inl e => inl e
  | inr algorithm_paths => for_each algorithm_logs algorithm_paths
  end.

End Discovery.

(** ** The plots directory *)

(** A file tree of plain files and directories; the entries of a directory
    are in the order [iterdir] lists them. *)
#[warnings="-register-all"]
Inductive node : Type :=
  | File
  | Dir (entries : list (String.string * node)).

(** What the two functions leave at their path, or the exception of
    [iterdir] on a path that is no directory. *)
Inductive outcome : Type :=
  | Left (tree : node)
  | NotADirectoryError.

Section ClearLoop.

(** [reset_dir] on a path that [iterdir] listed and that is a directory. *)
Variable reset_sub_path : node -> outcome.

(** The loop of [clear_dir] over the entries that [iterdir] lists: a plain
    file is unlinked, a directory is reset; what is left of the entries. *)
Fixpoint clear_entries (sub_paths : list (String.string * node))
  : option (list (String.string * node)) :=
  match sub_paths with
  | [] => Some []
  | (name, File) :: rest => clear_entries rest
  | (name, (Dir _) as sub_path) :: rest =>
      match reset_sub_path sub_path with
      | Left sub_tree =>
          match clear_entries rest with
          | Some kept => Some ((name, sub_tree) :: kept)
          | None => None
          end
      | NotADirectoryError => None
      end
  end.

End ClearLoop.

(** [clear_dir] on the tree at [dir_path].  The directories among the
    entries exist, so that [reset_dir] on one of them clears it in turn. *)
Fixpoint clear_dir (tree : node) : outcome :=
  match tree with
  | File => NotADirectoryError
  | Dir entries =>
      match clear_entries clear_dir entries with
      | Some kept => Left (Dir kept)
      | None => NotADirectoryError
      end
  end.

(** [reset_dir] on what is at [dir_path], if anything, in a directory that
    exists. *)
Definition reset_dir (at_path : option node) : outcome :=
  match at_path with
  | Some tree => clear_dir tree
  | None => Left (Dir [])
  end.

(** The paths of the plain files of a tree, and those of its directories,
    from the root of the tree. *)
Fixpoint file_paths (tree : node) : list (list String.string) :=
  match tree with
  | File => [[]]
  | Dir entries =>
      flat_map (fun entry : String.string * node =>
                  map (cons (fst entry)) (file_paths (snd entry)))
               entries
  end.

Fixpoint dir_paths (tree : node) : list (list String.string) :=
  match tree with
  | File => []
  | Dir entries =>
      [] :: flat_map (fun entry : String.string * node =>
                        map (cons (fst entry)) (dir_paths (snd entry)))
                     entries
  end.

(** ** An example log directory *)

(** The log directory of the example log: the algorithm folders vfh, which
    holds the difficulty folder hard with one log, and nd, which is empty.
    A path that is no folder of the tree cannot be listed. *)
Definition example_iterdir (p : String.string) : String.string + list String.string :=
  if String.eqb p "logs" then inr ["logs/vfh"; "logs/nd"]
  else if String.eqb p "logs/vfh" then inr ["logs/vfh/hard"]
  else if String.eqb p "logs/nd" then inr []
  else inl "NotADirectoryError".

Definition example_glob_log (p : String.string) : String.string + list String.string :=
  if String.eqb p "logs/vfh/hard" then inr ["logs/vfh/hard/1.log"] else inr [].

(** The stems of the folders of the example. *)
Definition example_stem (p : String.string) : String.string :=
  if String.eqb p "logs/vfh" then "vfh"
  else if String.eqb p "logs/nd" then "nd"
  else if String.eqb p "logs/vfh/hard" then "hard"
  else p.

(** * Properties *)

(** ** The exception monad *)

Lemma bind_Ok (A B : Type) (c : result A) (k : A -> result B) (b : B) :
  bind c k = Ok b -> exists a, c = Ok a /\ k a = Ok b.
Proof.
  destruct c as [a|e]; simpl; intros H; [exists a; auto | discriminate].
Qed.

Ltac bind_inv H :=
  let a := fresh "v" in
  let Ha := fresh "E" in
  apply bind_Ok in H; destruct H as (a & Ha & H).

Lemma mapM_total (A B : Type) (f : A -> result B) (g : A -> B) (l : list A) :
  Forall (fun x => f x = Ok (g x)) l -> mapM f l = Ok (map g l).
Proof.
  induction 1 as [|x l Hx _ IH]; simpl; [reflexivity|].
  rewrite Hx. simpl. rewrite IH. reflexivity.
Qed.

Lemma mapM_Ok_map (A B : Type) (f : A -> result B) (g : A -> B) (l : list A) (l' : list B) :
  mapM f l = Ok l' ->
  (forall x y, In x l -> f x = Ok y -> y = g x) ->
  l' = map g l.
Proof.
  revert l'; induction l as [|x l IH]; intros l' H Hg; simpl in *.
  - injection H as <-. reflexivity.
  - bind_inv H. bind_inv H. injection H as <-.
    f_equal; [apply Hg; auto | apply IH; auto].
Qed.

Lemma mapM_Ok_In (A B : Type) (f : A -> result B) (l : list A) (l' : list B) (x : A) :
  mapM f l = Ok l' -> In x l -> exists y, f x = Ok y.
Proof.
  revert l'; induction l as [|z l IH]; intros l' H Hin; simpl in *; [contradiction|].
  bind_inv H. bind_inv H.
  destruct Hin as [<-|Hin]; [eauto | eapply IH; eauto].
Qed.

(** ** Column selection and slices *)

Lemma select_cols_Some (A : Type) (d : A) (usecols : list nat) (values : list A) :
  Forall (fun c => c < length values) usecols ->
  select_cols usecols values = Some (map (fun c => nth c values d) usecols).
Proof.
  induction 1 as [|c cs Hc _ IH]; simpl; [reflexivity|].
  rewrite IH.
  destruct (nth_error values c) as [v|] eqn:E.
  - rewrite (nth_error_nth _ _ d E). reflexivity.
  - apply nth_error_None in E. lia.
Qed.

Lemma select_cols_None (A : Type) (usecols : list nat) (values : list A) :
  Exists (fun c => length values <= c) usecols ->
  select_cols usecols values = None.
Proof.
  induction 1 as [c cs Hc | c cs _ IH]; simpl.
  - apply nth_error_None in Hc. rewrite Hc. reflexivity.
  - rewrite IH. destruct (nth_error values c); reflexivity.
Qed.

Lemma every_other_map (A B : Type) (f : A -> B) (l : list A) :
  every_other (map f l) = map f (every_other l).
Proof.
  enough (H : forall n l, length l <= n -> every_other (map f l) = map f (every_other l)).
  { apply (H (length l)); lia. }
  clear l; induction n as [|n IH]; intros [|x [|y l]] Hl; simpl in *;
    try reflexivity; try lia.
  f_equal. apply IH. lia.
Qed.

Lemma slice_from_step2_map (A B : Type) (f : A -> B) (start : nat) (l : list A) :
  slice_from_step2 start (map f l) = map f (slice_from_step2 start l).
Proof.
  unfold slice_from_step2. rewrite skipn_map. apply every_other_map.
Qed.

(** The columns of a text line that end in the metadata, the ranges and the
    intensities of its scan. *)
Lemma laser_metadata_columns : firstn 7 laser_usecols = [0; 7; 8; 9; 10; 11; 12].
Proof. reflexivity. Qed.

Lemma laser_ranges_columns :
  slice_from_step2 7 laser_usecols = map (fun k => 13 + 2 * k) (seq 0 361).
Proof. vm_compute. reflexivity. Qed.

Lemma laser_intensities_columns :
  slice_from_step2 8 laser_usecols = map (fun k => 14 + 2 * k) (seq 0 361).
Proof. vm_compute. reflexivity. Qed.

Lemma laser_usecols_bound (n : nat) :
  Forall (fun c => c < n) laser_usecols <-> 735 <= n.
Proof.
  unfold laser_usecols. split.
  - intros H. rewrite Forall_forall in H.
    assert (Hin : In 734 (0 :: seq 7 728)) by (right; apply in_seq; lia).
    specialize (H _ Hin). lia.
  - intros H. constructor; [lia|]. apply Forall_forall. intros c Hc.
    apply in_seq in Hc. lia.
Qed.

(** ** get_laser_data, line by line *)

Lemma combine_map3 (A B C D : Type) (f : A -> B) (g : A -> C) (h : A -> D) (l : list A) :
  combine (map f l) (combine (map g l) (map h l)) = map (fun x => (f x, (g x, h x))) l.
Proof. induction l as [|x l IH]; simpl; [reflexivity | rewrite IH; reflexivity]. Qed.

Lemma mapM_map (A B C : Type) (f : B -> result C) (g : A -> B) (l : list A) :
  mapM f (map g l) = mapM (fun x => f (g x)) l.
Proof. induction l as [|x l IH]; simpl; [reflexivity | rewrite IH; reflexivity]. Qed.

Lemma rows2d_squeeze (rows rows' : list (list float)) :
  rows2d (squeeze rows) = Ok rows' <-> rows' = rows /\ 2 <= length rows.
Proof.
  destruct rows as [|r [|r' rows]]; simpl; split; intros H;
    try discriminate; try (destruct H; simpl in *; lia).
  - injection H as <-. split; [reflexivity | lia].
  - destruct H as [-> _]. reflexivity.
Qed.

Lemma to_int64_Ok (v : float) (z : Z) :
  to_int64 v = Ok z <-> v <> NaN /\ z = int_of v.
Proof.
  destruct v as [|x]; simpl; split; intros H; try discriminate.
  - destruct H as [H _]. congruence.
  - injection H as <-. split; [discriminate | reflexivity].
  - destruct H as [_ ->]. reflexivity.
Qed.

Section LaserProperties.

Variable to_float : String.string -> float.

Lemma genfromtxt_Ok (lines : list line) (usecols : list nat) (arr : ndarray) :
  genfromtxt to_float lines usecols = Ok arr <->
  Forall (fun l => Forall (fun c => c < length l) usecols) (data_lines lines) /\
  arr = squeeze (map (readings_of to_float usecols) (data_lines lines)).
Proof.
  unfold genfromtxt. set (rows := data_lines lines). clearbody rows.
  split.
  - intros H. bind_inv H. injection H as <-.
    assert (Hall : Forall (fun l => Forall (fun c => c < length l) usecols) rows).
    { apply Forall_forall. intros l Hl.
      destruct (mapM_Ok_In _ _ _ _ _ _ E Hl) as (y & Hy).
      destruct (Forall_Exists_dec (fun c => c < length l)
                  (fun c => lt_dec c (length l)) usecols) as [Hok|Hbad];
        [assumption|].
      rewrite select_cols_None in Hy; [discriminate|].
      eapply Exists_impl; [|exact Hbad]. simpl. intros c Hc. lia. }
    split; [assumption|]. f_equal.
    apply mapM_Ok_map with (1 := E). intros l y Hl Hy.
    rewrite Forall_forall in Hall.
    rewrite (select_cols_Some _ String.EmptyString _ _ (Hall l Hl)) in Hy.
    injection Hy as <-. reflexivity.
  - intros [Hall ->].
    rewrite (mapM_total _ _ _ (readings_of to_float usecols)); [reflexivity|].
    eapply Forall_impl; [|exact Hall]. simpl. intros l Hl.
    rewrite (select_cols_Some _ String.EmptyString _ _ Hl). reflexivity.
Qed.

Lemma laser_row_of_readings (l : line) (row : Laser.row) :
  let r := readings_of to_float laser_usecols l in
  laser_row (firstn 7 r, (slice_from_step2 7 r, slice_from_step2 8 r)) = Ok row <->
  token_float to_float l 7 <> NaN /\ token_float to_float l 12 <> NaN /\
  row = scan_of_line to_float l.
Proof.
  intros r. subst r. unfold readings_of. rewrite map_map.
  rewrite !slice_from_step2_map, firstn_map.
  rewrite laser_metadata_columns, laser_ranges_columns, laser_intensities_columns.
  rewrite !map_map. cbn [map laser_row].
  fold (token_float to_float l 7). fold (token_float to_float l 12).
  unfold scan_of_line. generalize (seq 0 361). intros ks.
  split.
  - intros H. bind_inv H. bind_inv H. injection H as <-.
    apply to_int64_Ok in E, E0. destruct E as [H7 ->], E0 as [H12 ->].
    repeat split; assumption.
  - intros (H7 & H12 & ->).
    destruct (to_int64 (token_float to_float l 7)) as [sid|] eqn:E7.
    2:{ destruct (token_float to_float l 7); [congruence | discriminate]. }
    destruct (to_int64 (token_float to_float l 12)) as [cnt|] eqn:E12.
    2:{ destruct (token_float to_float l 12); [congruence | discriminate]. }
    apply to_int64_Ok in E7, E12. destruct E7 as [_ ->], E12 as [_ ->].
    reflexivity.
Qed.

(** The whole of [get_laser_data]: when it returns and what. *)
Lemma get_laser_data_Ok (header : line) (data : list line) (table : list Laser.row) :
  let rows := data_lines data in
  get_laser_data to_float (header :: data) = Ok table <->
  2 <= length rows /\ Forall (scan_line_ok to_float) rows /\
  table = map (Laser.set_ranges
                 (mask_out_of_range
                    (token_float to_float (hd [] rows) 11)))
              (map (scan_of_line to_float) rows).
Proof.
  intros rows. unfold get_laser_data.
  split.
  - intros H. bind_inv H. bind_inv H. bind_inv H.
    apply genfromtxt_Ok in E. destruct E as [Hlen ->].
    apply rows2d_squeeze in E0. destruct E0 as [-> Hn].
    fold rows in Hlen, Hn, E1. rewrite length_map in Hn.
    rewrite combine_map3, !mapM_map in E1.
    assert (Hok : Forall (scan_line_ok to_float) rows).
    { apply Forall_forall. intros l Hl.
      destruct (mapM_Ok_In _ _ _ _ _ _ E1 Hl) as (y & Hy).
      apply laser_row_of_readings in Hy. destruct Hy as (H7 & H12 & _).
      rewrite Forall_forall in Hlen. specialize (Hlen l Hl).
      apply laser_usecols_bound in Hlen. repeat split; assumption. }
    assert (Hv : v1 = map (scan_of_line to_float) rows).
    { apply mapM_Ok_map with (1 := E1). intros l y Hl Hy.
      apply laser_row_of_readings in Hy. tauto. }
    subst v1. split; [assumption|]. split; [assumption|].
    destruct rows as [|l0 rows']; simpl in *; [lia|].
    injection H as <-. reflexivity.
  - intros (Hn & Hok & ->).
    assert (Hgen : genfromtxt to_float data laser_usecols
                   = Ok (squeeze (map (readings_of to_float laser_usecols) rows))).
    { apply genfromtxt_Ok. split; [|reflexivity].
      eapply Forall_impl; [|exact Hok]. simpl. intros l (Hl & _).
      apply laser_usecols_bound. assumption. }
    rewrite Hgen. simpl bind.
    assert (H2d : rows2d (squeeze (map (readings_of to_float laser_usecols) rows))
                  = Ok (map (readings_of to_float laser_usecols) rows)).
    { apply rows2d_squeeze. rewrite length_map. split; [reflexivity | assumption]. }
    rewrite H2d. simpl bind.
    rewrite combine_map3, !mapM_map.
    rewrite (mapM_total _ _ _ (scan_of_line to_float)).
    + destruct rows as [|l0 rows']; simpl in *; [lia | reflexivity].
    + eapply Forall_impl; [|exact Hok]. simpl. intros l (Hl & H7 & H12).
      apply laser_row_of_readings. repeat split; assumption.
Qed.

End LaserProperties.

Lemma nth_map_seq (A : Type) (f : nat -> A) (n j : nat) (d : A) :
  j < n -> nth j (map f (seq 0 n)) d = f j.
Proof.
  intros H. rewrite (nth_indep _ d (f 0)) by (rewrite length_map, length_seq; lia).
  rewrite map_nth, seq_nth by lia. reflexivity.
Qed.

Lemma Rgeb_true (a b : R) : Rgeb a b = true <-> (b <= a)%R.
Proof. unfold Rgeb. destruct (Rle_dec b a); split; intros; try discriminate; tauto. Qed.

Lemma Rgeb_false (a b : R) : Rgeb a b = false <-> (a < b)%R.
Proof.
  unfold Rgeb. destruct (Rle_dec b a); split; intros; try discriminate; try lra; auto.
Qed.

Lemma Rtrunc_IZR (z : Z) : Rtrunc (IZR z) = z.
Proof.
  unfold Rtrunc. destruct (Rle_dec 0 (IZR z)) as [H|H].
  - symmetry. apply Int_part_spec. lra.
  - rewrite <- opp_IZR. rewrite <- (Int_part_spec (IZR (- z)) (- z)) by lra. lia.
Qed.

Lemma cast_int64_IZR (z : Z) :
  (- 2 ^ 63 <= z < 2 ^ 63)%Z -> cast_int64 (IZR z) = z.
Proof.
  intros [Hlo Hhi]. unfold cast_int64. rewrite Rtrunc_IZR. cbv zeta.
  destruct (Z.leb_spec (- 2 ^ 63) z); [|lia].
  destruct (Z.ltb_spec z (2 ^ 63)); [reflexivity | lia].
Qed.

Lemma cut_comment_plain (l : line) :
  Forall (fun token => String.index 0 "#" token = None) l -> cut_comment l = l.
Proof.
  induction 1 as [|token l Htoken _ IH]; [reflexivity|].
  cbn [cut_comment]. rewrite Htoken, IH. reflexivity.
Qed.

(** Plain lines are all read, as they are. *)
Lemma data_lines_plain (lines : list line) :
  Forall plain lines -> data_lines lines = lines.
Proof.
  unfold data_lines. induction 1 as [|l lines [Hne Hl] _ IH]; [reflexivity|].
  cbn [map filter]. rewrite (cut_comment_plain l Hl).
  destruct l; [congruence|]. cbn [nonblank]. f_equal. exact IH.
Qed.

(** A number beyond the range of [int64] is stored as [-2^63]. *)
Lemma cast_int64_beyond (z : Z) :
  (z < - 2 ^ 63 \/ 2 ^ 63 <= z)%Z -> cast_int64 (IZR z) = (- 2 ^ 63)%Z.
Proof.
  intros Hz. unfold cast_int64. rewrite Rtrunc_IZR. cbv zeta.
  destruct (Z.leb_spec (- 2 ^ 63) z); [|reflexivity].
  destruct (Z.ltb_spec z (2 ^ 63)); [lia | reflexivity].
Qed.

(** The token [1e19] is stored as [-2^63] by the conversion to [int64]. *)
Lemma to_int64_beyond : to_int64 (Fin (IZR (10 ^ 19))) = Ok (- 2 ^ 63)%Z.
Proof.
  unfold to_int64. f_equal. apply cast_int64_beyond. right. lia.
Qed.

Section LaserClaims.

Context {A : arithmetic}.

Variable to_float : String.string -> float.

Lemma get_laser_data_row (lines : list line) (table : list Laser.row)
    (i : nat) (l : line) (row : Laser.row) :
  get_laser_data to_float lines = Ok table ->
  nth_error (data_lines (tl lines)) i = Some l ->
  nth_error table i = Some row ->
  row = Laser.set_ranges
          (mask_out_of_range
             (token_float to_float (hd [] (data_lines (tl lines))) 11))
          (scan_of_line to_float l).
Proof.
  intros H Hl Hrow. destruct lines as [|header data]; [discriminate|].
  apply get_laser_data_Ok in H. destruct H as (_ & _ & ->). simpl tl in *.
  rewrite map_map in Hrow.
  rewrite (map_nth_error _ _ _ Hl) in Hrow. injection Hrow as <-. reflexivity.
Qed.

Lemma get_laser_data_first (lines : list line) (table : list Laser.row) :
  get_laser_data to_float lines = Ok table ->
  exists first,
    hd_error table = Some first /\
    Laser.max_range first
    = token_float to_float (hd [] (data_lines (tl lines))) 11.
Proof.
  intros H. destruct lines as [|header data]; [discriminate|].
  apply get_laser_data_Ok in H. destruct H as (Hn & _ & ->). simpl tl.
  destruct (data_lines data) as [|l0 rows]; simpl in *; [lia|].
  eexists. split; reflexivity.
Qed.

Lemma get_laser_data_length (lines : list line) (table : list Laser.row) :
  get_laser_data to_float lines = Ok table ->
  length table = length (data_lines (tl lines)) /\ 2 <= length table.
Proof.
  intros H. destruct lines as [|header data]; [discriminate|].
  apply get_laser_data_Ok in H. destruct H as (Hn & _ & ->). simpl tl.
  rewrite !length_map. split; [reflexivity | assumption].
Qed.

Lemma mask_out_of_range_nth (m : float) (f : nat -> float) (n j : nat) (d : float) :
  j < n ->
  nth j (mask_out_of_range m (map f (seq 0 n))) d
  = if fge (f j) m then NaN else f j.
Proof.
  intros H. unfold mask_out_of_range. rewrite map_map.
  rewrite nth_map_seq by assumption. reflexivity.
Qed.

Lemma masked_below (m stored : float) :
  m <> NaN ->
  below_max_range_or_unknown m (if fge stored m then NaN else stored).
Proof.
  intros Hm. destruct (fge stored m) eqn:E; [left; reflexivity|].
  destruct stored as [|x]; [left; reflexivity|].
  destruct m as [|mr]; [congruence|].
  right. exists x, mr. simpl in E. apply Rgeb_false in E. auto.
Qed.

(** C1 (as amended).  In every laser table built by [get_laser_data], the
    [j]-th range of the [i]-th row is the number stored in column
    [13 + 2 j] of the [i]-th data line (the lines after the header as
    [np.genfromtxt] reads them: cut at their comment marks, the blank ones
    left out), replaced by NaN ("unknown") when it
    is greater than or equal to the maximum range recorded in the first
    row, and kept otherwise; a stored range equal to that maximum range
    becomes NaN; and when the recorded maximum range is a number, every
    output range is NaN or a number strictly below it. *)
Theorem laser_ranges_masked (lines : list line) (table : list Laser.row) :
  get_laser_data to_float lines = Ok table ->
  let rows := data_lines (tl lines) in
  exists first,
    hd_error table = Some first /\
    length table = length rows /\
    forall i l row, nth_error rows i = Some l -> nth_error table i = Some row ->
      length (Laser.ranges row) = 361 /\
      forall j, j < 361 ->
        let stored := token_float to_float l (13 + 2 * j) in
        let out := nth j (Laser.ranges row) (Fin 0) in
        (fge stored (Laser.max_range first) = true -> out = NaN) /\
        (fge stored (Laser.max_range first) = false -> out = stored) /\
        (stored = Laser.max_range first -> out = NaN) /\
        (Laser.max_range first <> NaN ->
         below_max_range_or_unknown (Laser.max_range first) out).
Proof.
  intros H rows.
  destruct (get_laser_data_first _ _ H) as (first & Hfirst & Hm).
  exists first. split; [assumption|].
  split; [apply (get_laser_data_length _ _ H)|].
  intros i l row Hl Hrow.
  rewrite (get_laser_data_row _ _ _ _ _ H Hl Hrow). rewrite <- Hm.
  cbn [Laser.set_ranges Laser.ranges scan_of_line].
  split.
  { unfold mask_out_of_range. rewrite !length_map, length_seq. reflexivity. }
  intros j Hj. cbv zeta.
  rewrite (mask_out_of_range_nth _ (fun k => token_float to_float l (13 + 2 * k))) by assumption.
  repeat split.
  - intros ->. reflexivity.
  - intros ->. reflexivity.
  - intros Heq. rewrite Heq.
    destruct (Laser.max_range first) as [|m]; simpl; [reflexivity|].
    replace (Rgeb m m) with true; [reflexivity|].
    symmetry. apply Rgeb_true. lra.
  - apply masked_below.
Qed.

(** C4 (as amended).  A laser stream with a header and no data line makes
    [get_laser_data] raise [IndexError]: the parsed array is
    one-dimensional and is indexed with two indices; no table is built.
    And [get_obstacle_data] on a laser table without rows raises
    [KeyError], whatever the position table: it reads row 0. *)
Theorem empty_laser_stream_raises (header : line) :
  get_laser_data to_float [header] = Raise IndexError /\
  forall position_data, get_obstacle_data position_data [] = Raise KeyError.
Proof. split; reflexivity. Qed.

(** C6 (as amended).  [get_laser_data] reads column 0 and columns 7 to 734
    of each data line (the lines after the header as [np.genfromtxt] reads
    them: cut at their comment marks, the blank ones left out); the scan id
    and the count are the values of columns 7 and 12 converted to [int64].
    Column 0 is the time and the first six of the
    columns 7..734 are the other scalar metadata (seven metadata values with
    the time); the 722 columns left alternate range, intensity: range [k]
    is column [13 + 2 k] and intensity [k] is column [14 + 2 k], 361 of
    each.  A line with fewer than 735 columns is refused. *)
Theorem laser_columns (lines : list line) (table : list Laser.row) :
  get_laser_data to_float lines = Ok table ->
  let rows := data_lines (tl lines) in
  let max_range := token_float to_float (hd [] rows) 11 in
  length table = length rows /\
  forall i l row, nth_error rows i = Some l -> nth_error table i = Some row ->
    735 <= length l /\
    Laser.time row = token_float to_float l 0 /\
    to_int64 (token_float to_float l 7) = Ok (Laser.scan_id row) /\
    Laser.min_angle row = token_float to_float l 8 /\
    Laser.max_angle row = token_float to_float l 9 /\
    Laser.resolution row = token_float to_float l 10 /\
    Laser.max_range row = token_float to_float l 11 /\
    to_int64 (token_float to_float l 12) = Ok (Laser.count row) /\
    Laser.ranges row
    = mask_out_of_range max_range
        (map (fun k => token_float to_float l (13 + 2 * k)) (seq 0 361)) /\
    Laser.intensities row
    = map (fun k => token_float to_float l (14 + 2 * k)) (seq 0 361).
Proof.
  intros H rows max_range.
  split; [apply (get_laser_data_length _ _ H)|].
  intros i l row Hl Hrow.
  rewrite (get_laser_data_row _ _ _ _ _ H Hl Hrow).
  destruct lines as [|header data]; [discriminate|].
  apply get_laser_data_Ok in H. destruct H as (_ & Hok & _).
  rewrite Forall_forall in Hok.
  destruct (Hok l (nth_error_In _ _ Hl)) as (Hlen & H7 & H12).
  cbn [Laser.set_ranges Laser.ranges Laser.intensities Laser.time Laser.scan_id
       Laser.min_angle Laser.max_angle Laser.resolution Laser.max_range Laser.count
       scan_of_line].
  repeat split; try assumption; apply to_int64_Ok; split; auto.
Qed.

End LaserClaims.

(** ** The laser claims on example logs *)

Ltac token_value := reflexivity.

Lemma scan_line_ok_intro (to_float : String.string -> float) (l : line) (a b : R) :
  length l = 735 ->
  token_float to_float l 7 = Fin a ->
  token_float to_float l 12 = Fin b ->
  scan_line_ok to_float l.
Proof.
  intros Hl H7 H12. unfold scan_line_ok. rewrite Hl, H7, H12.
  repeat split; [lia | discriminate | discriminate].
Qed.

Lemma get_laser_data_run (to_float : String.string -> float) (header : line)
    (data : list line) :
  data_lines data = data ->
  2 <= length data ->
  Forall (scan_line_ok to_float) data ->
  get_laser_data to_float (header :: data)
  = Ok (map (Laser.set_ranges
               (mask_out_of_range (token_float to_float (hd [] data) 11)))
            (map (scan_of_line to_float) data)).
Proof.
  intros Hf Hn Hok. apply get_laser_data_Ok. rewrite Hf. auto.
Qed.

(** C1, counterexample.  The first data line records a maximum range that
    does not parse, so it reads as NaN; no range compares greater than or
    equal to NaN, the range 1 is kept, and it is neither unknown nor below
    the recorded maximum range. *)
Lemma laser_ranges_masked_counterexample :
  exists table first row v,
    get_laser_data float_of_numeral [laser_header; scan_line_nan; scan_line_ones]
    = Ok table /\
    hd_error table = Some first /\
    In row table /\ In v (Laser.ranges row) /\
    ~ below_max_range_or_unknown (Laser.max_range first) v.
Proof.
  set (m := token_float float_of_numeral scan_line_nan 11).
  set (first := Laser.set_ranges (mask_out_of_range m)
                  (scan_of_line float_of_numeral scan_line_nan)).
  exists (map (Laser.set_ranges (mask_out_of_range m))
            (map (scan_of_line float_of_numeral) [scan_line_nan; scan_line_ones])),
    first, first, (Fin 1).
  assert (Hm : m = NaN) by reflexivity.
  split; [|split; [|split; [|split]]].
  - apply get_laser_data_run; [reflexivity | cbn [length]; lia |].
    apply Forall_cons; [|apply Forall_cons; [|apply Forall_nil]].
    + apply scan_line_ok_intro with (a := 1%R) (b := 1%R); token_value.
    + apply scan_line_ok_intro with (a := 1%R) (b := 1%R); token_value.
  - reflexivity.
  - left. reflexivity.
  - replace (Fin 1) with (nth 0 (Laser.ranges first) (Fin 0)).
    + apply nth_In. unfold first, mask_out_of_range.
      cbn [Laser.set_ranges Laser.ranges scan_of_line].
      rewrite !length_map, length_seq. lia.
    + unfold first. cbn [Laser.set_ranges Laser.ranges scan_of_line].
      rewrite (mask_out_of_range_nth m
                 (fun k => token_float float_of_numeral scan_line_nan (13 + 2 * k)))
        by lia.
      rewrite Hm.
      replace (token_float float_of_numeral scan_line_nan (13 + 2 * 0)) with (Fin 1)
        by token_value.
      reflexivity.
  - unfold first. cbn [Laser.set_ranges Laser.max_range scan_of_line].
    fold m. rewrite Hm.
    intros [H | (x & mr & _ & H & _)]; discriminate.
Qed.

Lemma scan_line_8_ok : scan_line_ok float_of_numeral scan_line_8.
Proof. apply scan_line_ok_intro with (a := 3%R) (b := 3%R); token_value. Qed.

(** C1, a run: with maximum range 8, the stored ranges 3, 8 and 9 come out
    as 3, unknown and unknown. *)
Lemma laser_ranges_masked_witness :
  exists table row,
    get_laser_data float_of_numeral [laser_header; scan_line_8; scan_line_8] = Ok table /\
    nth_error table 1 = Some row /\
    nth 0 (Laser.ranges row) (Fin 0) = Fin 3 /\
    nth 1 (Laser.ranges row) (Fin 0) = NaN /\
    nth 2 (Laser.ranges row) (Fin 0) = NaN.
Proof.
  set (lines := [laser_header; scan_line_8; scan_line_8]).
  set (m := token_float float_of_numeral scan_line_8 11).
  set (row := Laser.set_ranges (mask_out_of_range m)
                (scan_of_line float_of_numeral scan_line_8)).
  assert (Hrun : get_laser_data float_of_numeral lines = Ok [row; row]).
  { apply get_laser_data_run; [reflexivity | cbn [length]; lia |].
    repeat apply Forall_cons; try apply Forall_nil; apply scan_line_8_ok. }
  exists [row; row], row. split; [exact Hrun|]. split; [reflexivity|].
  destruct (laser_ranges_masked float_of_numeral lines [row; row] Hrun)
    as (first & Hfirst & _ & Hrows).
  injection Hfirst as <-.
  destruct (Hrows 1 scan_line_8 row eq_refl eq_refl) as (_ & Hj).
  assert (Hmr : Laser.max_range row = Fin 8) by reflexivity.
  rewrite Hmr in Hj.
  split; [|split].
  - destruct (Hj 0 ltac:(lia)) as (_ & Hkeep & _).
    cbv zeta in Hkeep.
    replace (token_float float_of_numeral scan_line_8 (13 + 2 * 0)) with (Fin 3)
      in Hkeep by token_value.
    apply Hkeep. cbn [fge]. apply Rgeb_false. lra.
  - destruct (Hj 1 ltac:(lia)) as (_ & _ & Heq & _).
    apply Heq. token_value.
  - destruct (Hj 2 ltac:(lia)) as (Hmask & _).
    cbv zeta in Hmask.
    replace (token_float float_of_numeral scan_line_8 (13 + 2 * 2)) with (Fin 9)
      in Hmask by token_value.
    apply Hmask. cbn [fge]. apply Rgeb_true. lra.
Defined.

Section EmptyStreamRuns.

(** The examples are run without rounding. *)
#[local] Existing Instance exact.

(** C4, counterexample.  A laser stream that holds its header only: the
    table is not built, [get_laser_data] raises; and the projector raises
    on a laser table without rows. *)
Lemma empty_laser_stream_counterexample :
  get_laser_data float_of_numeral [laser_header] = Raise IndexError /\
  get_obstacle_data [] [] = Raise KeyError.
Proof. split; reflexivity. Qed.

End EmptyStreamRuns.

Lemma scan_line_index_ok : scan_line_ok float_of_numeral scan_line_index.
Proof. apply scan_line_ok_intro with (a := 7%R) (b := 12%R); token_value. Qed.

Lemma scan_line_index_run :
  get_laser_data float_of_numeral [laser_header; scan_line_index; scan_line_index]
  = Ok (map (Laser.set_ranges (mask_out_of_range (Fin 1000)))
          (map (scan_of_line float_of_numeral) [scan_line_index; scan_line_index])).
Proof.
  apply get_laser_data_run; [reflexivity | cbn [length]; lia |].
  repeat apply Forall_cons; try apply Forall_nil; apply scan_line_index_ok.
Qed.

Lemma scan_line_index_first_range :
  nth 0 (mask_out_of_range (Fin 1000)
           (map (fun k => token_float float_of_numeral scan_line_index (13 + 2 * k))
                (seq 0 361))) (Fin 0)
  = Fin 13.
Proof.
  rewrite (mask_out_of_range_nth (Fin 1000)
             (fun k => token_float float_of_numeral scan_line_index (13 + 2 * k)))
    by lia.
  replace (token_float float_of_numeral scan_line_index (13 + 2 * 0)) with (Fin 13)
    by token_value.
  cbn [fge]. replace (Rgeb 13 1000) with false; [reflexivity|].
  symmetry. apply Rgeb_false. lra.
Qed.

(** C6, counterexample.  On a line whose columns hold their own index, the
    scan's count is column 12 and its first range is column 13: the seventh
    of the columns 7..734 is a range, not metadata, and the first range is
    not the column the design document's layout gives it; there are 361
    intensities, where that layout leaves room for 360. *)
Lemma laser_columns_counterexample :
  exists table row,
    get_laser_data float_of_numeral [laser_header; scan_line_index; scan_line_index]
    = Ok table /\
    hd_error table = Some row /\
    Laser.count row = 12%Z /\
    nth 0 (Laser.ranges row) (Fin 0) = Fin 13 /\
    nth 0 (Laser.ranges row) (Fin 0)
    <> token_float float_of_numeral scan_line_index (spec_range_column 0) /\
    length (Laser.intensities row) = 361.
Proof.
  eexists. eexists. split; [exact scan_line_index_run|].
  split; [reflexivity|].
  cbn [Laser.set_ranges Laser.ranges Laser.count Laser.intensities scan_of_line].
  split; [|split; [|split]].
  - replace (token_float float_of_numeral scan_line_index 12) with (Fin 12)
      by token_value.
    apply (cast_int64_IZR 12). lia.
  - apply scan_line_index_first_range.
  - rewrite scan_line_index_first_range.
    replace (token_float float_of_numeral scan_line_index (spec_range_column 0))
      with (Fin 14) by token_value.
    intros H. injection H as H. lra.
  - rewrite length_map, length_seq. reflexivity.
Qed.

(** C6, a run on the same line: time from column 0, count from column 12,
    first intensity from column 14. *)
Lemma laser_columns_witness :
  exists table row,
    get_laser_data float_of_numeral [laser_header; scan_line_index; scan_line_index]
    = Ok table /\
    hd_error table = Some row /\
    Laser.time row = Fin 0 /\
    to_int64 (Fin 12) = Ok (Laser.count row) /\
    nth 0 (Laser.intensities row) NaN = Fin 14.
Proof.
  eexists. eexists. split; [exact scan_line_index_run|].
  split; [reflexivity|].
  destruct (laser_columns float_of_numeral _ _ scan_line_index_run) as (_ & Hrows).
  destruct (Hrows 0 scan_line_index _ eq_refl eq_refl)
    as (_ & Ht & _ & _ & _ & _ & _ & Hc & _ & Hi).
  split; [exact Ht|]. split; [exact Hc|].
  rewrite Hi. rewrite nth_map_seq by lia. token_value.
Defined.

(** ** get_position_data, column by column *)

Lemma combine_fst (A B : Type) (l : list A) (l' : list B) :
  length l = length l' -> map fst (combine l l') = l.
Proof.
  revert l'; induction l as [|x l IH]; intros [|y l'] H; simpl in *;
    try reflexivity; try discriminate.
  f_equal. apply IH. lia.
Qed.

Lemma combine_snd (A B : Type) (l : list A) (l' : list B) :
  length l = length l' -> map snd (combine l l') = l'.
Proof.
  revert l'; induction l as [|x l IH]; intros [|y l'] H; simpl in *;
    try reflexivity; try discriminate.
  f_equal. apply IH. lia.
Qed.

Lemma length_map2 (A B C : Type) (f : A -> B -> C) (l : list A) (l' : list B) :
  length (map2 f l l') = Nat.min (length l) (length l').
Proof.
  revert l'; induction l as [|x l IH]; intros [|y l']; simpl; try reflexivity.
  rewrite IH. reflexivity.
Qed.

Lemma length_diff {A : arithmetic} (l : list float) : length (diff l) = pred (length l).
Proof.
  induction l as [|x [|y l] IH]; try reflexivity.
  change (diff (x :: y :: l)) with (fsub y x :: diff (y :: l)).
  simpl length in *. rewrite IH. reflexivity.
Qed.

Lemma nth_error_map2 (A B C : Type) (f : A -> B -> C) (l : list A) (l' : list B)
    (i : nat) (x : A) (y : B) :
  nth_error l i = Some x -> nth_error l' i = Some y ->
  nth_error (map2 f l l') i = Some (f x y).
Proof.
  revert l l'; induction i as [|i IH]; intros [|a l] [|b l'] Hx Hy;
    simpl in *; try discriminate.
  - congruence.
  - apply IH; assumption.
Qed.

Lemma nth_error_diff {A : arithmetic} (l : list float) (i : nat) (x y : float) :
  nth_error l i = Some x -> nth_error l (S i) = Some y ->
  nth_error (diff l) i = Some (fsub y x).
Proof.
  revert l; induction i as [|i IH]; intros l Hx Hy.
  - destruct l as [|a [|b l]]; simpl in Hx, Hy; try discriminate.
    injection Hx as <-. injection Hy as <-. reflexivity.
  - destruct l as [|a l]; [discriminate|].
    destruct l as [|b l]; [destruct i; discriminate|].
    change (nth_error (diff (b :: l)) i = Some (fsub y x)).
    apply IH; [exact Hx | exact Hy].
Qed.

Lemma position_row_Ok (r : list float) (s : float) (acc : quotient) (d : float) :
  length r = 7 ->
  position_row (r, (s, (acc, d))) = Ok (position_row_of (r, (s, (acc, d)))).
Proof.
  intros H.
  destruct r as [|t [|x [|y [|h [|vx [|vy [|va [|]]]]]]]]; try discriminate.
  reflexivity.
Qed.

Section PositionProperties.

Context {A : arithmetic}.

Variable to_float : String.string -> float.

Lemma position_usecols_bound (n : nat) :
  Forall (fun c => c < n) position_usecols <-> 13 <= n.
Proof.
  unfold position_usecols. split.
  - intros H. rewrite Forall_forall in H. specialize (H 12). simpl in H.
    assert (12 < n) by (apply H; tauto). lia.
  - intros H. repeat constructor; lia.
Qed.

Lemma derived_lengths (target : R * R) (readings : list (list float)) :
  1 <= length readings ->
  length (speeds readings) = length readings /\
  length (accelerations readings) = length readings /\
  length (distances target readings) = length readings.
Proof.
  intros H. unfold accelerations, distances, speeds, column.
  cbn [length]. rewrite !length_map2, !length_diff, !length_map2, !length_map.
  lia.
Qed.

(** The whole of [get_position_data]: when it returns and what. *)
Lemma get_position_data_Ok (header : line) (data : list line) (target : R * R)
    (table : list Position.row) :
  let rows := data_lines data in
  let readings := map (readings_of to_float position_usecols) rows in
  get_position_data to_float (header :: data) target = Ok table <->
  2 <= length rows /\ Forall (fun l => 13 <= length l) rows /\
  table = map position_row_of
            (combine readings
               (combine (speeds readings)
                  (combine (accelerations readings) (distances target readings)))).
Proof.
  intros rows readings. unfold get_position_data.
  assert (Hsame : forall rs : list (list float),
             (let '(target_x, target_y) := target in
              mapM position_row
                (combine rs
                   (combine (map2 hypot (column 4 rs) (column 5 rs))
                      (combine
                         (Float (Fin 0) :: map2 fdiv (diff (map2 hypot (column 4 rs) (column 5 rs)))
                                     (diff (column 0 rs)))
                         (map2 (fun x y => hypot (fsub x (Fin target_x))
                                             (fsub y (Fin target_y)))
                               (column 1 rs) (column 2 rs))))))
             = mapM position_row
                 (combine rs (combine (speeds rs)
                    (combine (accelerations rs) (distances target rs))))).
  { intros rs. destruct target as [tx ty]. reflexivity. }
  assert (Hrows : Forall (fun l => 13 <= length l) rows ->
                  mapM position_row
                    (combine readings (combine (speeds readings)
                       (combine (accelerations readings) (distances target readings))))
                  = Ok (map position_row_of
                          (combine readings (combine (speeds readings)
                             (combine (accelerations readings)
                                (distances target readings)))))).
  { intros _. apply mapM_total. apply Forall_forall.
    intros [r [s [acc d]]] Hin. apply position_row_Ok.
    apply in_combine_l in Hin. unfold readings in Hin.
    apply in_map_iff in Hin. destruct Hin as (l & <- & _).
    unfold readings_of. rewrite !length_map. reflexivity. }
  split.
  - intros H. bind_inv H. bind_inv H.
    apply genfromtxt_Ok in E. destruct E as [Hlen ->].
    apply rows2d_squeeze in E0. destruct E0 as [-> Hn].
    fold rows in Hlen, Hn. rewrite length_map in Hn.
    assert (Hlen' : Forall (fun l => 13 <= length l) rows).
    { eapply Forall_impl; [|exact Hlen]. simpl. intros l Hl.
      apply position_usecols_bound. assumption. }
    split; [assumption|]. split; [assumption|].
    cbv zeta in H. rewrite Hsame in H. fold rows in H.
    fold readings in H. rewrite (Hrows Hlen') in H. injection H as <-. reflexivity.
  - intros (Hn & Hlen & ->).
    assert (Hgen : genfromtxt to_float data position_usecols
                   = Ok (squeeze readings)).
    { apply genfromtxt_Ok. split; [|reflexivity].
      eapply Forall_impl; [|exact Hlen]. simpl. intros l Hl.
      apply position_usecols_bound. assumption. }
    rewrite Hgen. simpl bind.
    assert (H2d : rows2d (squeeze readings) = Ok readings).
    { apply rows2d_squeeze. unfold readings. rewrite length_map.
      split; [reflexivity | assumption]. }
    rewrite H2d. simpl bind. cbv zeta. rewrite Hsame. apply Hrows. assumption.
Qed.

(** The columns of the table built by [get_position_data]. *)
Lemma get_position_data_columns (lines : list line) (target : R * R)
    (table : list Position.row) :
  get_position_data to_float lines target = Ok table ->
  length table = length (data_lines (tl lines)) /\
  2 <= length table /\
  map Position.a table
  = Float (Fin 0) :: map2 fdiv (diff (map Position.scalar_speed table))
                       (diff (map Position.time table)) /\
  map Position.scalar_speed table
  = map2 hypot (map Position.vx table) (map Position.vy table).
Proof.
  intros H. destruct lines as [|header data]; [discriminate|].
  apply get_position_data_Ok in H. destruct H as (Hn & _ & ->). simpl tl.
  set (readings := map (readings_of to_float position_usecols) (data_lines data)).
  assert (Hr : length readings = length (data_lines data))
    by (unfold readings; apply length_map).
  destruct (derived_lengths target readings) as (Hs & Ha & Hd); [lia|].
  set (cols := combine readings _).
  assert (Hc0 : map fst cols = readings).
  { apply combine_fst. rewrite !length_combine. lia. }
  assert (Hc1 : map fst (map snd cols) = speeds readings).
  { unfold cols. rewrite combine_snd by (rewrite !length_combine; lia).
    apply combine_fst. rewrite !length_combine. lia. }
  assert (Hc2 : map fst (map snd (map snd cols)) = accelerations readings).
  { unfold cols. rewrite combine_snd by (rewrite !length_combine; lia).
    rewrite combine_snd by (rewrite !length_combine; lia).
    apply combine_fst. lia. }
  assert (Htime : map Position.time (map position_row_of cols) = column 0 readings).
  { rewrite <- Hc0. unfold column. rewrite !map_map.
    apply map_ext. intros [r [s [acc d]]]. reflexivity. }
  assert (Hvx : map Position.vx (map position_row_of cols) = column 4 readings).
  { rewrite <- Hc0. unfold column. rewrite !map_map.
    apply map_ext. intros [r [s [acc d]]]. reflexivity. }
  assert (Hvy : map Position.vy (map position_row_of cols) = column 5 readings).
  { rewrite <- Hc0. unfold column. rewrite !map_map.
    apply map_ext. intros [r [s [acc d]]]. reflexivity. }
  assert (Hspeed : map Position.scalar_speed (map position_row_of cols) = speeds readings).
  { rewrite <- Hc1. rewrite !map_map.
    apply map_ext. intros [r [s [acc d]]]. reflexivity. }
  assert (Hacc : map Position.a (map position_row_of cols) = accelerations readings).
  { rewrite <- Hc2. rewrite !map_map.
    apply map_ext. intros [r [s [acc d]]]. reflexivity. }
  rewrite Hacc, Hspeed, Htime, Hvx, Hvy.
  rewrite length_map. unfold cols. rewrite !length_combine.
  repeat split; try reflexivity; lia.
Qed.


End PositionProperties.

(** ** Broadcasting *)

Lemma broadcast_dim_Ok (a b r : nat) :
  broadcast_dim a b = Ok r <->
  (a = b /\ r = a) \/ (a <> b /\ a = 1 /\ r = b) \/ (a <> b /\ b = 1 /\ r = a).
Proof.
  unfold broadcast_dim.
  destruct (Nat.eqb_spec a b) as [Hab|Hab];
    [|destruct (Nat.eqb_spec a 1) as [Ha|Ha];
      [|destruct (Nat.eqb_spec b 1) as [Hb|Hb]]];
    split; intros H; try (injection H as <-); try discriminate;
    try (intuition congruence); try lia.
Qed.

Lemma broadcast_dim_Raise (a b : nat) :
  a <> b -> a <> 1 -> b <> 1 -> broadcast_dim a b = Raise ValueError.
Proof.
  intros Hab Ha Hb. unfold broadcast_dim.
  destruct (Nat.eqb_spec a b); [contradiction|].
  destruct (Nat.eqb_spec a 1); [contradiction|].
  destruct (Nat.eqb_spec b 1); [contradiction|]. reflexivity.
Qed.

Lemma broadcast_dim_same (a : nat) : broadcast_dim a a = Ok a.
Proof. unfold broadcast_dim. rewrite Nat.eqb_refl. reflexivity. Qed.

Lemma broadcast_dim_one_r (a : nat) : broadcast_dim a 1 = Ok a.
Proof. apply broadcast_dim_Ok. destruct (Nat.eq_dec a 1); [left|right; right]; auto. Qed.

(** Broadcasting a dimension against its own broadcast with another. *)
Lemma broadcast_dim_absorb (a b r : nat) :
  broadcast_dim a b = Ok r -> broadcast_dim b r = Ok r.
Proof.
  intros H. apply broadcast_dim_Ok in H. apply broadcast_dim_Ok.
  destruct H as [[-> ->]|[(Hab & -> & ->)|(Hab & -> & ->)]]; auto.
Qed.

Lemma bix_lt (n i : nat) : i < n -> bix n i = i.
Proof.
  unfold bix. destruct (Nat.eqb_spec n 1); [lia | reflexivity].
Qed.

(** An index below a broadcast dimension stays inside the operand. *)
Lemma bix_bound_r (a b r i : nat) :
  broadcast_dim a b = Ok r -> i < r -> bix b i < b.
Proof.
  intros H Hi. apply broadcast_dim_Ok in H. unfold bix.
  destruct (Nat.eqb_spec b 1); [lia|]. lia.
Qed.

Lemma item_entry (m : matrix) (i j : nat) :
  item m i j = entry m (bix (nrows m) i) (bix (ncols m) j).
Proof. reflexivity. Qed.

Lemma broadcast_Ok (f : float -> float -> float) (x y m : matrix) :
  broadcast f x y = Ok m ->
  exists r c,
    broadcast_dim (nrows x) (nrows y) = Ok r /\
    broadcast_dim (ncols x) (ncols y) = Ok c /\
    nrows m = r /\ ncols m = c /\
    (forall i, i < r -> length (nth i (mrows m) []) = c) /\
    forall i j, i < r -> j < c -> entry m i j = f (item x i j) (item y i j).
Proof.
  unfold broadcast. intros H. bind_inv H. bind_inv H. injection H as <-.
  exists v, v0. unfold nrows, entry. cbn [mrows ncols].
  rewrite length_map, length_seq. repeat split; try assumption.
  - intros i Hi. rewrite (nth_map_seq _ _ v i []) by assumption.
    rewrite length_map, length_seq. reflexivity.
  - intros i j Hi Hj. rewrite (nth_map_seq _ _ v i []) by assumption.
    rewrite (nth_map_seq _ _ v0 j NaN) by assumption. reflexivity.
Qed.

Lemma broadcast_Raise (f : float -> float -> float) (x y : matrix) :
  nrows x <> nrows y -> nrows x <> 1 -> nrows y <> 1 ->
  broadcast f x y = Raise ValueError.
Proof.
  intros H1 H2 H3. unfold broadcast.
  rewrite broadcast_dim_Raise by assumption. reflexivity.
Qed.

Lemma repeat_reshape_Ok (v : list float) (c : nat) (m : matrix) :
  repeat_reshape v c = Ok m ->
  c <> 0 /\ ncols m = c /\ nrows m = length v /\
  forall i j, i < length v -> j < c -> entry m i j = nth i v NaN.
Proof.
  unfold repeat_reshape. destruct (Nat.eqb_spec c 0) as [Hc|Hc]; [discriminate|].
  intros H. injection H as <-. unfold nrows, entry. cbn [mrows ncols].
  rewrite length_map. repeat split; try assumption.
  intros i j Hi Hj.
  rewrite (nth_indep _ [] (repeat NaN c)) by (rewrite length_map; assumption).
  rewrite (map_nth (fun x => repeat x c) v NaN i).
  apply nth_repeat_lt. assumption.
Qed.

Lemma stack_Ok (arrays : list (list float)) (m : matrix) :
  stack arrays = Ok m ->
  mrows m = arrays /\ ncols m = length (hd [] arrays) /\
  Forall (fun r => length r = ncols m) arrays.
Proof.
  unfold stack. destruct arrays as [|first rest]; [discriminate|].
  destruct (forallb _ rest) eqn:E; [|discriminate].
  intros H. injection H as <-. cbn [mrows ncols hd].
  repeat split. constructor; [reflexivity|].
  rewrite forallb_forall in E. apply Forall_forall. intros r Hr.
  apply Nat.eqb_eq. apply E. assumption.
Qed.

Lemma mmap_entry (f : float -> float) (m : matrix) (i j : nat) :
  i < nrows m -> j < length (nth i (mrows m) []) ->
  entry (mmap f m) i j = f (entry m i j).
Proof.
  unfold entry, mmap, nrows. cbn [mrows]. intros Hi Hj.
  rewrite (nth_indep _ [] (map f [])) by (rewrite length_map; assumption).
  rewrite (map_nth (map f) (mrows m) [] i).
  rewrite (nth_indep _ NaN (f NaN)) by (rewrite length_map; assumption).
  apply map_nth.
Qed.

(** ** linspace and the masked minimum *)

Lemma length_set_last (y : list float) (v : float) :
  length (set_last y v) = length y.
Proof.
  destruct y as [|a y]; [reflexivity|]. unfold set_last.
  rewrite length_app, (removelast_firstn_len (a :: y)), length_firstn.
  simpl length. lia.
Qed.

Lemma Forall_removelast (P : float -> Prop) (y : list float) :
  Forall P y -> Forall P (removelast y).
Proof.
  induction 1 as [|a y Ha Hy IH]; [constructor|].
  destruct y as [|b y]; [constructor|].
  change (Forall P (a :: removelast (b :: y))). constructor; assumption.
Qed.

Lemma Forall_set_last (P : float -> Prop) (y : list float) (v : float) :
  Forall P y -> P v -> Forall P (set_last y v).
Proof.
  intros Hy Hv. destruct y as [|a y]; [constructor|]. unfold set_last.
  apply Forall_app. split; [|constructor; [assumption | constructor]].
  apply Forall_removelast. assumption.
Qed.

Lemma linspace_Ok {A : arithmetic} (start stop : float) (num : Z) (l : list float) :
  linspace start stop num = Ok l ->
  (0 <= num)%Z /\ length l = Z.to_nat num /\
  (start <> NaN -> stop <> NaN -> Forall (fun v => v <> NaN) l).
Proof.
  unfold linspace. destruct (Z.ltb_spec num 0) as [Hneg|Hpos]; [discriminate|].
  destruct (Nat.ltb_spec 1 (Z.to_nat num)) as [Hn|Hn]; intros H; injection H as <-.
  - split; [assumption|]. split.
    + rewrite length_set_last. destruct (is_zero _); rewrite length_map, length_seq;
        reflexivity.
    + intros Hs He. destruct start as [|s]; [congruence|].
      destruct stop as [|e]; [congruence|].
      apply Forall_set_last; [|discriminate].
      destruct (is_zero _); apply Forall_forall; intros v Hv; apply in_map_iff in Hv;
        destruct Hv as (k & <- & _); discriminate.
  - split; [assumption|]. split.
    + rewrite length_map, length_seq. reflexivity.
    + intros Hs He. destruct start as [|s]; [congruence|].
      destruct stop as [|e]; [congruence|].
      apply Forall_forall. intros v Hv. apply in_map_iff in Hv.
      destruct Hv as (k & <- & _). discriminate.
Qed.

Lemma linspace_Raise {A : arithmetic} (start stop : float) (num : Z) (e : exn) :
  linspace start stop num = Raise e -> e = ValueError.
Proof.
  unfold linspace. destruct (num <? 0)%Z; [congruence|].
  destruct (1 <? Z.to_nat num); discriminate.
Qed.

(** The last of two or more samples is the upper bound itself. *)
Lemma linspace_last {A : arithmetic} (start stop : float) (num : Z) (l : list float) :
  linspace start stop num = Ok l -> (2 <= num)%Z -> last l NaN = stop.
Proof.
  unfold linspace. destruct (Z.ltb_spec num 0) as [Hneg|Hpos]; [discriminate|].
  intros H Hn. destruct (Nat.ltb_spec 1 (Z.to_nat num)) as [Hn'|Hn']; [|lia].
  injection H as <-.
  match goal with |- last (set_last ?l _) _ = _ => set (y := l) end.
  assert (Hy : length y = Z.to_nat num).
  { unfold y. destruct (is_zero _); rewrite length_map, length_seq; reflexivity. }
  unfold set_last. destruct y as [|v y']; [cbn [length] in Hy; lia|]. apply last_last.
Qed.

(** The samples over the angles of the example scans, from 0 to 1, without
    rounding: the step is not zero. *)
Lemma linspace_unit (num : Z) :
  (2 <= num)%Z ->
  linspace (A := exact) (Fin 0) (Fin 1) num
  = Ok (set_last
          (map (fun k => fadd (A := exact)
                           (fmul (A := exact) (Fin (INR k))
                              (Fin ((1 - 0) / INR (Z.to_nat num - 1))))
                           (Fin 0))
               (seq 0 (Z.to_nat num)))
          (Fin 1)).
Proof.
  intros Hn. unfold linspace.
  destruct (Z.ltb_spec num 0) as [Hneg|_]; [lia|].
  destruct (Nat.ltb_spec 1 (Z.to_nat num)) as [_|Hsmall]; [|lia].
  cbn [fsub fdiv_count round exact is_zero].
  destruct (Req_dec_T ((1 - 0) / INR (Z.to_nat num - 1)) 0) as [Hz|_]; [|reflexivity].
  exfalso. assert (Hpos : (0 < INR (Z.to_nat num - 1))%R) by (apply lt_0_INR; lia).
  assert (H1 : (0 < (1 - 0) / INR (Z.to_nat num - 1))%R).
  { apply Rdiv_lt_0_compat; lra. }
  lra.
Qed.

Ltac run_projector :=
  unfold get_obstacle_data;
  cbn [Laser.min_angle Laser.max_angle Laser.count];
  rewrite linspace_unit by (cbn; lia).

(** The masked minimum from a numeric seed: a number, at most the seed, at
    most every number of the row, and the seed itself or a number of the
    row. *)
Lemma min_where_notnan (row : list float) (seed : R) :
  exists m,
    min_where (Fin seed) row (map (fun v => negb (isnan v)) row) = Fin m /\
    (m <= seed)%R /\
    (forall x, In (Fin x) row -> (m <= x)%R) /\
    (m = seed \/ In (Fin m) row).
Proof.
  unfold min_where. revert seed.
  induction row as [|v row IH]; intros seed; cbn [map combine fold_left].
  - exists seed. repeat split; [lra | intros x [] | left; reflexivity].
  - destruct v as [|x]; cbn [isnan negb snd fst fminimum].
    + destruct (IH seed) as (m & Hm & Hle & Hall & Hin).
      exists m. repeat split; try assumption.
      * intros x [Hx|Hx]; [discriminate | apply Hall; assumption].
      * destruct Hin; [left | right; right]; assumption.
    + destruct (IH (Rmin seed x)) as (m & Hm & Hle & Hall & Hin).
      exists m. split; [assumption|].
      pose proof (Rmin_l seed x). pose proof (Rmin_r seed x).
      repeat split.
      * lra.
      * intros x' [Hx|Hx]; [injection Hx as <-; lra | apply Hall; assumption].
      * destruct Hin as [Hin|Hin]; [|right; right; assumption].
        unfold Rmin in Hin. destruct (Rle_dec seed x);
          [left; assumption | right; left; rewrite Hin; reflexivity].
Qed.

Lemma nth_error_combine (A B : Type) (l : list A) (l' : list B) (i : nat) (a : A) (b : B) :
  nth_error (combine l l') i = Some (a, b) ->
  nth_error l i = Some a /\ nth_error l' i = Some b.
Proof.
  revert l l'; induction i as [|i IH]; intros [|x l] [|y l'] H;
    simpl in *; try discriminate.
  - injection H as <- <-. auto.
  - apply IH. assumption.
Qed.

(** ** get_obstacle_data, row by row and beam by beam *)

Lemma nth_error_map_inv (A B : Type) (f : A -> B) (l : list A) (i : nat) (y : B) :
  nth_error (map f l) i = Some y -> exists x, nth_error l i = Some x /\ f x = y.
Proof.
  rewrite nth_error_map. destruct (nth_error l i) as [x|]; simpl; intros H;
    [injection H as <-; eauto | discriminate].
Qed.

Lemma nrows_mmap (f : float -> float) (m : matrix) : nrows (mmap f m) = nrows m.
Proof. unfold nrows, mmap. cbn [mrows]. apply length_map. Qed.

Lemma ncols_mmap (f : float -> float) (m : matrix) : ncols (mmap f m) = ncols m.
Proof. reflexivity. Qed.

Lemma polar_to_cartesian_Ok {A : arithmetic} (r theta x y : matrix) :
  polar_to_cartesian r theta = Ok (x, y) ->
  broadcast fmul r (mmap fcos theta) = Ok x /\
  broadcast fmul r (mmap fsin theta) = Ok y.
Proof.
  unfold polar_to_cartesian. intros H. bind_inv H. bind_inv H.
  injection H as <- <-. auto.
Qed.

(** The entries of [pose + offset], where [pose] repeats one value of the
    position table along each row. *)
Lemma world_entry {A : arithmetic} (v : list float) (c : nat) (rep rel m : matrix) (l r i j : nat) :
  repeat_reshape v c = Ok rep ->
  broadcast fadd rep rel = Ok m ->
  broadcast_dim l (length v) = Ok r ->
  nrows rel = r -> ncols rel = c ->
  nrows m = r /\ ncols m = c /\
  (i < r -> length (nth i (mrows m) []) = c) /\
  (i < r -> j < c ->
   entry m i j = fadd (nth (bix (length v) i) v NaN) (entry rel i j)).
Proof.
  intros Hrep Hm Hdim Hr Hc.
  apply repeat_reshape_Ok in Hrep. destruct Hrep as (Hc0 & Hrc & Hrr & Hre).
  apply broadcast_Ok in Hm.
  destruct Hm as (r' & c' & Hd1 & Hd2 & Hmr & Hmc & Hlen & Hent).
  rewrite Hrr, Hr in Hd1. rewrite (broadcast_dim_absorb _ _ _ Hdim) in Hd1.
  injection Hd1 as <-.
  rewrite Hrc, Hc, broadcast_dim_same in Hd2. injection Hd2 as <-.
  repeat split; try assumption.
  - intros Hi. apply Hlen. assumption.
  - intros Hi Hj. rewrite (Hent i j Hi Hj). rewrite !item_entry.
    rewrite Hrr, Hrc, Hr, Hc. rewrite (bix_lt r i Hi), (bix_lt c j Hj).
    rewrite Hre; [reflexivity | | assumption].
    eapply bix_bound_r; eassumption.
Qed.

(** What [get_obstacle_data] returns: the shape of the output and, for
    every output row and beam, the position sample, the range and the
    world-frame angle that make its obstacle coordinates. *)
Lemma get_obstacle_data_Ok {A : arithmetic} (position_data : list Position.row)
    (laser_data : list Laser.row) (out : list Obstacle.row) :
  get_obstacle_data position_data laser_data = Ok out ->
  exists first laser_angles nr nc,
    hd_error laser_data = Some first /\
    linspace (Laser.min_angle first) (Laser.max_angle first) (Laser.count first)
    = Ok laser_angles /\
    Forall (fun lrow => length (Laser.ranges lrow) = length (Laser.ranges first))
           laser_data /\
    broadcast_dim (length laser_data) (length position_data) = Ok nr /\
    broadcast_dim (length (Laser.ranges first)) (length laser_angles) = Ok nc /\
    nc <> 0 /\
    length out = Nat.min (length laser_data) nr /\
    forall i row, nth_error out i = Some row ->
      exists lrow p,
        nth_error laser_data i = Some lrow /\
        nth_error position_data (bix (length position_data) i) = Some p /\
        Obstacle.time row = Laser.time lrow /\
        Obstacle.distance_to_nearest_obstacle row = nearest (Laser.ranges lrow) /\
        length (Obstacle.obs_x row) = nc /\
        length (Obstacle.obs_y row) = nc /\
        forall j, j < nc ->
          let r := nth (bix (length (Laser.ranges first)) j) (Laser.ranges lrow) NaN in
          let theta := fadd (Position.pa p)
                            (nth (bix (length laser_angles) j) laser_angles NaN) in
          nth j (Obstacle.obs_x row) NaN = fadd (Position.px p) (fmul r (fcos theta)) /\
          nth j (Obstacle.obs_y row) NaN = fadd (Position.py p) (fmul r (fsin theta)).
Proof.
  unfold get_obstacle_data. destruct laser_data as [|first rest]; [discriminate|].
  remember (first :: rest) as laser_data eqn:Hld.
  intros H. bind_inv H. rename v into laser_angles, E into Hlin.
  bind_inv H. rename v into pa_rep, E into Hpa.
  bind_inv H. rename v into angles, E into Hangles.
  bind_inv H. rename v into ranges, E into Hstack.
  bind_inv H. destruct v as [rel_x rel_y]. rename E into Hpolar.
  bind_inv H. rename v into px_rep, E into Hpx.
  bind_inv H. rename v into obs_x, E into Hx.
  bind_inv H. rename v into py_rep, E into Hpy.
  bind_inv H. rename v into obs_y, E into Hy.
  injection H as <-.
  set (np := length position_data) in *.
  set (c := length laser_angles) in *.
  (* the heading of each sample, repeated along its row *)
  apply repeat_reshape_Ok in Hpa. rewrite length_map in Hpa. fold np in Hpa.
  destruct Hpa as (Hc0 & Hpac & Hpar & Hpae).
  (* the world-frame angles *)
  apply broadcast_Ok in Hangles.
  destruct Hangles as (ra & ca & Hd1 & Hd2 & Har & Hac & Halen & Haent).
  rewrite Hpar in Hd1. change (nrows (row_vector laser_angles)) with 1 in Hd1.
  rewrite broadcast_dim_one_r in Hd1. injection Hd1 as <-.
  rewrite Hpac in Hd2. change (ncols (row_vector laser_angles)) with c in Hd2.
  rewrite broadcast_dim_same in Hd2. injection Hd2 as <-.
  assert (Hangle : forall i j, i < np -> j < c ->
            entry angles i j
            = fadd (nth i (map Position.pa position_data) NaN) (nth j laser_angles NaN)).
  { intros i j Hi Hj. rewrite (Haent i j Hi Hj). rewrite !item_entry.
    rewrite Hpar, Hpac. rewrite (bix_lt np i Hi), (bix_lt c j Hj).
    rewrite (Hpae i j Hi Hj). f_equal.
    change (nrows (row_vector laser_angles)) with 1.
    change (ncols (row_vector laser_angles)) with c.
    rewrite (bix_lt c j Hj). reflexivity. }
  (* the stacked ranges *)
  apply stack_Ok in Hstack. destruct Hstack as (Hrrows & Hrc & Hrlen).
  rewrite Hld in Hrc. cbn [map hd] in Hrc.
  set (n := length (Laser.ranges first)) in *.
  assert (Hrr : nrows ranges = length laser_data).
  { unfold nrows. rewrite Hrrows, length_map. reflexivity. }
  (* the relative offsets *)
  apply polar_to_cartesian_Ok in Hpolar. destruct Hpolar as [Hrelx Hrely].
  apply broadcast_Ok in Hrelx.
  destruct Hrelx as (nr & nc & Hd1 & Hd2 & Hxr & Hxc & Hxlen & Hxent).
  apply broadcast_Ok in Hrely.
  destruct Hrely as (nr' & nc' & Hd1' & Hd2' & Hyr & Hyc & Hylen & Hyent).
  rewrite nrows_mmap, Har, Hrr in Hd1, Hd1'.
  rewrite ncols_mmap, Hac, Hrc in Hd2, Hd2'.
  rewrite Hd1 in Hd1'. injection Hd1' as <-.
  rewrite Hd2 in Hd2'. injection Hd2' as <-.
  assert (Hrel : forall (f : float -> float) i j, i < nr -> j < nc ->
            item (mmap f angles) i j
            = f (fadd (nth (bix np i) (map Position.pa position_data) NaN)
                      (nth (bix c j) laser_angles NaN))).
  { intros f i j Hi Hj. rewrite item_entry.
    rewrite nrows_mmap, ncols_mmap, Har, Hac.
    assert (Hbi : bix np i < np) by (eapply bix_bound_r; eassumption).
    assert (Hbj : bix c j < c) by (eapply bix_bound_r; eassumption).
    rewrite mmap_entry; [| rewrite Har; assumption | rewrite Halen; assumption].
    rewrite Hangle by assumption. reflexivity. }
  (* the world coordinates *)
  rewrite Hxc in Hpx, Hpy.
  destruct (world_entry _ _ _ _ _ (length laser_data) nr 0 0 Hpx Hx) as (Hox_r & Hox_c & _);
    [rewrite length_map; exact Hd1 | exact Hxr | exact Hxc |].
  destruct (world_entry _ _ _ _ _ (length laser_data) nr 0 0 Hpy Hy) as (Hoy_r & Hoy_c & _);
    [rewrite length_map; exact Hd1 | exact Hyr | exact Hyc |].
  exists first, laser_angles, nr, nc.
  split; [rewrite Hld; reflexivity|]. split; [exact Hlin|].
  split.
  { fold n. rewrite Hrc in Hrlen. rewrite Forall_map in Hrlen. exact Hrlen. }
  split; [exact Hd1|]. split; [exact Hd2|].
  split.
  { apply repeat_reshape_Ok in Hpx. tauto. }
  split.
  { rewrite length_map, !length_combine, !length_map.
    fold (nrows obs_x). fold (nrows obs_y). fold (nrows ranges).
    rewrite Hox_r, Hoy_r, Hrr. lia. }
  intros i row Hrow.
  apply nth_error_map_inv in Hrow.
  destruct Hrow as ([t [x [y d]]] & Hcomb & <-).
  apply nth_error_combine in Hcomb. destruct Hcomb as [Ht Hcomb].
  apply nth_error_combine in Hcomb. destruct Hcomb as [Hxi Hcomb].
  apply nth_error_combine in Hcomb. destruct Hcomb as [Hyi Hdi].
  apply nth_error_map_inv in Ht. destruct Ht as (lrow & Hlrow & <-).
  assert (Hil : i < length laser_data).
  { apply nth_error_Some. rewrite Hlrow. discriminate. }
  assert (Hir : i < nr).
  { rewrite <- Hox_r. unfold nrows. apply nth_error_Some. rewrite Hxi. discriminate. }
  assert (Hbi : bix np i < np) by (eapply bix_bound_r; eassumption).
  destruct (nth_error position_data (bix np i)) as [p|] eqn:Hp;
    [|apply nth_error_None in Hp; fold np in Hp; lia].
  exists lrow, p. split; [exact Hlrow|]. split; [reflexivity|].
  cbn [obstacle_row Obstacle.time Obstacle.obs_x Obstacle.obs_y
       Obstacle.distance_to_nearest_obstacle].
  split; [reflexivity|].
  split.
  { rewrite Hrrows in Hdi. rewrite map_map in Hdi.
    rewrite (map_nth_error _ _ _ Hlrow) in Hdi. injection Hdi as <-. reflexivity. }
  destruct (world_entry _ _ _ _ _ (length laser_data) nr i 0 Hpx Hx) as (_ & _ & Hxl & _);
    [rewrite length_map; exact Hd1 | exact Hxr | exact Hxc |].
  destruct (world_entry _ _ _ _ _ (length laser_data) nr i 0 Hpy Hy) as (_ & _ & Hyl & _);
    [rewrite length_map; exact Hd1 | exact Hyr | exact Hyc |].
  assert (Hxrow : x = nth i (mrows obs_x) []) by (symmetry; apply nth_error_nth; exact Hxi).
  assert (Hyrow : y = nth i (mrows obs_y) []) by (symmetry; apply nth_error_nth; exact Hyi).
  split; [rewrite Hxrow; apply Hxl; exact Hir|].
  split; [rewrite Hyrow; apply Hyl; exact Hir|].
  intros j Hj. cbv zeta.
  assert (Hrange : item ranges i j = nth (bix n j) (Laser.ranges lrow) NaN).
  { rewrite item_entry. unfold entry. rewrite Hrr, Hrc, Hrrows.
    rewrite (bix_lt _ i Hil).
    rewrite (nth_indep _ [] (Laser.ranges lrow)) by (rewrite length_map; exact Hil).
    rewrite (map_nth Laser.ranges laser_data lrow i).
    rewrite (nth_error_nth _ _ lrow Hlrow). reflexivity. }
  assert (Hpa_i : nth (bix np i) (map Position.pa position_data) NaN = Position.pa p).
  { apply nth_error_nth. apply map_nth_error. exact Hp. }
  assert (Hpx_i : nth (bix np i) (map Position.px position_data) NaN = Position.px p).
  { apply nth_error_nth. apply map_nth_error. exact Hp. }
  assert (Hpy_i : nth (bix np i) (map Position.py position_data) NaN = Position.py p).
  { apply nth_error_nth. apply map_nth_error. exact Hp. }
  split.
  - destruct (world_entry _ _ _ _ _ (length laser_data) nr i j Hpx Hx) as (_ & _ & _ & Hval);
      [rewrite length_map; exact Hd1 | exact Hxr | exact Hxc |].
    rewrite Hxrow. fold (entry obs_x i j). rewrite (Hval Hir Hj).
    rewrite length_map. fold np. rewrite Hpx_i.
    rewrite (Hxent i j Hir Hj), Hrange, (Hrel fcos i j Hir Hj), Hpa_i. reflexivity.
  - destruct (world_entry _ _ _ _ _ (length laser_data) nr i j Hpy Hy) as (_ & _ & _ & Hval);
      [rewrite length_map; exact Hd1 | exact Hyr | exact Hyc |].
    rewrite Hyrow. fold (entry obs_y i j). rewrite (Hval Hir Hj).
    rewrite length_map. fold np. rewrite Hpy_i.
    rewrite (Hyent i j Hir Hj), Hrange, (Hrel fsin i j Hir Hj), Hpa_i. reflexivity.
Qed.

(** ** The nearest-obstacle distance *)

Lemma nearest_spec (row : list float) :
  exists d,
    nearest row = Fin d /\ (d <= 8)%R /\
    (forall x, In (Fin x) row -> (d <= x)%R) /\
    (d = 8%R \/ In (Fin d) row).
Proof. apply min_where_notnan. Qed.

Lemma get_obstacle_data_nearest {A : arithmetic} (position_data : list Position.row)
    (laser_data : list Laser.row) (out : list Obstacle.row) (i : nat)
    (row : Obstacle.row) :
  get_obstacle_data position_data laser_data = Ok out ->
  nth_error out i = Some row ->
  exists lrow,
    nth_error laser_data i = Some lrow /\
    Obstacle.distance_to_nearest_obstacle row = nearest (Laser.ranges lrow).
Proof.
  intros H Hrow. apply get_obstacle_data_Ok in H.
  destruct H as (first & angles & nr & nc & _ & _ & _ & _ & _ & _ & _ & Hrows).
  destruct (Hrows i row Hrow) as (lrow & p & Hl & _ & _ & Hd & _).
  exists lrow. auto.
Qed.

(** C10.  Every nearest-obstacle distance produced by [get_obstacle_data]
    is a number and is at most 8: the minimum of each scan is seeded with
    the constant 8, whatever maximum range the laser table records. *)
Theorem nearest_obstacle_at_most_8 {A : arithmetic} (position_data : list Position.row)
    (laser_data : list Laser.row) (out : list Obstacle.row) :
  get_obstacle_data position_data laser_data = Ok out ->
  forall row, In row out ->
    exists d, Obstacle.distance_to_nearest_obstacle row = Fin d /\ (d <= 8)%R.
Proof.
  intros H row Hin. apply In_nth_error in Hin. destruct Hin as (i & Hrow).
  destruct (get_obstacle_data_nearest _ _ _ _ _ H Hrow) as (lrow & _ & ->).
  destruct (nearest_spec (Laser.ranges lrow)) as (d & Hd & Hle & _).
  exists d. auto.
Qed.

(** C3 (as amended).  For every scan row [i], the nearest-obstacle distance
    computed by [get_obstacle_data] is the minimum of the constant 8 and of
    the known ranges of scan [i]: a number, at most 8, at most every known
    range, and either 8 or one of the known ranges.  It therefore equals the
    minimum of the known ranges when one of them is at most 8, and it is 8
    when every beam of the scan is unknown, whatever maximum range the
    laser records. *)
Theorem nearest_obstacle_distance {A : arithmetic} (position_data : list Position.row)
    (laser_data : list Laser.row) (out : list Obstacle.row) :
  get_obstacle_data position_data laser_data = Ok out ->
  forall i row, nth_error out i = Some row ->
    exists lrow d,
      nth_error laser_data i = Some lrow /\
      Obstacle.distance_to_nearest_obstacle row = Fin d /\
      (d <= 8)%R /\
      (forall x, In (Fin x) (Laser.ranges lrow) -> (d <= x)%R) /\
      (d = 8%R \/ In (Fin d) (Laser.ranges lrow)) /\
      ((forall v, In v (Laser.ranges lrow) -> v = NaN) -> d = 8%R).
Proof.
  intros H i row Hrow.
  destruct (get_obstacle_data_nearest _ _ _ _ _ H Hrow) as (lrow & Hl & ->).
  destruct (nearest_spec (Laser.ranges lrow)) as (d & Hd & Hle & Hall & Hin).
  exists lrow, d. repeat split; try assumption.
  intros Hnan. destruct Hin as [Hin|Hin]; [assumption|].
  apply Hnan in Hin. discriminate.
Qed.

Section FarScanRuns.

(** The examples are run without rounding. *)
#[local] Existing Instance exact.

Lemma far_scans_run :
  exists out, get_obstacle_data two_poses far_scans = Ok out /\ length out = 2.
Proof. unfold far_scans, scan. run_projector. eexists. split; reflexivity. Qed.

(** C10, a run on a laser of maximum range 30. *)
Lemma nearest_obstacle_at_most_8_witness :
  exists out,
    get_obstacle_data two_poses far_scans = Ok out /\
    forall row, In row out ->
      exists d, Obstacle.distance_to_nearest_obstacle row = Fin d /\ (d <= 8)%R.
Proof.
  destruct far_scans_run as (out & Hrun & _).
  exists out. split; [exact Hrun|].
  exact (nearest_obstacle_at_most_8 two_poses far_scans out Hrun).
Defined.

Lemma nearest_far : nearest [Fin 10; Fin 20] = Fin 8.
Proof.
  unfold nearest, min_where. cbn [map combine fold_left isnan negb snd fst fminimum].
  rewrite (Rmin_left 8 10) by lra. rewrite (Rmin_left 8 20) by lra. reflexivity.
Qed.

(** C3, counterexample.  A laser of maximum range 30: the scan with
    obstacles at 10 and 20 gets the distance 8, not 10; the scan with no
    return gets 8, not 30. *)
Lemma nearest_obstacle_distance_counterexample :
  exists out row0 row1,
    get_obstacle_data two_poses far_scans = Ok out /\
    nth_error out 0 = Some row0 /\ nth_error out 1 = Some row1 /\
    spec_nearest (Fin 30) [Fin 10; Fin 20] = Fin 10 /\
    Obstacle.distance_to_nearest_obstacle row0 = Fin 8 /\
    Obstacle.distance_to_nearest_obstacle row0
    <> spec_nearest (Fin 30) [Fin 10; Fin 20] /\
    spec_nearest (Fin 30) [NaN; NaN] = Fin 30 /\
    Obstacle.distance_to_nearest_obstacle row1 = Fin 8 /\
    Obstacle.distance_to_nearest_obstacle row1 <> spec_nearest (Fin 30) [NaN; NaN].
Proof.
  destruct far_scans_run as (out & Hrun & Hlen).
  destruct out as [|row0 [|row1 out]]; try discriminate.
  exists (row0 :: row1 :: out), row0, row1.
  destruct (get_obstacle_data_nearest _ _ _ 0 row0 Hrun eq_refl) as (l0 & Hl0 & Hd0).
  destruct (get_obstacle_data_nearest _ _ _ 1 row1 Hrun eq_refl) as (l1 & Hl1 & Hd1).
  injection Hl0 as <-. injection Hl1 as <-.
  cbn [scan Laser.ranges] in Hd0, Hd1. rewrite nearest_far in Hd0.
  change (nearest [NaN; NaN]) with (Fin 8) in Hd1.
  assert (Hs : spec_nearest (Fin 30) [Fin 10; Fin 20] = Fin 10).
  { unfold spec_nearest. cbn [min_known]. rewrite (Rmin_left 10 20) by lra. reflexivity. }
  split; [exact Hrun|]. split; [reflexivity|]. split; [reflexivity|].
  split; [exact Hs|]. split; [exact Hd0|].
  split; [rewrite Hd0, Hs; intros E; injection E as E; lra|].
  split; [reflexivity|]. split; [exact Hd1|].
  rewrite Hd1. cbn [spec_nearest min_known]. intros E; injection E as E; lra.
Qed.

(** C3, a run: the same scans, with the distances the code gives them. *)
Lemma nearest_obstacle_distance_witness :
  exists out row,
    get_obstacle_data two_poses far_scans = Ok out /\
    nth_error out 1 = Some row /\
    Obstacle.distance_to_nearest_obstacle row = Fin 8.
Proof.
  destruct far_scans_run as (out & Hrun & Hlen).
  destruct out as [|row0 [|row1 out]]; try discriminate.
  exists (row0 :: row1 :: out), row1.
  split; [exact Hrun|]. split; [reflexivity|].
  destruct (nearest_obstacle_distance two_poses far_scans _ Hrun 1 row1 eq_refl)
    as (lrow & d & Hl & Hd & _ & _ & _ & Hnan).
  injection Hl as <-. rewrite Hd. f_equal. apply Hnan.
  intros v [<-|[<-|[]]]; reflexivity.
Defined.

End FarScanRuns.

(** ** Tables of different lengths *)

Lemma broadcast_Raise_ValueError (f : float -> float -> float) (x y : matrix) (e : exn) :
  broadcast f x y = Raise e -> e = ValueError.
Proof.
  unfold broadcast, broadcast_dim.
  destruct (nrows x =? nrows y); [|destruct (nrows x =? 1); [|destruct (nrows y =? 1)]];
    cbn [bind];
    (destruct (ncols x =? ncols y); [|destruct (ncols x =? 1); [|destruct (ncols y =? 1)]]);
    cbn [bind]; congruence.
Qed.

Lemma repeat_reshape_Raise (v : list float) (c : nat) (e : exn) :
  repeat_reshape v c = Raise e -> e = ValueError.
Proof. unfold repeat_reshape. destruct (c =? 0); congruence. Qed.

Lemma stack_Raise (arrays : list (list float)) (e : exn) :
  stack arrays = Raise e -> e = ValueError.
Proof.
  unfold stack. destruct arrays as [|first rest]; [congruence|].
  destruct (forallb _ rest); congruence.
Qed.

(** Two tables whose row counts differ, neither being 1, cannot be paired:
    the product of the ranges and the cosines of the angles does not
    broadcast, and no earlier step raises anything else. *)
Lemma get_obstacle_data_mismatch {A : arithmetic} (position_data : list Position.row)
    (laser_data : list Laser.row) :
  laser_data <> [] ->
  length laser_data <> length position_data ->
  length laser_data <> 1 -> length position_data <> 1 ->
  get_obstacle_data position_data laser_data = Raise ValueError.
Proof.
  intros Hne Hdiff Hl Hp. unfold get_obstacle_data.
  destruct laser_data as [|first rest]; [congruence|].
  remember (first :: rest) as laser_data eqn:Hld. clear Hne.
  destruct (linspace _ _ _) as [laser_angles|e] eqn:Hlin;
    [|apply linspace_Raise in Hlin; subst e; reflexivity].
  cbn [bind].
  destruct (repeat_reshape _ _) as [pa_rep|e] eqn:Hpa;
    [|apply repeat_reshape_Raise in Hpa; subst e; reflexivity].
  cbn [bind].
  destruct (broadcast fadd pa_rep _) as [angles|e] eqn:Hangles;
    [|apply broadcast_Raise_ValueError in Hangles; subst e; reflexivity].
  cbn [bind].
  destruct (stack _) as [ranges|e] eqn:Hstack;
    [|apply stack_Raise in Hstack; subst e; reflexivity].
  cbn [bind].
  apply repeat_reshape_Ok in Hpa. rewrite length_map in Hpa.
  destruct Hpa as (_ & _ & Hpar & _).
  apply broadcast_Ok in Hangles.
  destruct Hangles as (ra & ca & Hd1 & _ & Har & _).
  rewrite Hpar in Hd1. change (nrows (row_vector laser_angles)) with 1 in Hd1.
  rewrite broadcast_dim_one_r in Hd1. injection Hd1 as <-.
  apply stack_Ok in Hstack. destruct Hstack as (Hrrows & _).
  assert (Hrr : nrows ranges = length laser_data).
  { unfold nrows. rewrite Hrrows, length_map. reflexivity. }
  unfold polar_to_cartesian.
  rewrite broadcast_Raise; [reflexivity | | |];
    rewrite ?nrows_mmap, ?Hrr, ?Har; assumption.
Qed.

Lemma get_obstacle_data_length {A : arithmetic} (position_data : list Position.row)
    (laser_data : list Laser.row) (out : list Obstacle.row) :
  get_obstacle_data position_data laser_data = Ok out ->
  (length laser_data = length position_data \/ length position_data = 1 \/
   length laser_data = 1) /\
  (length position_data <> 0 -> length out = length laser_data) /\
  (length position_data = 0 -> length out = 0).
Proof.
  intros H. apply get_obstacle_data_Ok in H.
  destruct H as (first & angles & nr & nc & Hfirst & _ & _ & Hd & _ & _ & Hlen & _).
  apply broadcast_dim_Ok in Hd.
  assert (Hl : 1 <= length laser_data)
    by (destruct laser_data; [discriminate | simpl; lia]).
  repeat split; lia.
Qed.

(** C5 (as amended).  [get_obstacle_data] does not compare the row counts
    of its two tables.  When they differ and neither table has exactly one
    row, it raises: [KeyError] when the laser table has no row (its row 0
    is read first), [ValueError] otherwise (the ranges and the angles do
    not broadcast); a hard failure, no truncated output.  When it returns,
    the counts are equal, or the position table has one row, which is
    paired with every scan, or the laser table has one row; the output has
    one row per laser row, but for a single scan against an empty position
    table, where it has none. *)
Theorem obstacle_rows_of_unequal_tables {A : arithmetic} (position_data : list Position.row)
    (laser_data : list Laser.row) :
  (length laser_data <> length position_data ->
   length laser_data <> 1 -> length position_data <> 1 ->
   get_obstacle_data position_data laser_data
   = Raise (match laser_data with [] => KeyError | _ :: _ => ValueError end)) /\
  (forall out, get_obstacle_data position_data laser_data = Ok out ->
     (length laser_data = length position_data \/ length position_data = 1 \/
      length laser_data = 1) /\
     (length position_data <> 0 -> length out = length laser_data) /\
     (length position_data = 0 -> length out = 0)).
Proof.
  split; [|apply get_obstacle_data_length].
  destruct laser_data as [|first rest]; [reflexivity|].
  apply get_obstacle_data_mismatch. discriminate.
Qed.

Section UnequalTableRuns.

(** The examples are run without rounding. *)
#[local] Existing Instance exact.

(** C5, counterexample.  Two scans against three position samples: the
    call raises, it does not return the two rows of the shorter table. *)
Lemma obstacle_rows_of_unequal_tables_counterexample :
  length far_scans = 2 /\ length three_poses = 3 /\
  get_obstacle_data three_poses far_scans = Raise ValueError.
Proof.
  split; [reflexivity|]. split; [reflexivity|].
  unfold far_scans, scan. run_projector. reflexivity.
Qed.

End UnequalTableRuns.

(** ** The projection of one beam *)

Lemma norm_triangle (a b c d : R) :
  (sqrt ((a + c) * (a + c) + (b + d) * (b + d))
   <= sqrt (a * a + b * b) + sqrt (c * c + d * d))%R.
Proof.
  assert (HP : (0 <= a * a + b * b)%R) by nra.
  assert (HQ : (0 <= c * c + d * d)%R) by nra.
  assert (HS : (0 <= (a + c) * (a + c) + (b + d) * (b + d))%R).
  { pose proof (Rle_0_sqr (a + c)). pose proof (Rle_0_sqr (b + d)).
    unfold Rsqr in *. lra. }
  apply Rsqr_incr_0_var.
  2:{ pose proof (sqrt_pos (a * a + b * b)). pose proof (sqrt_pos (c * c + d * d)).
      lra. }
  rewrite Rsqr_sqrt by exact HS.
  unfold Rsqr.
  replace ((sqrt (a * a + b * b) + sqrt (c * c + d * d))
           * (sqrt (a * a + b * b) + sqrt (c * c + d * d)))%R
    with (sqrt (a * a + b * b) * sqrt (a * a + b * b)
          + sqrt (c * c + d * d) * sqrt (c * c + d * d)
          + 2 * (sqrt (a * a + b * b) * sqrt (c * c + d * d)))%R by ring.
  rewrite !sqrt_sqrt by assumption.
  rewrite <- sqrt_mult by assumption.
  assert (Hcs : (a * c + b * d <= sqrt ((a * a + b * b) * (c * c + d * d)))%R).
  { apply Rle_trans with (Rabs (a * c + b * d)); [apply Rle_abs|].
    rewrite <- sqrt_Rsqr_abs.
    apply sqrt_le_1; [apply Rle_0_sqr | apply Rmult_le_pos; assumption |].
    pose proof (Rle_0_sqr (a * d - b * c)) as Hsq. unfold Rsqr in *. lra. }
  lra.
Qed.

Lemma norm_abs (x y : R) : (sqrt (x * x + y * y) <= Rabs x + Rabs y)%R.
Proof.
  apply Rsqr_incr_0_var.
  2:{ pose proof (Rabs_pos x). pose proof (Rabs_pos y). lra. }
  rewrite Rsqr_sqrt by nra. unfold Rsqr.
  pose proof (Rabs_pos x). pose proof (Rabs_pos y).
  assert (Hx : (Rabs x * Rabs x = x * x)%R).
  { rewrite <- Rabs_mult. apply Rabs_pos_eq. nra. }
  assert (Hy : (Rabs y * Rabs y = y * y)%R).
  { rewrite <- Rabs_mult. apply Rabs_pos_eq. nra. }
  nra.
Qed.

(** A point at [r] along the angle [t], moved by ([ex], [ey]), is at a
    distance from the origin that differs from the absolute value of [r]
    by no more than the move. *)
Lemma round_trip_error (r t ex ey : R) :
  (Rabs (sqrt ((r * cos t + ex) * (r * cos t + ex)
               + (r * sin t + ey) * (r * sin t + ey)) - Rabs r)
   <= Rabs ex + Rabs ey)%R.
Proof.
  assert (Hr : sqrt (r * cos t * (r * cos t) + r * sin t * (r * sin t)) = Rabs r).
  { replace (r * cos t * (r * cos t) + r * sin t * (r * sin t))%R
      with (Rsqr r * (Rsqr (sin t) + Rsqr (cos t)))%R by (unfold Rsqr; ring).
    rewrite sin2_cos2, Rmult_1_r. apply sqrt_Rsqr_abs. }
  pose proof (norm_triangle (r * cos t) (r * sin t) ex ey) as Hup.
  pose proof (norm_triangle (r * cos t + ex) (r * sin t + ey) (- ex) (- ey)) as Hlow.
  replace (r * cos t + ex + - ex)%R with (r * cos t)%R in Hlow by ring.
  replace (r * sin t + ey + - ey)%R with (r * sin t)%R in Hlow by ring.
  replace (- ex * - ex + - ey * - ey)%R with (ex * ex + ey * ey)%R in Hlow by ring.
  rewrite Hr in Hup, Hlow.
  pose proof (norm_abs ex ey) as He.
  apply Rabs_le. lra.
Qed.

Lemma round_nonneg {A : arithmetic} (x : R) : (0 <= x)%R -> (0 <= round x)%R.
Proof. intros H. rewrite <- round_0. apply round_monotone. exact H. Qed.

Lemma libm_error_pos {A : arithmetic} : (0 <= libm_error)%R.
Proof.
  apply Rle_trans with (Rabs (cos_libm 0 - cos 0)); [apply Rabs_pos | apply cos_error].
Qed.

(** The error of one stored coordinate. *)
Lemma coordinate_error_bound {A : arithmetic} (p r c v : R) :
  (Rabs (c - v) <= libm_error)%R -> (Rabs v <= 1)%R ->
  (Rabs (round (p + round (r * c)) - (p + r * v)) <= coordinate_error p r)%R.
Proof.
  intros Hc Hv. unfold coordinate_error. cbv zeta.
  pose proof unit_roundoff_pos as Hu. pose proof underflow_unit_pos as Heta.
  pose proof libm_error_pos as Heps.
  pose proof (Rabs_pos r) as Hr. pose proof (Rabs_pos p) as Hp.
  set (product := (Rabs r * (1 + libm_error))%R).
  assert (Hrc : (Rabs (r * c) <= product)%R).
  { rewrite Rabs_mult. unfold product. apply Rmult_le_compat_l; [exact Hr|].
    replace c with (v + (c - v))%R by ring.
    apply Rle_trans with (Rabs v + Rabs (c - v))%R; [apply Rabs_triang | lra]. }
  pose proof (round_error (r * c)) as H2.
  assert (H2' : (Rabs (round (r * c) - r * c)
                 <= unit_roundoff * product + underflow_unit)%R).
  { apply Rle_trans with (1 := H2).
    apply Rplus_le_compat_r. apply Rmult_le_compat_l; assumption. }
  set (m := round (r * c)) in *.
  assert (Hm : (Rabs m <= product + (unit_roundoff * product + underflow_unit))%R).
  { replace m with (r * c + (m - r * c))%R by ring.
    apply Rle_trans with (Rabs (r * c) + Rabs (m - r * c))%R; [apply Rabs_triang | lra]. }
  pose proof (round_error (p + m)) as H1.
  assert (H1' : (Rabs (round (p + m) - (p + m))
                 <= unit_roundoff
                    * (Rabs p + (product + (unit_roundoff * product + underflow_unit)))
                    + underflow_unit)%R).
  { apply Rle_trans with (1 := H1).
    apply Rplus_le_compat_r. apply Rmult_le_compat_l; [exact Hu|].
    apply Rle_trans with (Rabs p + Rabs m)%R; [apply Rabs_triang | lra]. }
  assert (H3 : (Rabs (r * (c - v)) <= libm_error * Rabs r)%R).
  { rewrite Rabs_mult, Rmult_comm. apply Rmult_le_compat_r; assumption. }
  replace (round (p + m) - (p + r * v))%R
    with ((round (p + m) - (p + m)) + ((m - r * c) + r * (c - v)))%R by ring.
  apply Rle_trans with (1 := Rabs_triang _ _).
  apply Rle_trans
    with (Rabs (round (p + m) - (p + m)) + (Rabs (m - r * c) + Rabs (r * (c - v))))%R.
  { apply Rplus_le_compat_l. apply Rabs_triang. }
  lra.
Qed.

(** One beam of one output row: its range, the position sample it is
    paired with, and what its obstacle coordinates are. *)
Lemma beam_projection {A : arithmetic} (position_data : list Position.row)
    (laser_data : list Laser.row) (out : list Obstacle.row) (i : nat)
    (row : Obstacle.row) :
  get_obstacle_data position_data laser_data = Ok out ->
  nth_error out i = Some row ->
  exists first lrow p,
    hd_error laser_data = Some first /\
    nth_error laser_data i = Some lrow /\
    nth_error position_data (bix (length position_data) i) = Some p /\
    length (Obstacle.obs_y row) = length (Obstacle.obs_x row) /\
    forall j, j < length (Obstacle.obs_x row) ->
      let r := nth (bix (length (Laser.ranges first)) j) (Laser.ranges lrow) NaN in
      let ox := nth j (Obstacle.obs_x row) NaN in
      let oy := nth j (Obstacle.obs_y row) NaN in
      (r = NaN -> ox = NaN /\ oy = NaN) /\
      (forall x a b, r = Fin x ->
       Position.px p = Fin a -> Position.py p = Fin b -> Position.pa p <> NaN ->
       Laser.min_angle first <> NaN -> Laser.max_angle first <> NaN ->
       exists X Y,
         ox = Fin X /\ oy = Fin Y /\
         (Rabs (sqrt ((X - a) * (X - a) + (Y - b) * (Y - b)) - Rabs x)
          <= projection_tolerance a b x)%R).
Proof.
  intros H Hrow. apply get_obstacle_data_Ok in H.
  destruct H as (first & angles & nr & nc & Hfirst & Hlin & _ & _ & Hdc & _ & _ & Hrows).
  destruct (Hrows i row Hrow) as (lrow & p & Hl & Hp & _ & _ & Hlx & Hly & Hbeams).
  exists first, lrow, p. repeat (split; [assumption|]).
  split; [congruence|].
  rewrite Hlx. intros j Hj. cbv zeta.
  destruct (Hbeams j Hj) as [Hx Hy]. cbv zeta in Hx, Hy. rewrite Hx, Hy.
  split.
  - intros ->. cbn [fmul]. destruct (Position.px p), (Position.py p); auto.
  - intros x a b -> Hpx Hpy Hpa Hlo Hhi.
    apply linspace_Ok in Hlin. destruct Hlin as (_ & _ & Hnum).
    specialize (Hnum Hlo Hhi). rewrite Forall_forall in Hnum.
    assert (Hbj : bix (length angles) j < length angles)
      by (eapply bix_bound_r; eassumption).
    specialize (Hnum _ (nth_In angles NaN Hbj)).
    destruct (nth (bix (length angles) j) angles NaN) as [|t]; [congruence|].
    rewrite Hpx, Hpy.
    destruct (Position.pa p) as [|h]; [congruence|].
    cbn [fadd fmul fcos fsin]. set (theta := round (h + t)).
    eexists. eexists. split; [reflexivity|]. split; [reflexivity|].
    set (ex := (round (a + round (x * cos_libm theta)) - (a + x * cos theta))%R).
    set (ey := (round (b + round (x * sin_libm theta)) - (b + x * sin theta))%R).
    replace (round (a + round (x * cos_libm theta)) - a)%R
      with (x * cos theta + ex)%R by (unfold ex; ring).
    replace (round (b + round (x * sin_libm theta)) - b)%R
      with (x * sin theta + ey)%R by (unfold ey; ring).
    apply Rle_trans with (1 := round_trip_error x theta ex ey).
    unfold projection_tolerance. apply Rplus_le_compat.
    + apply coordinate_error_bound; [apply cos_error|].
      apply Rabs_le. pose proof (COS_bound theta). lra.
    + apply coordinate_error_bound; [apply sin_error|].
      apply Rabs_le. pose proof (SIN_bound theta). lra.
Qed.

(** A negative range is farther than the tolerance from the distance of
    its obstacle, in every arithmetic whose tolerance at the beam is below
    the absolute value of the range. *)
Lemma negative_range_beyond_tolerance {A : arithmetic} (px py x distance : R) :
  (x < 0)%R ->
  (Rabs (distance - Rabs x) <= projection_tolerance px py x)%R ->
  (projection_tolerance px py x < Rabs x)%R ->
  (projection_tolerance px py x < Rabs (distance - x))%R.
Proof.
  intros Hx. rewrite (Rabs_left x) by assumption.
  unfold Rabs at 1 2.
  destruct (Rcase_abs (distance - - x)), (Rcase_abs (distance - x)); lra.
Qed.

(** C2 (as amended).  For every scan row [i] and beam [j] produced by
    [get_obstacle_data]: if the beam's range is unknown, [obs_x[i][j]] and
    [obs_y[i][j]] are unknown too; if it is a number [r] and the paired
    position sample and the angle bounds of the first scan hold numbers,
    both coordinates are numbers and
    [sqrt((obs_x[i][j] - px)^2 + (obs_y[i][j] - py)^2)] is the absolute
    value of [r], hence [r] itself when [r] is not negative, within the
    tolerance of the floating-point computation, [projection_tolerance]:
    the rounding of the sum [px + r cos] and of the product, and the error
    of the library cosine and sine, which grow with the sizes of [px],
    [py] and [r] (no operation going beyond the range of [float64]).  The
    paired position sample is row [i] of the position table, or its only
    row when it has one. *)
Theorem obstacle_projection {A : arithmetic} (position_data : list Position.row)
    (laser_data : list Laser.row) (out : list Obstacle.row) :
  get_obstacle_data position_data laser_data = Ok out ->
  forall i row, nth_error out i = Some row ->
    exists first lrow p,
      hd_error laser_data = Some first /\
      nth_error laser_data i = Some lrow /\
      nth_error position_data (bix (length position_data) i) = Some p /\
      forall j, j < length (Obstacle.obs_x row) ->
        let r := nth (bix (length (Laser.ranges first)) j) (Laser.ranges lrow) NaN in
        let ox := nth j (Obstacle.obs_x row) NaN in
        let oy := nth j (Obstacle.obs_y row) NaN in
        (r = NaN -> ox = NaN /\ oy = NaN) /\
        (forall x px py, r = Fin x ->
         Position.px p = Fin px -> Position.py p = Fin py -> Position.pa p <> NaN ->
         Laser.min_angle first <> NaN -> Laser.max_angle first <> NaN ->
         exists X Y,
           ox = Fin X /\ oy = Fin Y /\
           let distance := sqrt ((X - px) * (X - px) + (Y - py) * (Y - py)) in
           (Rabs (distance - Rabs x) <= projection_tolerance px py x)%R /\
           ((0 <= x)%R -> (Rabs (distance - x) <= projection_tolerance px py x)%R)).
Proof.
  intros H i row Hrow.
  destruct (beam_projection _ _ _ _ _ H Hrow) as (first & lrow & p & Hf & Hl & Hp & _ & Hb).
  exists first, lrow, p. repeat (split; [assumption|]).
  intros j Hj. cbv zeta. destruct (Hb j Hj) as [Hnan Hnum]. cbv zeta in Hnan, Hnum.
  split; [exact Hnan|].
  intros x px py Hr Hpx Hpy Hpa Hlo Hhi.
  destruct (Hnum x px py Hr Hpx Hpy Hpa Hlo Hhi) as (X & Y & Hox & Hoy & Hd).
  exists X, Y. repeat (split; [assumption|]).
  intros Hx. rewrite (Rabs_pos_eq x) in Hd by assumption. exact Hd.
Qed.

Section ProjectionRuns.

(** The examples are run without rounding. *)
#[local] Existing Instance exact.

Lemma projection_tolerance_exact (px py r : R) : projection_tolerance px py r = 0%R.
Proof.
  unfold projection_tolerance, coordinate_error.
  cbn [unit_roundoff underflow_unit libm_error exact]. ring.
Qed.

Lemma odd_scans_run :
  exists row, get_obstacle_data one_pose odd_scans = Ok [row] /\
              length (Obstacle.obs_x row) = 2.
Proof. unfold odd_scans, scan. run_projector. eexists. split; reflexivity. Qed.

Lemma near_scans_run :
  exists row, get_obstacle_data [pose_without_px] near_scans = Ok [row] /\
              nth 0 (Obstacle.obs_x row) (Fin 0) = NaN.
Proof. unfold near_scans, scan. run_projector. eexists. split; reflexivity. Qed.

(** C2, counterexample.  A stored range of -1 is a number below the maximum
    range, so it is kept; its obstacle lies at distance 1 from the paired
    position, which is 2 away from the range -1, beyond the tolerance.
    And a range of 2 paired with a position sample whose [px] is NaN gives
    an unknown [obs_x], at no distance. *)
Lemma obstacle_projection_counterexample :
  (exists row lrow p X Y,
     get_obstacle_data one_pose odd_scans = Ok [row] /\
     hd_error odd_scans = Some lrow /\ hd_error one_pose = Some p /\
     nth 0 (Laser.ranges lrow) NaN = Fin (-1) /\
     Position.px p = Fin 0 /\ Position.py p = Fin 0 /\
     nth 0 (Obstacle.obs_x row) NaN = Fin X /\
     nth 0 (Obstacle.obs_y row) NaN = Fin Y /\
     sqrt ((X - 0) * (X - 0) + (Y - 0) * (Y - 0)) = 1%R /\
     (projection_tolerance 0 0 (-1)
      < Rabs (sqrt ((X - 0) * (X - 0) + (Y - 0) * (Y - 0)) - -1))%R) /\
  (exists row lrow,
     get_obstacle_data [pose_without_px] near_scans = Ok [row] /\
     hd_error near_scans = Some lrow /\
     nth 0 (Laser.ranges lrow) NaN = Fin 2 /\
     nth 0 (Obstacle.obs_x row) (Fin 0) = NaN).
Proof.
  split.
  - destruct odd_scans_run as (row & Hrun & Hlen).
    destruct (beam_projection _ _ _ 0 row Hrun eq_refl)
      as (first & lrow & p & Hf & Hl & Hp & _ & Hb).
    injection Hf as <-. injection Hl as <-. injection Hp as <-.
    destruct (Hb 0 ltac:(lia)) as [_ Hnum]. cbv zeta in Hnum.
    destruct (Hnum (-1)%R 0%R 0%R eq_refl eq_refl eq_refl) as (X & Y & HX & HY & Hd);
      try discriminate.
    rewrite projection_tolerance_exact in Hd.
    assert (Hone : sqrt ((X - 0) * (X - 0) + (Y - 0) * (Y - 0)) = 1%R).
    { rewrite (Rabs_left (-1)) in Hd by lra.
      pose proof (Rabs_pos (sqrt ((X - 0) * (X - 0) + (Y - 0) * (Y - 0)) - - -1)) as H0.
      assert (Hz : Rabs (sqrt ((X - 0) * (X - 0) + (Y - 0) * (Y - 0)) - - -1) = 0%R)
        by lra.
      destruct (Req_dec (sqrt ((X - 0) * (X - 0) + (Y - 0) * (Y - 0)) - - -1) 0)
        as [E|E]; [lra|].
      apply Rabs_no_R0 in E. contradiction. }
    exists row. eexists. eexists. exists X, Y.
    split; [exact Hrun|]. split; [reflexivity|]. split; [reflexivity|].
    split; [reflexivity|]. split; [reflexivity|]. split; [reflexivity|].
    split; [exact HX|]. split; [exact HY|]. split; [exact Hone|].
    rewrite projection_tolerance_exact, Hone.
    replace (1 - -1)%R with 2%R by ring. rewrite Rabs_pos_eq; lra.
  - destruct near_scans_run as (row & Hrun & Hx).
    exists row. eexists.
    split; [exact Hrun|]. split; [reflexivity|]. split; [reflexivity|]. exact Hx.
Qed.

(** C2, a run on the same scan: the unknown beam stays unknown, and the
    other lies at distance 1, the absolute value of its range. *)
Lemma obstacle_projection_witness :
  exists row,
    get_obstacle_data one_pose odd_scans = Ok [row] /\
    nth 1 (Obstacle.obs_x row) NaN = NaN /\
    nth 1 (Obstacle.obs_y row) NaN = NaN /\
    exists X Y,
      nth 0 (Obstacle.obs_x row) NaN = Fin X /\
      nth 0 (Obstacle.obs_y row) NaN = Fin Y /\
      (Rabs (sqrt ((X - 0) * (X - 0) + (Y - 0) * (Y - 0)) - Rabs (-1))
       <= projection_tolerance 0 0 (-1))%R.
Proof.
  destruct odd_scans_run as (row & Hrun & Hlen).
  exists row. split; [exact Hrun|].
  destruct (obstacle_projection one_pose odd_scans _ Hrun 0 row eq_refl)
    as (first & lrow & p & Hf & Hl & Hp & Hb).
  injection Hf as <-. injection Hl as <-. injection Hp as <-.
  destruct (Hb 1 ltac:(lia)) as [Hnan _]. cbv zeta in Hnan.
  destruct (Hnan eq_refl) as [Hx Hy].
  destruct (Hb 0 ltac:(lia)) as [_ Hnum]. cbv zeta in Hnum.
  destruct (Hnum (-1)%R 0%R 0%R eq_refl eq_refl eq_refl) as (X & Y & HX & HY & Hd & _);
    try discriminate.
  split; [exact Hx|]. split; [exact Hy|]. exists X, Y. auto.
Defined.

End ProjectionRuns.

(** ** Grouping *)

Section GroupingProperties.

Context {T K : Type}.
Variable key_eqb : K -> K -> bool.
Variable key_function : T -> K.
Hypothesis key_eqb_eq : forall a b, key_eqb a b = true <-> a = b.

(** The runs of [groupby], put end to end, are the sequence. *)
Lemma groupby_concat (l : list T) :
  concat (map snd (groupby key_eqb key_function l)) = l.
Proof.
  induction l as [|x l IH]; [reflexivity|]. cbn [groupby].
  destruct (groupby key_eqb key_function l) as [|[k g] gs].
  - simpl in IH. subst l. reflexivity.
  - destruct (key_eqb (key_function x) k); simpl in *; rewrite IH; reflexivity.
Qed.

(** Every element of a run has the key of the run. *)
Lemma groupby_key (l : list T) (k : K) (g : list T) (x : T) :
  In (k, g) (groupby key_eqb key_function l) -> In x g -> key_function x = k.
Proof.
  revert k g; induction l as [|y l IH]; intros k g Hin Hx; [contradiction|].
  cbn [groupby] in Hin.
  destruct (groupby key_eqb key_function l) as [|[k' g'] gs].
  - destruct Hin as [Hin|[]]. injection Hin as <- <-.
    destruct Hx as [<-|[]]. reflexivity.
  - destruct (key_eqb (key_function y) k') eqn:E.
    + apply key_eqb_eq in E. destruct Hin as [Hin|Hin].
      * injection Hin as <- <-. destruct Hx as [<-|Hx].
        -- reflexivity.
        -- rewrite E. apply (IH k' g'); [left; reflexivity | assumption].
      * apply (IH k g); [right; assumption | assumption].
    + destruct Hin as [Hin|Hin].
      * injection Hin as <- <-. destruct Hx as [<-|[]]. reflexivity.
      * apply (IH k g); assumption.
Qed.

Lemma dict_set_fresh (k : K) (v : list T) (d : list (K * list T)) :
  ~ In k (map fst d) -> dict_set key_eqb k v d = d ++ [(k, v)].
Proof.
  induction d as [|[k' v'] d IH]; intros Hk; [reflexivity|].
  cbn [dict_set]. destruct (key_eqb k k') eqn:E.
  - apply key_eqb_eq in E. subst k'. exfalso. apply Hk. left. reflexivity.
  - rewrite IH; [reflexivity|]. intros Hin. apply Hk. right. assumption.
Qed.

Lemma fold_dict_set_fresh (kvs d : list (K * list T)) :
  NoDup (map fst (d ++ kvs)) ->
  fold_left (fun d (kg : K * list T) => dict_set key_eqb (fst kg) (snd kg) d) kvs d
  = d ++ kvs.
Proof.
  revert d; induction kvs as [|[k v] kvs IH]; intros d Hnd; cbn [fold_left fst snd].
  - rewrite app_nil_r. reflexivity.
  - rewrite dict_set_fresh.
    + rewrite IH; rewrite <- app_assoc; [reflexivity | exact Hnd].
    + rewrite map_app in Hnd. apply NoDup_remove_2 in Hnd.
      intros Hin. apply Hnd. apply in_or_app. left. assumption.
Qed.

(** When no key heads two runs, the dictionary of [group_by] holds the
    runs of [groupby], one entry each. *)
Lemma group_by_runs (l : list T) :
  NoDup (map fst (groupby key_eqb key_function l)) ->
  group_by key_eqb key_function l = groupby key_eqb key_function l.
Proof.
  intros H. unfold group_by. rewrite fold_dict_set_fresh; [reflexivity | exact H].
Qed.

(** A sequence made of blocks, each of one key and no two of the same key,
    the way a directory tree is walked folder by folder, has its blocks for
    runs. *)
Lemma groupby_block (k : K) (g tail : list T) :
  g <> [] ->
  Forall (fun x => key_function x = k) g ->
  ~ In k (map fst (groupby key_eqb key_function tail)) ->
  groupby key_eqb key_function (g ++ tail)
  = (k, g) :: groupby key_eqb key_function tail.
Proof.
  intros Hne Hall Hk. induction g as [|x g IH]; [congruence|].
  inversion Hall as [|x' g' Hx Hg]; subst x' g'.
  destruct g as [|y g].
  - cbn [app groupby].
    destruct (groupby key_eqb key_function tail) as [|[k' g'] gs];
      [rewrite Hx; reflexivity|].
    destruct (key_eqb (key_function x) k') eqn:E; [|rewrite Hx; reflexivity].
    apply key_eqb_eq in E. exfalso. apply Hk. left. cbn [fst]. congruence.
  - change ((x :: y :: g) ++ tail) with (x :: ((y :: g) ++ tail)).
    cbn [groupby]. rewrite IH by (assumption || discriminate).
    replace (key_eqb (key_function x) k) with true; [rewrite Hx; reflexivity|].
    symmetry. apply key_eqb_eq. exact Hx.
Qed.

Lemma groupby_blocks (blocks : list (K * list T)) :
  NoDup (map fst blocks) ->
  Forall (fun kg => snd kg <> [] /\
                    Forall (fun x => key_function x = fst kg) (snd kg)) blocks ->
  groupby key_eqb key_function (concat (map snd blocks)) = blocks.
Proof.
  induction blocks as [|[k g] blocks IH]; intros Hnd Hall; [reflexivity|].
  inversion Hnd as [|k' ks Hk Hnd']; subst k' ks.
  inversion Hall as [|kg bs [Hne Hg] Hall']; subst kg bs.
  cbn [map concat snd fst] in *.
  rewrite (groupby_block k); rewrite ?IH; auto.
Qed.

End GroupingProperties.

Lemma all_records_runs (logs_data : list LogData) :
  keys_adjacent (fun ld => algorithm (metadata ld)) logs_data ->
  (forall a logs,
     In (a, logs) (groupby String.eqb (fun ld => algorithm (metadata ld)) logs_data) ->
     keys_adjacent (fun ld => difficulty (metadata ld)) logs) ->
  group_by_algorithm_and_difficulty logs_data
  = map (fun al : String.string * list LogData =>
           (fst al, groupby String.eqb (fun ld => difficulty (metadata ld)) (snd al)))
        (groupby String.eqb (fun ld => algorithm (metadata ld)) logs_data).
Proof.
  intros Halg Hdiff. unfold group_by_algorithm_and_difficulty.
  rewrite (group_by_runs String.eqb _ String.eqb_eq) by exact Halg.
  apply map_ext_in. intros [a logs] Hin. cbn [fst snd]. f_equal.
  apply (group_by_runs String.eqb _ String.eqb_eq). apply (Hdiff a). exact Hin.
Qed.

(** C8 (as amended).  When the records of one algorithm are adjacent in the
    sequence and, among them, the records of one difficulty are adjacent
    (the order in which the log directory is walked), grouping by algorithm
    and then by difficulty partitions the records: the buckets put end to
    end are the input sequence, every record of the bucket of algorithm [a]
    and difficulty [d] has that algorithm and that difficulty, and no
    algorithm and no difficulty within an algorithm names two buckets. *)
Theorem grouping_partitions_adjacent_records (logs_data : list LogData) :
  keys_adjacent (fun ld => algorithm (metadata ld)) logs_data ->
  (forall a logs,
     In (a, logs) (groupby String.eqb (fun ld => algorithm (metadata ld)) logs_data) ->
     keys_adjacent (fun ld => difficulty (metadata ld)) logs) ->
  let grouped := group_by_algorithm_and_difficulty logs_data in
  all_records grouped = logs_data /\
  NoDup (map fst grouped) /\
  forall a buckets, In (a, buckets) grouped ->
    NoDup (map fst buckets) /\
    forall d bucket ld, In (d, bucket) buckets -> In ld bucket ->
      algorithm (metadata ld) = a /\ difficulty (metadata ld) = d.
Proof.
  intros Halg Hdiff. cbv zeta. rewrite (all_records_runs _ Halg Hdiff).
  split; [|split].
  - unfold all_records. rewrite map_map. cbn [snd].
    rewrite <- (groupby_concat String.eqb (fun ld => algorithm (metadata ld)) logs_data)
      at 2.
    f_equal. apply map_ext. intros [a logs]. cbn [snd].
    apply groupby_concat.
  - rewrite map_map. cbn [fst]. exact Halg.
  - intros a buckets Hin. apply in_map_iff in Hin.
    destruct Hin as ([a' logs] & Heq & Hin). cbn [fst snd] in Heq.
    injection Heq as <- <-. split; [apply (Hdiff a'); exact Hin|].
    intros d bucket ld Hb Hld. split.
    + apply (groupby_key String.eqb (fun ld => algorithm (metadata ld)) String.eqb_eq
               logs_data a' logs); [exact Hin|].
      rewrite <- (groupby_concat String.eqb (fun ld => difficulty (metadata ld)) logs).
      apply in_concat. exists bucket. split; [|exact Hld].
      apply in_map_iff. exists (d, bucket). auto.
    + apply (groupby_key String.eqb (fun ld => difficulty (metadata ld)) String.eqb_eq
               logs d bucket); assumption.
Qed.

(** C8, counterexample.  When the algorithm vfh comes back after nd, its
    second run replaces the first in the dictionary: the first record is in
    no bucket, and the buckets hold two of the three records. *)
Lemma grouping_counterexample :
  ~ In (bare_log 1 "vfh"%string "easy"%string)
       (all_records (group_by_algorithm_and_difficulty interleaved_logs)) /\
  length (all_records (group_by_algorithm_and_difficulty interleaved_logs)) = 2 /\
  length interleaved_logs = 3.
Proof.
  split; [|split; reflexivity].
  intros [H|[H|[]]]; discriminate.
Qed.

(** C8, a run in the order of the directory walk. *)
Lemma grouping_witness :
  all_records (group_by_algorithm_and_difficulty walked_logs) = walked_logs /\
  map fst (group_by_algorithm_and_difficulty walked_logs) = ["vfh"; "nd"]%string.
Proof.
  assert (Halg : keys_adjacent (fun ld => algorithm (metadata ld)) walked_logs).
  { unfold keys_adjacent. cbn.
    repeat constructor; cbn; intuition discriminate. }
  assert (Hdiff : forall a logs,
             In (a, logs)
                (groupby String.eqb (fun ld => algorithm (metadata ld)) walked_logs) ->
             keys_adjacent (fun ld => difficulty (metadata ld)) logs).
  { intros a logs Hin. cbn in Hin.
    destruct Hin as [Hin|[Hin|[]]]; injection Hin as <- <-;
      unfold keys_adjacent; cbn; repeat constructor; cbn; intuition discriminate. }
  split.
  - apply (grouping_partitions_adjacent_records walked_logs Halg Hdiff).
  - reflexivity.
Defined.

(** ** The target of a log and its assembly *)

Section AssemblerProperties.

Context {A : arithmetic}.

Variable to_float : String.string -> float.
Variable files : String.string -> result (list line).

(** C9.  For every difficulty tag other than the string realistic,
    whether a known preset or not, [get_log_data] takes the target position
    (-8, -7.5) and has no failure of its own: it returns the four tables as
    soon as the two extractors and the projector return, and an exception
    it raises is raised by reading the file or by one of these three. *)
Theorem unrecognized_difficulty_falls_back (log_metadata : LogMetadata) :
  difficulty log_metadata <> "realistic"%string ->
  target_position_of log_metadata = (-8, -7.5)%R /\
  (forall laser_lines laser position_lines position obstacle,
     read_log files (path log_metadata) "laser" = Ok laser_lines ->
     get_laser_data to_float laser_lines = Ok laser ->
     read_log files (path log_metadata) "position2d" = Ok position_lines ->
     get_position_data to_float position_lines (-8, -7.5)%R = Ok position ->
     get_obstacle_data position laser = Ok obstacle ->
     get_log_data to_float files log_metadata
     = Ok {| metadata := log_metadata; laser_data := laser;
             position_data := position; obstacle_data := obstacle |}) /\
  (forall e, get_log_data to_float files log_metadata = Raise e ->
     read_log files (path log_metadata) "laser" = Raise e \/
     (exists laser_lines,
        read_log files (path log_metadata) "laser" = Ok laser_lines /\
        (get_laser_data to_float laser_lines = Raise e \/
         exists laser position_lines,
           get_laser_data to_float laser_lines = Ok laser /\
           read_log files (path log_metadata) "position2d" = Ok position_lines /\
           (get_position_data to_float position_lines (-8, -7.5)%R = Raise e \/
            exists position,
              get_position_data to_float position_lines (-8, -7.5)%R = Ok position /\
              get_obstacle_data position laser = Raise e)))).
Proof.
  intros Hd.
  assert (Ht : target_position_of log_metadata = (-8, -7.5)%R).
  { unfold target_position_of.
    destruct (String.eqb_spec (difficulty log_metadata) "realistic"); congruence. }
  split; [exact Ht|]. unfold get_log_data. rewrite Ht. split.
  - intros laser_lines laser position_lines position obstacle H1 H2 H3 H4 H5.
    rewrite H1. cbn [bind]. rewrite H2. cbn [bind]. rewrite H3. cbn [bind].
    rewrite H4. cbn [bind]. rewrite H5. reflexivity.
  - intros e H.
    destruct (read_log files (path log_metadata) "laser") as [laser_lines|e1] eqn:H1;
      cbn [bind] in H; [|left; congruence].
    right. exists laser_lines. split; [reflexivity|].
    destruct (get_laser_data to_float laser_lines) as [laser|e2];
      cbn [bind] in H; [|left; congruence].
    right.
    destruct (read_log files (path log_metadata) "position2d")
      as [position_lines|e3] eqn:H3; cbn [bind] in H.
    + exists laser, position_lines. split; [reflexivity|]. split; [reflexivity|].
      destruct (get_position_data to_float position_lines (-8, -7.5)%R)
        as [position|e4]; cbn [bind] in H; [|left; congruence].
      right. exists position. split; [reflexivity|].
      destruct (get_obstacle_data position laser) as [obstacle|e5];
        cbn [bind] in H; [discriminate | congruence].
    + exfalso. unfold read_log in H1, H3.
      destruct (files (path log_metadata)); discriminate.
Qed.

End AssemblerProperties.

(** ** When the projector returns *)

Lemma linspace_total {A : arithmetic} (start stop : float) (num : Z) :
  (0 <= num)%Z -> exists l, linspace start stop num = Ok l.
Proof.
  intros H. unfold linspace. destruct (Z.ltb_spec num 0); [lia|].
  destruct (1 <? Z.to_nat num); eexists; reflexivity.
Qed.

Lemma repeat_reshape_total (v : list float) (c : nat) :
  c <> 0 -> exists m, repeat_reshape v c = Ok m.
Proof.
  intros H. unfold repeat_reshape. destruct (Nat.eqb_spec c 0); [contradiction|].
  eexists; reflexivity.
Qed.

Lemma broadcast_total (f : float -> float -> float) (x y : matrix) (r c : nat) :
  broadcast_dim (nrows x) (nrows y) = Ok r ->
  broadcast_dim (ncols x) (ncols y) = Ok c ->
  exists m, broadcast f x y = Ok m.
Proof.
  intros Hr Hc. unfold broadcast. rewrite Hr, Hc. eexists; reflexivity.
Qed.

Lemma stack_total (arrays : list (list float)) (first : list float) :
  hd_error arrays = Some first ->
  Forall (fun r => length r = length first) arrays ->
  exists m, stack arrays = Ok m.
Proof.
  intros Hhd Hall. destruct arrays as [|a rest]; [discriminate|].
  injection Hhd as ->. unfold stack.
  replace (forallb (fun r => length r =? length first) rest) with true;
    [eexists; reflexivity|].
  symmetry. apply forallb_forall. intros r Hr. apply Nat.eqb_eq.
  rewrite Forall_forall in Hall. apply Hall. right. assumption.
Qed.

(** [get_obstacle_data] returns as soon as the laser table has a row, its
    first row counts at least one beam, all its scans have as many ranges,
    and the two tables and the ranges and the angles broadcast. *)
Lemma get_obstacle_data_total {A : arithmetic} (position_data : list Position.row)
    (laser_data : list Laser.row) (first : Laser.row) (nr nc : nat) :
  hd_error laser_data = Some first ->
  (0 < Laser.count first)%Z ->
  Forall (fun lrow => length (Laser.ranges lrow) = length (Laser.ranges first))
         laser_data ->
  broadcast_dim (length laser_data) (length position_data) = Ok nr ->
  broadcast_dim (length (Laser.ranges first)) (Z.to_nat (Laser.count first)) = Ok nc ->
  nc <> 0 ->
  exists out, get_obstacle_data position_data laser_data = Ok out.
Proof.
  intros Hhd Hcount Hlen Hdr Hdc Hnc. unfold get_obstacle_data.
  destruct laser_data as [|first' rest]; [discriminate|].
  injection Hhd as ->.
  remember (first :: rest) as laser_data eqn:Hld.
  destruct (linspace_total (Laser.min_angle first) (Laser.max_angle first)
              (Laser.count first)) as (laser_angles & Hlin); [lia|].
  rewrite Hlin. cbn [bind].
  apply linspace_Ok in Hlin. destruct Hlin as (_ & Hc & _).
  rewrite <- Hc in Hdc.
  destruct (repeat_reshape_total (map Position.pa position_data) (length laser_angles))
    as (pa_rep & Hpa); [lia|].
  rewrite Hpa. cbn [bind].
  apply repeat_reshape_Ok in Hpa. rewrite length_map in Hpa.
  destruct Hpa as (_ & Hpac & Hpar & _).
  destruct (broadcast_total fadd pa_rep (row_vector laser_angles)
              (length position_data) (length laser_angles)) as (angles & Hangles).
  { rewrite Hpar. apply broadcast_dim_one_r. }
  { rewrite Hpac. apply broadcast_dim_same. }
  rewrite Hangles. cbn [bind].
  apply broadcast_Ok in Hangles.
  destruct Hangles as (ra & ca & Hd1 & Hd2 & Har & Hac & _).
  rewrite Hpar in Hd1. change (nrows (row_vector laser_angles)) with 1 in Hd1.
  rewrite broadcast_dim_one_r in Hd1. injection Hd1 as <-.
  rewrite Hpac in Hd2. change (ncols (row_vector laser_angles)) with (length laser_angles) in Hd2.
  rewrite broadcast_dim_same in Hd2. injection Hd2 as <-.
  destruct (stack_total (map Laser.ranges laser_data) (Laser.ranges first))
    as (ranges & Hstack).
  { rewrite Hld. reflexivity. }
  { rewrite Forall_map. exact Hlen. }
  rewrite Hstack. cbn [bind].
  apply stack_Ok in Hstack. destruct Hstack as (Hrrows & Hrc & _).
  rewrite Hld in Hrc. cbn [map hd] in Hrc.
  assert (Hrr : nrows ranges = length laser_data).
  { unfold nrows. rewrite Hrrows, length_map. reflexivity. }
  unfold polar_to_cartesian.
  destruct (broadcast_total fmul ranges (mmap fcos angles) nr nc) as (rel_x & Hx);
    [rewrite nrows_mmap, Hrr, Har; exact Hdr
    |rewrite ncols_mmap, Hrc, Hac; exact Hdc|].
  destruct (broadcast_total fmul ranges (mmap fsin angles) nr nc) as (rel_y & Hy);
    [rewrite nrows_mmap, Hrr, Har; exact Hdr
    |rewrite ncols_mmap, Hrc, Hac; exact Hdc|].
  rewrite Hx, Hy. cbn [bind].
  apply broadcast_Ok in Hx. destruct Hx as (r1 & c1 & Hd1 & Hd2 & Hxr & Hxc & _).
  apply broadcast_Ok in Hy. destruct Hy as (r2 & c2 & Hd1' & Hd2' & Hyr & Hyc & _).
  rewrite nrows_mmap, Hrr, Har, Hdr in Hd1, Hd1'.
  rewrite ncols_mmap, Hrc, Hac, Hdc in Hd2, Hd2'.
  injection Hd1 as <-. injection Hd1' as <-.
  injection Hd2 as <-. injection Hd2' as <-.
  rewrite Hxc.
  destruct (repeat_reshape_total (map Position.px position_data) nc)
    as (px_rep & Hpx); [exact Hnc|].
  destruct (repeat_reshape_total (map Position.py position_data) nc)
    as (py_rep & Hpy); [exact Hnc|].
  rewrite Hpx. cbn [bind].
  pose proof (repeat_reshape_Ok _ _ _ Hpy) as Hpy'.
  apply repeat_reshape_Ok in Hpx. rewrite length_map in Hpx, Hpy'.
  destruct Hpx as (_ & Hpxc & Hpxr & _). destruct Hpy' as (_ & Hpyc & Hpyr & _).
  destruct (broadcast_total fadd px_rep rel_x nr nc) as (obs_x & Hox);
    [rewrite Hpxr, Hxr; apply (broadcast_dim_absorb _ _ _ Hdr)
    |rewrite Hpxc, Hxc; apply broadcast_dim_same|].
  rewrite Hox. cbn [bind]. rewrite Hpy. cbn [bind].
  destruct (broadcast_total fadd py_rep rel_y nr nc) as (obs_y & Hoy);
    [rewrite Hpyr, Hyr; apply (broadcast_dim_absorb _ _ _ Hdr)
    |rewrite Hpyc, Hyc; apply broadcast_dim_same|].
  rewrite Hoy. cbn [bind]. eexists. reflexivity.
Qed.

(** ** A whole log *)

Lemma get_position_data_table {A : arithmetic} (to_float : String.string -> float) (header : line)
    (data : list line) (target : R * R) :
  data_lines data = data ->
  2 <= length data ->
  Forall (fun l => 13 <= length l) data ->
  let readings := map (readings_of to_float position_usecols) data in
  get_position_data to_float (header :: data) target
  = Ok (map position_row_of
          (combine readings
             (combine (speeds readings)
                (combine (accelerations readings) (distances target readings))))).
Proof.
  intros Hf Hn Hlen readings. apply get_position_data_Ok. rewrite Hf.
  split; [exact Hn|]. split; [exact Hlen | reflexivity].
Qed.

Lemma get_position_data_run {A : arithmetic} (to_float : String.string -> float) (header : line)
    (data : list line) (target : R * R) :
  data_lines data = data ->
  2 <= length data ->
  Forall (fun l => 13 <= length l) data ->
  exists table,
    get_position_data to_float (header :: data) target = Ok table /\
    length table = length data.
Proof.
  intros Hf Hn Hlen. eexists. split.
  - apply get_position_data_table; assumption.
  - rewrite !length_map, !length_combine, !length_map.
    unfold accelerations, distances, speeds, column.
    cbn [length]. rewrite !length_map2, !length_diff, !length_map2, !length_map.
    lia.
Qed.

Lemma scan_line_run_ok : scan_line_ok float_of_numeral scan_line_run.
Proof. apply scan_line_ok_intro with (a := 3%R) (b := 361%R); token_value. Qed.

(** Rounding keeps zero, so the speed of a sample at rest and the distance
    of a sample at the target are exactly zero. *)
Lemma hypot_0_0 {A : arithmetic} : hypot (Fin 0) (Fin 0) = Fin 0.
Proof.
  unfold hypot, fsquare. cbn [fmul fadd fsqrt].
  rewrite Rmult_0_l, round_0, Rplus_0_l, round_0.
  destruct (Rlt_dec 0 0) as [H|_]; [lra|].
  rewrite sqrt_0, round_0. reflexivity.
Qed.

Section AssemblerRuns.

(** The examples are run without rounding. *)
#[local] Existing Instance exact.

(** C9, a run: a log filed under the difficulty hard, which is no preset,
    is assembled without error. *)
Lemma unrecognized_difficulty_falls_back_witness :
  exists data,
    get_log_data float_of_numeral run_files run_metadata = Ok data /\
    metadata data = run_metadata /\
    length (laser_data data) = 2 /\ length (position_data data) = 2 /\
    length (obstacle_data data) = 2.
Proof.
  set (laser_lines := [laser_header; scan_line_run; scan_line_run]).
  set (position_lines :=
         [position_header; position_line "0" "3" "4"; position_line "2" "0" "0"]).
  assert (Hlaser : get_laser_data float_of_numeral laser_lines
                   = Ok (map (Laser.set_ranges (mask_out_of_range (Fin 8)))
                           (map (scan_of_line float_of_numeral)
                                [scan_line_run; scan_line_run]))).
  { apply get_laser_data_run; [reflexivity | cbn [length]; lia|].
    repeat apply Forall_cons; try apply Forall_nil; apply scan_line_run_ok. }
  destruct (get_position_data_run float_of_numeral position_header
              [position_line "0" "3" "4"; position_line "2" "0" "0"]
              (-8, -7.5)%R) as (position & Hposition & Hplen);
    [reflexivity | cbn [length]; lia
    | repeat apply Forall_cons; try apply Forall_nil; cbn [length position_line]; lia |].
  fold position_lines in Hposition. cbn [length] in Hplen.
  set (laser := map _ _) in Hlaser.
  assert (Hcount : Laser.count
                     (Laser.set_ranges (mask_out_of_range (Fin 8))
                        (scan_of_line float_of_numeral scan_line_run)) = 361%Z).
  { cbn [Laser.set_ranges Laser.count scan_of_line].
    replace (token_float float_of_numeral scan_line_run 12) with (Fin 361)
      by token_value.
    apply (cast_int64_IZR 361). lia. }
  assert (Hranges : length (Laser.ranges
                              (Laser.set_ranges (mask_out_of_range (Fin 8))
                                 (scan_of_line float_of_numeral scan_line_run))) = 361).
  { cbn [Laser.set_ranges Laser.ranges scan_of_line]. unfold mask_out_of_range.
    rewrite !length_map, length_seq. reflexivity. }
  destruct (get_obstacle_data_total position laser
              (Laser.set_ranges (mask_out_of_range (Fin 8))
                 (scan_of_line float_of_numeral scan_line_run)) 2 361)
    as (obstacle & Hobstacle).
  { reflexivity. }
  { rewrite Hcount. lia. }
  { unfold laser. cbn [map]. repeat apply Forall_cons; try apply Forall_nil; reflexivity. }
  { rewrite Hplen. reflexivity. }
  { rewrite Hcount, Hranges. reflexivity. }
  { lia. }
  destruct (unrecognized_difficulty_falls_back float_of_numeral run_files run_metadata)
    as (_ & Hrun & _); [discriminate|].
  eexists. split.
  - apply (Hrun laser_lines laser position_lines position obstacle);
      [reflexivity | exact Hlaser | reflexivity | exact Hposition | exact Hobstacle].
  - cbn [metadata laser_data position_data obstacle_data].
    split; [reflexivity|]. split; [reflexivity|]. split; [exact Hplen|].
    destruct (get_obstacle_data_length _ _ _ Hobstacle) as (_ & Hlen & _).
    rewrite Hlen; [reflexivity | lia].
Defined.

(** ** Runs of the position extractor and of unequal tables *)

Lemma hypot_3_4 : hypot (Fin 3) (Fin 4) = Fin 5.
Proof.
  unfold hypot, fsquare. cbn [fmul fadd fsqrt round exact].
  destruct (Rlt_dec (3 * 3 + 4 * 4) 0) as [H|_]; [lra|].
  f_equal. replace (3 * 3 + 4 * 4)%R with (5 * 5)%R by lra.
  apply sqrt_square. lra.
Qed.


Lemma one_pose_run : exists out, get_obstacle_data one_pose far_scans = Ok out.
Proof. unfold far_scans, scan. run_projector. eexists. reflexivity. Qed.

(** C5, three runs: two scans against three position samples raise
    [ValueError]; no scan against two position samples raises [KeyError];
    two scans against one position sample give two rows, not one. *)
Lemma obstacle_rows_of_unequal_tables_witness :
  get_obstacle_data three_poses far_scans = Raise ValueError /\
  get_obstacle_data two_poses [] = Raise KeyError /\
  exists out, get_obstacle_data one_pose far_scans = Ok out /\ length out = 2.
Proof.
  split; [|split].
  - apply (proj1 (obstacle_rows_of_unequal_tables three_poses far_scans));
      cbn [length far_scans three_poses]; lia.
  - apply (proj1 (obstacle_rows_of_unequal_tables two_poses []));
      cbn [length two_poses]; lia.
  - destruct one_pose_run as (out & Hrun). exists out. split; [exact Hrun|].
    destruct (obstacle_rows_of_unequal_tables one_pose far_scans) as (_ & Hok).
    destruct (Hok out Hrun) as (_ & Hlen & _).
    apply Hlen. cbn [length one_pose]. lia.
Defined.

End AssemblerRuns.

(** The tables of one log: each extractor returns two rows or more, so two
    extracted tables of different lengths are never paired. *)
Lemma extracted_tables_mismatch {A : arithmetic} (to_float : String.string -> float)
    (laser_lines position_lines : list line) (target : R * R)
    (laser : list Laser.row) (position : list Position.row) :
  get_laser_data to_float laser_lines = Ok laser ->
  get_position_data to_float position_lines target = Ok position ->
  length laser <> length position ->
  get_obstacle_data position laser = Raise ValueError.
Proof.
  intros Hl Hp Hdiff.
  destruct (get_laser_data_length _ _ _ Hl) as (_ & Hl2).
  destruct (get_position_data_columns _ _ _ _ Hp) as (_ & Hp2 & _).
  apply get_obstacle_data_mismatch; try lia.
  destruct laser; [simpl in Hl2; lia | discriminate].
Qed.

(** * Further properties of the extractors *)

Lemma mapM_Raise (A B : Type) (f : A -> result B) (l : list A) (e : exn) :
  (forall x e', In x l -> f x = Raise e' -> e' = e) ->
  Exists (fun x => exists e', f x = Raise e') l ->
  mapM f l = Raise e.
Proof.
  induction l as [|x l IH]; intros Honly Hex; [inversion Hex|].
  cbn [mapM]. destruct (f x) as [y|e'] eqn:Hx; cbn [bind].
  - rewrite IH; [reflexivity | |].
    + intros z e' Hz. apply Honly. right. exact Hz.
    + inversion Hex as [z l' (e' & He') | z l' Hl']; subst; [congruence | exact Hl'].
  - f_equal. apply (Honly x); [left; reflexivity | exact Hx].
Qed.

Lemma genfromtxt_Raise (to_float : String.string -> float) (lines : list line)
    (usecols : list nat) :
  Exists (fun l => Exists (fun c => length l <= c) usecols) (data_lines lines) ->
  genfromtxt to_float lines usecols = Raise ValueError.
Proof.
  intros H. unfold genfromtxt. rewrite (mapM_Raise _ _ _ _ ValueError); [reflexivity | |].
  - intros l e' _. destruct (select_cols usecols l); congruence.
  - eapply Exists_impl; [|exact H]. cbn beta. intros l Hl.
    rewrite (select_cols_None _ _ _ Hl). eauto.
Qed.

Lemma genfromtxt_squeeze (to_float : String.string -> float) (lines : list line)
    (usecols : list nat) :
  Forall (fun l => Forall (fun c => c < length l) usecols) (data_lines lines) ->
  genfromtxt to_float lines usecols
  = Ok (squeeze (map (readings_of to_float usecols) (data_lines lines))).
Proof. intros H. apply genfromtxt_Ok. split; [exact H | reflexivity]. Qed.

Lemma rows2d_squeeze_short (rows : list (list float)) :
  length rows < 2 -> rows2d (squeeze rows) = Raise IndexError.
Proof.
  destruct rows as [|r [|r' rows]]; cbn [length]; intros H; try reflexivity. lia.
Qed.

Lemma laser_row_Raise (mri : list float * (list float * list float)) (e : exn) :
  laser_row mri = Raise e -> e = ValueError.
Proof.
  destruct mri as [m [r i]]. unfold laser_row.
  destruct m as [|t [|sid [|lo [|hi [|res [|mr [|cnt [|]]]]]]]]; try congruence.
  destruct sid, cnt; cbn [to_int64 bind]; congruence.
Qed.

Section ExtractorOutcomes.

Variable to_float : String.string -> float.


End ExtractorOutcomes.


(** ** The columns an extractor does not read *)

Lemma select_cols_agree (A : Type) (usecols : list nat) (l l' : list A) :
  (forall c, In c usecols -> nth_error l c = nth_error l' c) ->
  select_cols usecols l = select_cols usecols l'.
Proof.
  induction usecols as [|c cs IH]; intros H; [reflexivity|].
  cbn [select_cols]. rewrite (H c) by (left; reflexivity).
  rewrite IH; [reflexivity|]. intros c' Hc'. apply H. right. exact Hc'.
Qed.

Lemma genfromtxt_agree (to_float : String.string -> float) (usecols : list nat)
    (data data' : list line) :
  Forall2 (fun l l' => forall c, In c usecols -> nth_error l c = nth_error l' c)
          (data_lines data) (data_lines data') ->
  genfromtxt to_float data usecols = genfromtxt to_float data' usecols.
Proof.
  intros Hall. unfold genfromtxt. f_equal.
  induction Hall as [|l l' rows rows' Hl _ IH]; [reflexivity|].
  cbn [mapM]. rewrite (select_cols_agree _ _ _ _ Hl), IH. reflexivity.
Qed.

(** X2.  The extractors read the columns they select and nothing else.
    Take the data lines of two laser streams as [np.genfromtxt] reads them,
    cut at their comment marks and the blank ones left out: when they agree
    on column 0 and on columns 7 to 734 (token for token, present or
    absent), the two streams give the same laser table or the same
    exception, whatever their other columns and their header lines hold;
    and so do two position streams that agree on columns 0 and 7 to 12. *)
Theorem extractors_read_only_their_columns {A : arithmetic} (to_float : String.string -> float)
    (header header' : line) (data data' : list line) (target : R * R) :
  (Forall2 (fun l l' => forall c, In c laser_usecols -> nth_error l c = nth_error l' c)
           (data_lines data) (data_lines data') ->
   get_laser_data to_float (header :: data) = get_laser_data to_float (header' :: data')) /\
  (Forall2 (fun l l' => forall c, In c position_usecols ->
                                  nth_error l c = nth_error l' c)
           (data_lines data) (data_lines data') ->
   get_position_data to_float (header :: data) target
   = get_position_data to_float (header' :: data') target).
Proof.
  split; intros H.
  - unfold get_laser_data.
    rewrite (genfromtxt_agree to_float laser_usecols data data' H). reflexivity.
  - unfold get_position_data.
    rewrite (genfromtxt_agree to_float position_usecols data data' H). reflexivity.
Qed.

(** X2, a run: the interface name in the fourth column of a scan line does
    not change the table. *)
Lemma extractors_read_only_their_columns_witness :
  get_laser_data float_of_numeral [laser_header; scan_line_8; scan_line_8]
  = get_laser_data float_of_numeral
      [position_header; scan_line_8_tagged; scan_line_8_tagged].
Proof.
  assert (Hline : forall c, In c laser_usecols ->
                            nth_error scan_line_8 c = nth_error scan_line_8_tagged c).
  { intros c Hc. unfold scan_line_8, scan_line_8_tagged.
    rewrite !nth_error_map.
    assert (Hc3 : c <> 3 /\ c < 735).
    { destruct Hc as [<-|Hc]; [split; [discriminate | lia]|]. apply in_seq in Hc. lia. }
    destruct Hc3 as [Hc3 Hlt].
    rewrite (nth_error_nth' _ 0) by (rewrite length_seq; exact Hlt).
    rewrite seq_nth by exact Hlt. cbn [option_map Nat.add].
    apply Nat.eqb_neq in Hc3. rewrite Hc3. reflexivity. }
  assert (Hrows : data_lines [scan_line_8; scan_line_8] = [scan_line_8; scan_line_8])
    by reflexivity.
  assert (Hrows' : data_lines [scan_line_8_tagged; scan_line_8_tagged]
                   = [scan_line_8_tagged; scan_line_8_tagged]) by reflexivity.
  apply (extractors_read_only_their_columns (A := exact) float_of_numeral laser_header
           position_header [scan_line_8; scan_line_8]
           [scan_line_8_tagged; scan_line_8_tagged] (0, 0)%R).
  rewrite Hrows, Hrows'. repeat constructor; exact Hline.
Defined.

(** ** The position table, row by row *)

Lemma position_row_Raise (cols : list float * (float * (quotient * float))) (e : exn) :
  position_row cols = Raise e -> e = ValueError.
Proof.
  destruct cols as [r [s [acc d]]]. unfold position_row.
  destruct r as [|t [|x [|y [|h [|vx [|vy [|va [|]]]]]]]]; congruence.
Qed.

Lemma nth_error_column (k i : nat) (readings : list (list float)) (r : list float) :
  nth_error readings i = Some r ->
  nth_error (column k readings) i = Some (nth k r NaN).
Proof.
  intros H. unfold column.
  apply (map_nth_error (fun r0 : list float => nth k r0 NaN)). exact H.
Qed.

Lemma hypot_number {A : arithmetic} (x y : R) :
  exists s, hypot (Fin x) (Fin y) = Fin s /\ (0 <= s)%R.
Proof.
  unfold hypot, fsquare. cbn [fmul fadd fsqrt].
  assert (Hsum : (0 <= round (round (x * x) + round (y * y)))%R).
  { apply round_nonneg.
    pose proof (round_nonneg (x * x) ltac:(nra)).
    pose proof (round_nonneg (y * y) ltac:(nra)). lra. }
  destruct (Rlt_dec (round (round (x * x) + round (y * y))) 0) as [H|_]; [lra|].
  eexists. split; [reflexivity | apply round_nonneg, sqrt_pos].
Qed.

Lemma hypot_NaN {A : arithmetic} (a b : float) : hypot a b = NaN <-> a = NaN \/ b = NaN.
Proof.
  destruct a as [|x], b as [|y]; split; intros H; try reflexivity; auto.
  - destruct (hypot_number x y) as (s & Hs & _). congruence.
  - destruct H; discriminate.
Qed.

Lemma fsub_NaN {A : arithmetic} (a : float) (t : R) : fsub a (Fin t) = NaN <-> a = NaN.
Proof. destruct a; cbn; split; intros H; congruence. Qed.

Section PositionRows.

Context {A : arithmetic}.

Variable to_float : String.string -> float.

(** One row of the position table against the line it is read from. *)
Lemma get_position_data_row (lines : list line) (target : R * R)
    (table : list Position.row) (i : nat) (l : line) (row : Position.row) :
  get_position_data to_float lines target = Ok table ->
  nth_error (data_lines (tl lines)) i = Some l ->
  nth_error table i = Some row ->
  Position.time row = token_float to_float l 0 /\
  Position.px row = token_float to_float l 7 /\
  Position.py row = token_float to_float l 8 /\
  Position.pa row = token_float to_float l 9 /\
  Position.vx row = token_float to_float l 10 /\
  Position.vy row = token_float to_float l 11 /\
  Position.va row = token_float to_float l 12 /\
  Position.scalar_speed row = hypot (Position.vx row) (Position.vy row) /\
  Position.distance_to_target row
  = hypot (fsub (Position.px row) (Fin (fst target)))
          (fsub (Position.py row) (Fin (snd target))).
Proof.
  intros H Hl Hrow. destruct lines as [|header data]; [discriminate|].
  apply get_position_data_Ok in H. destruct H as (_ & _ & ->). cbn [tl] in Hl.
  apply nth_error_map_inv in Hrow. destruct Hrow as ([r [s [acc d]]] & Hc & <-).
  apply nth_error_combine in Hc. destruct Hc as [Hr Hc].
  apply nth_error_combine in Hc. destruct Hc as [Hs Hc].
  apply nth_error_combine in Hc. destruct Hc as [_ Hd].
  pose proof (map_nth_error (readings_of to_float position_usecols) _ _ Hl) as Hr'.
  assert (Hs' := nth_error_map2 _ _ _ hypot _ _ i _ _
                   (nth_error_column 4 _ _ _ Hr') (nth_error_column 5 _ _ _ Hr')).
  assert (Hd' := nth_error_map2 _ _ _
                   (fun x y => hypot (fsub x (Fin (fst target)))
                                     (fsub y (Fin (snd target)))) _ _ i _ _
                   (nth_error_column 1 _ _ _ Hr') (nth_error_column 2 _ _ _ Hr')).
  fold (speeds (map (readings_of to_float position_usecols) (data_lines data)))
    in Hs'.
  fold (distances target
          (map (readings_of to_float position_usecols) (data_lines data))) in Hd'.
  rewrite Hr' in Hr. injection Hr as <-.
  rewrite Hs' in Hs. injection Hs as <-.
  rewrite Hd' in Hd. injection Hd as <-.
  cbn [position_row_of Position.time Position.px Position.py Position.pa Position.vx
       Position.vy Position.va Position.scalar_speed Position.distance_to_target].
  repeat split; reflexivity.
Qed.

(** X3.  The outcomes of [get_position_data], case by case, on the data
    lines as [np.genfromtxt] reads them (the lines after the header, cut at
    their comment marks, the blank ones left out): an empty stream raises
    [StopIteration]; a data line with fewer than 13 columns raises
    [ValueError]; fewer than two data lines raise [IndexError], a single
    sample included; otherwise the table is built, one row per data line,
    whatever the tokens hold. *)
Theorem position_outcomes (lines : list line) (target : R * R) :
  let rows := data_lines (tl lines) in
  (lines = [] -> get_position_data to_float lines target = Raise StopIteration) /\
  (lines <> [] -> Exists (fun l => length l < 13) rows ->
   get_position_data to_float lines target = Raise ValueError) /\
  (lines <> [] -> Forall (fun l => 13 <= length l) rows -> length rows < 2 ->
   get_position_data to_float lines target = Raise IndexError) /\
  (lines <> [] -> Forall (fun l => 13 <= length l) rows -> 2 <= length rows ->
   exists table,
     get_position_data to_float lines target = Ok table /\
     length table = length rows).
Proof.
  intros rows. split; [intros ->; reflexivity|]. split; [|split].
  - intros Hne Hshort. destruct lines as [|header data]; [congruence|].
    unfold get_position_data. cbn [tl] in rows.
    rewrite genfromtxt_Raise; [reflexivity|].
    eapply Exists_impl; [|exact Hshort]. cbn beta. intros l Hl.
    apply Exists_exists. exists 12. split; [|lia].
    unfold position_usecols. cbn [In]. tauto.
  - intros Hne Hlong Hfew. destruct lines as [|header data]; [congruence|].
    unfold get_position_data. cbn [tl] in *.
    rewrite genfromtxt_squeeze.
    + cbn [bind]. rewrite rows2d_squeeze_short by (rewrite length_map; exact Hfew).
      reflexivity.
    + eapply Forall_impl; [|exact Hlong]. cbn beta. intros l Hl.
      apply position_usecols_bound. exact Hl.
  - intros Hne Hlong Hmany. destruct lines as [|header data]; [congruence|].
    cbn [tl] in *. eexists. split.
    + apply get_position_data_Ok. split; [exact Hmany|]. split; [exact Hlong|].
      reflexivity.
    + rewrite !length_map, !length_combine, !length_map.
      unfold accelerations, distances, speeds, column.
      cbn [length]. rewrite !length_map2, !length_diff, !length_map2, !length_map.
      fold rows. lia.
Qed.

(** X4.  Every row of the position table holds the numbers of its data
    line, the lines after the header taken as [np.genfromtxt] reads them
    (cut at their comment marks, the blank ones left out): [time] is
    column 0 and [px], [py], [pa], [vx], [vy], [va] are columns 7 to 12;
    [scalar_speed] is [sqrt(vx^2 + vy^2)] of the same row and
    [distance_to_target] is the distance from ([px], [py]) to the
    target. *)
Theorem position_columns (lines : list line) (target : R * R)
    (table : list Position.row) :
  get_position_data to_float lines target = Ok table ->
  forall i l row,
    nth_error (data_lines (tl lines)) i = Some l ->
    nth_error table i = Some row ->
    Position.time row = token_float to_float l 0 /\
    Position.px row = token_float to_float l 7 /\
    Position.py row = token_float to_float l 8 /\
    Position.pa row = token_float to_float l 9 /\
    Position.vx row = token_float to_float l 10 /\
    Position.vy row = token_float to_float l 11 /\
    Position.va row = token_float to_float l 12 /\
    Position.scalar_speed row = hypot (Position.vx row) (Position.vy row) /\
    Position.distance_to_target row
    = hypot (fsub (Position.px row) (Fin (fst target)))
            (fsub (Position.py row) (Fin (snd target))).
Proof. intros H i l row. apply get_position_data_row. exact H. Qed.

Lemma get_position_data_row_of (lines : list line) (target : R * R)
    (table : list Position.row) (i : nat) (row : Position.row) :
  get_position_data to_float lines target = Ok table ->
  nth_error table i = Some row ->
  exists l, nth_error (data_lines (tl lines)) i = Some l.
Proof.
  intros H Hrow. destruct (get_position_data_columns _ _ _ _ H) as (Hlen & _).
  destruct (nth_error (data_lines (tl lines)) i) as [l|] eqn:E; [eauto|].
  apply nth_error_None in E. rewrite <- Hlen in E.
  apply nth_error_None in E. congruence.
Qed.

(** X5.  In every row of the position table, [scalar_speed] is unknown
    exactly when [vx] or [vy] is, and is otherwise a number that is not
    negative; [distance_to_target] is unknown exactly when [px] or [py] is,
    is otherwise a number that is not negative, and is exactly 0 for a
    sample at the target. *)
Theorem speed_and_distance_not_negative (lines : list line) (target : R * R)
    (table : list Position.row) :
  get_position_data to_float lines target = Ok table ->
  forall row, In row table ->
    (Position.scalar_speed row = NaN <->
     Position.vx row = NaN \/ Position.vy row = NaN) /\
    (forall s, Position.scalar_speed row = Fin s -> (0 <= s)%R) /\
    (Position.distance_to_target row = NaN <->
     Position.px row = NaN \/ Position.py row = NaN) /\
    (forall d, Position.distance_to_target row = Fin d -> (0 <= d)%R) /\
    (Position.px row = Fin (fst target) -> Position.py row = Fin (snd target) ->
     Position.distance_to_target row = Fin 0).
Proof.
  intros H row Hin. apply In_nth_error in Hin. destruct Hin as (i & Hrow).
  destruct (get_position_data_row_of _ _ _ _ _ H Hrow) as (l & Hl).
  destruct (get_position_data_row _ _ _ _ _ _ H Hl Hrow)
    as (_ & _ & _ & _ & _ & _ & _ & Hs & Hd).
  rewrite Hs, Hd. split; [apply hypot_NaN|]. split; [|split; [|split]].
  - intros s Hs'. destruct (Position.vx row) as [|x], (Position.vy row) as [|y];
      try discriminate.
    destruct (hypot_number x y) as (s' & Heq & Hpos). congruence.
  - rewrite hypot_NaN, !fsub_NaN. reflexivity.
  - intros d Hd'. destruct (Position.px row) as [|x], (Position.py row) as [|y];
      try discriminate.
    cbn [fsub] in Hd'.
    destruct (hypot_number (round (x - fst target)) (round (y - snd target)))
      as (s' & Heq & Hpos).
    congruence.
  - intros -> ->. cbn [fsub].
    replace (fst target - fst target)%R with 0%R by ring.
    replace (snd target - snd target)%R with 0%R by ring.
    rewrite round_0. apply hypot_0_0.
Qed.

(** X6.  The target position only enters the [distance_to_target] column:
    with another target, [get_position_data] returns for the same streams,
    and the two tables have the same rows but for that column. *)
Theorem target_changes_only_distance (lines : list line) (target target' : R * R)
    (table : list Position.row) :
  get_position_data to_float lines target = Ok table ->
  exists table',
    get_position_data to_float lines target' = Ok table' /\
    length table' = length table /\
    forall i row row',
      nth_error table i = Some row -> nth_error table' i = Some row' ->
      Position.time row' = Position.time row /\
      Position.px row' = Position.px row /\ Position.py row' = Position.py row /\
      Position.pa row' = Position.pa row /\ Position.vx row' = Position.vx row /\
      Position.vy row' = Position.vy row /\ Position.va row' = Position.va row /\
      Position.scalar_speed row' = Position.scalar_speed row /\
      Position.a row' = Position.a row.
Proof.
  intros H.
  assert (H' : exists table', get_position_data to_float lines target' = Ok table').
  { destruct lines as [|header data]; [discriminate|].
    apply get_position_data_Ok in H. destruct H as (Hn & Hlen & _).
    eexists. apply get_position_data_Ok. split; [exact Hn|].
    split; [exact Hlen | reflexivity]. }
  destruct H' as (table' & H'). exists table'. split; [exact H'|].
  destruct (get_position_data_columns _ _ _ _ H) as (Hlen & _ & Ha & _).
  destruct (get_position_data_columns _ _ _ _ H') as (Hlen' & _ & Ha' & _).
  split; [congruence|].
  assert (Hfields : forall i row row',
             nth_error table i = Some row -> nth_error table' i = Some row' ->
             Position.time row' = Position.time row /\
             Position.px row' = Position.px row /\ Position.py row' = Position.py row /\
             Position.pa row' = Position.pa row /\ Position.vx row' = Position.vx row /\
             Position.vy row' = Position.vy row /\ Position.va row' = Position.va row /\
             Position.scalar_speed row' = Position.scalar_speed row).
  { intros i row row' Hrow Hrow'.
    destruct (get_position_data_row_of _ _ _ _ _ H Hrow) as (l & Hl).
    destruct (get_position_data_row _ _ _ _ _ _ H Hl Hrow)
      as (Ht & Hx & Hy & Hh & Hvx & Hvy & Hva & Hs & _).
    destruct (get_position_data_row _ _ _ _ _ _ H' Hl Hrow')
      as (Ht' & Hx' & Hy' & Hh' & Hvx' & Hvy' & Hva' & Hs' & _).
    rewrite Hs, Hs'. repeat split; congruence. }
  assert (Hcol : forall (f : Position.row -> float),
             (forall i row row', nth_error table i = Some row ->
                                 nth_error table' i = Some row' -> f row' = f row) ->
             map f table' = map f table).
  { intros f Hf. apply nth_error_ext. intros i. rewrite !nth_error_map.
    destruct (nth_error table i) as [row|] eqn:Hrow,
             (nth_error table' i) as [row'|] eqn:Hrow'; cbn [option_map].
    - f_equal. apply (Hf i); assumption.
    - apply nth_error_None in Hrow'. assert (i < length table)
        by (apply nth_error_Some; congruence). lia.
    - apply nth_error_None in Hrow. assert (i < length table')
        by (apply nth_error_Some; congruence). lia.
    - reflexivity. }
  intros i row row' Hrow Hrow'.
  destruct (Hfields i row row' Hrow Hrow') as (Ht & Hx & Hy & Hh & Hvx & Hvy & Hva & Hs).
  repeat (split; [assumption|]).
  assert (Hacc : map Position.a table' = map Position.a table).
  { rewrite Ha, Ha'.
    rewrite (Hcol Position.scalar_speed), (Hcol Position.time); [reflexivity | |];
      intros j r r' Hr Hr'; apply (Hfields j r r' Hr Hr'). }
  pose proof (map_nth_error Position.a _ _ Hrow) as E.
  pose proof (map_nth_error Position.a _ _ Hrow') as E'.
  rewrite Hacc in E'. congruence.
Qed.

End PositionRows.

(** ** The position extractor on the example stream *)

Lemma position_stream_run {A : arithmetic} (target : R * R) :
  exists first second,
    get_position_data float_of_numeral position_stream target = Ok [first; second].
Proof.
  pose proof (get_position_data_table float_of_numeral position_header
                [position_line "0" "3" "4"; position_line "2" "0" "0"] target
                eq_refl) as Hrun.
  cbv zeta in Hrun.
  specialize (Hrun ltac:(cbn [length]; lia)
                   ltac:(repeat apply Forall_cons; try apply Forall_nil;
                         cbn [length position_line]; lia)).
  eexists. eexists. exact Hrun.
Qed.

Section PositionRuns.

(** The examples are run without rounding. *)
#[local] Existing Instance exact.

(** X3, a run: a log with a single position sample cannot be read. *)
Lemma position_outcomes_witness :
  get_position_data float_of_numeral [position_header; position_line "0" "3" "4"]
    (-1, 6)%R = Raise IndexError.
Proof.
  destruct (position_outcomes float_of_numeral
              [position_header; position_line "0" "3" "4"] (-1, 6)%R)
    as (_ & _ & Hfew & _).
  assert (Hrows : data_lines (tl [position_header; position_line "0" "3" "4"])
                  = [position_line "0" "3" "4"]) by reflexivity.
  apply Hfew; [discriminate | rewrite Hrows | rewrite Hrows; cbn [length]; lia].
  apply Forall_cons; [cbn [length position_line]; lia | apply Forall_nil].
Defined.

(** X4, a run: the first sample of the example stream. *)
Lemma position_columns_witness :
  exists first second,
    get_position_data float_of_numeral position_stream (-1, 6)%R = Ok [first; second] /\
    Position.time second = Fin 2 /\ Position.vx first = Fin 3 /\
    Position.vy first = Fin 4.
Proof.
  destruct (position_stream_run (-1, 6)%R) as (first & second & Hrun).
  exists first, second. split; [exact Hrun|].
  destruct (position_columns float_of_numeral _ _ _ Hrun 0
              (position_line "0" "3" "4") first eq_refl eq_refl)
    as (_ & _ & _ & _ & Hvx & Hvy & _).
  destruct (position_columns float_of_numeral _ _ _ Hrun 1
              (position_line "2" "0" "0") second eq_refl eq_refl)
    as (Ht & _).
  split; [rewrite Ht; reflexivity|].
  split; [rewrite Hvx; reflexivity | rewrite Hvy; reflexivity].
Defined.

(** X5, a run on the example stream. *)
Lemma speed_and_distance_not_negative_witness :
  exists table,
    get_position_data float_of_numeral position_stream (-1, 6)%R = Ok table /\
    forall row, In row table ->
      forall s, Position.scalar_speed row = Fin s -> (0 <= s)%R.
Proof.
  destruct (position_stream_run (-1, 6)%R) as (first & second & Hrun).
  exists [first; second]. split; [exact Hrun|].
  intros row Hin.
  apply (speed_and_distance_not_negative float_of_numeral _ _ _ Hrun row Hin).
Defined.

(** X6, a run: the example stream under the two targets of the assembler. *)
Lemma target_changes_only_distance_witness :
  exists table table',
    get_position_data float_of_numeral position_stream (-1, 6)%R = Ok table /\
    get_position_data float_of_numeral position_stream (-8, -7.5)%R = Ok table' /\
    length table' = length table.
Proof.
  destruct (position_stream_run (-1, 6)%R) as (first & second & Hrun).
  destruct (target_changes_only_distance float_of_numeral position_stream
              (-1, 6)%R (-8, -7.5)%R _ Hrun) as (table' & Hrun' & Hlen & _).
  exists [first; second], table'. auto.
Defined.

End PositionRuns.

(** * Further properties of the line filter and of the projector *)

Lemma filter_disjoint_length (A : Type) (p q : A -> bool) (l : list A) :
  (forall x, p x = true -> q x = false) ->
  length (filter p l) + length (filter q l) <= length l.
Proof.
  intros H. induction l as [|x l IH]; [reflexivity|]. cbn [filter].
  destruct (p x) eqn:Hp; [rewrite (H x Hp)|destruct (q x)]; cbn [length]; lia.
Qed.



(** ** When the projector returns and what it raises *)

Lemma get_obstacle_data_Raise {A : arithmetic} (position_data : list Position.row)
    (laser_data : list Laser.row) (e : exn) :
  get_obstacle_data position_data laser_data = Raise e ->
  (laser_data = [] /\ e = KeyError) \/ (laser_data <> [] /\ e = ValueError).
Proof.
  unfold get_obstacle_data. destruct laser_data as [|first rest].
  { intros H. left. split; congruence. }
  intros H. right. split; [discriminate|].
  remember (first :: rest) as laser_data eqn:Hld.
  repeat match type of H with
         | bind ?c _ = Raise _ =>
             let v := fresh "v" in
             let E := fresh "E" in
             destruct c as [v|?e'] eqn:E; cbn [bind] in H;
             [| first [ apply linspace_Raise in E
                      | apply repeat_reshape_Raise in E
                      | apply broadcast_Raise_ValueError in E
                      | apply stack_Raise in E
                      | idtac ]; try congruence ]
         | (let '(x, y) := ?p in _) = Raise _ => destruct p
         end.
  - discriminate.
  - unfold polar_to_cartesian in E3.
    destruct (broadcast fmul v2 (mmap fcos v1)) eqn:Ex; cbn [bind] in E3.
    + destruct (broadcast fmul v2 (mmap fsin v1)) eqn:Ey; cbn [bind] in E3;
        [discriminate|].
      apply broadcast_Raise_ValueError in Ey. congruence.
    + apply broadcast_Raise_ValueError in Ex. congruence.
Qed.

(** X8.  The outcomes of [get_obstacle_data].  On a laser table without
    rows it raises [KeyError]; every other exception it raises is a
    [ValueError]; and it returns exactly when the first scan counts at
    least one beam, all the scans hold the same number of ranges, not zero,
    that number is the count of the first scan unless one of the two is 1,
    and the two tables have the same number of rows unless one of them has
    exactly one row. *)
Theorem obstacle_outcomes {A : arithmetic} (position_data : list Position.row)
    (laser_data : list Laser.row) :
  (laser_data = [] -> get_obstacle_data position_data laser_data = Raise KeyError) /\
  (forall e, get_obstacle_data position_data laser_data = Raise e ->
             laser_data <> [] -> e = ValueError) /\
  ((exists out, get_obstacle_data position_data laser_data = Ok out) <->
   exists first,
     hd_error laser_data = Some first /\
     (0 < Laser.count first)%Z /\
     length (Laser.ranges first) <> 0 /\
     Forall (fun lrow => length (Laser.ranges lrow) = length (Laser.ranges first))
            laser_data /\
     (length (Laser.ranges first) = Z.to_nat (Laser.count first) \/
      length (Laser.ranges first) = 1 \/ Z.to_nat (Laser.count first) = 1) /\
     (length laser_data = length position_data \/ length laser_data = 1 \/
      length position_data = 1)).
Proof.
  split; [intros ->; reflexivity|]. split.
  - intros e H Hne. apply get_obstacle_data_Raise in H.
    destruct H as [[H _]|[_ H]]; [contradiction | exact H].
  - split.
    + intros (out & H). apply get_obstacle_data_Ok in H.
      destruct H as (first & angles & nr & nc & Hfirst & Hlin & Hlen & Hdr & Hdc
                     & Hnc & _).
      apply linspace_Ok in Hlin. destruct Hlin as (Hpos & Hc & _).
      rewrite Hc in Hdc. apply broadcast_dim_Ok in Hdr, Hdc.
      exists first. split; [exact Hfirst|].
      assert (Hcount : (0 < Laser.count first)%Z).
      { destruct (Z.eq_dec (Laser.count first) 0) as [E|E]; [|lia].
        rewrite E in Hdc. cbn in Hdc. lia. }
      split; [exact Hcount|]. split; [lia|]. split; [exact Hlen|].
      split; lia.
    + intros (first & Hfirst & Hcount & Hn & Hlen & Hcols & Hrows).
      assert (Hdr : exists nr, broadcast_dim (length laser_data) (length position_data)
                               = Ok nr).
      { destruct (broadcast_dim (length laser_data) (length position_data))
          as [nr|e] eqn:E; [eauto|].
        exfalso. unfold broadcast_dim in E.
        destruct (Nat.eqb_spec (length laser_data) (length position_data));
          [discriminate|].
        destruct (Nat.eqb_spec (length laser_data) 1); [discriminate|].
        destruct (Nat.eqb_spec (length position_data) 1); [discriminate|]. lia. }
      assert (Hdc : exists nc, broadcast_dim (length (Laser.ranges first))
                                 (Z.to_nat (Laser.count first)) = Ok nc /\ nc <> 0).
      { destruct (broadcast_dim (length (Laser.ranges first))
                    (Z.to_nat (Laser.count first))) as [nc|e] eqn:E.
        - exists nc. split; [reflexivity|]. apply broadcast_dim_Ok in E. lia.
        - exfalso. unfold broadcast_dim in E.
          destruct (Nat.eqb_spec (length (Laser.ranges first))
                      (Z.to_nat (Laser.count first))); [discriminate|].
          destruct (Nat.eqb_spec (length (Laser.ranges first)) 1); [discriminate|].
          destruct (Nat.eqb_spec (Z.to_nat (Laser.count first)) 1); [discriminate|].
          lia. }
      destruct Hdr as (nr & Hdr). destruct Hdc as (nc & Hdc & Hnc).
      apply (get_obstacle_data_total position_data laser_data first nr nc);
        assumption.
Qed.

Section OutcomeRuns.

(** The examples are run without rounding. *)
#[local] Existing Instance exact.

(** X8, a run: two scans of two ranges against two position samples. *)
Lemma obstacle_outcomes_witness :
  exists out, get_obstacle_data two_poses far_scans = Ok out.
Proof.
  destruct (obstacle_outcomes two_poses far_scans) as (_ & _ & _ & Hret).
  apply Hret. eexists. split; [reflexivity|].
  cbn [far_scans scan Laser.count Laser.ranges length two_poses].
  split; [lia|]. split; [lia|].
  split; [repeat constructor|]. split; [left; reflexivity | left; reflexivity].
Defined.

End OutcomeRuns.

(** ** The angles of the beams *)

Lemma set_last_nth (y : list float) (v : float) (j : nat) :
  j < length y ->
  nth j (set_last y v) NaN = if j =? length y - 1 then v else nth j y NaN.
Proof.
  intros Hj. destruct y as [|a y]; [cbn in Hj; lia|]. unfold set_last.
  rewrite (removelast_firstn_len (a :: y)).
  set (n := length (a :: y)) in *.
  assert (Hlen : length (firstn (pred n) (a :: y)) = n - 1).
  { rewrite length_firstn. fold n. lia. }
  destruct (Nat.eqb_spec j (n - 1)) as [->|Hne].
  - rewrite <- Hlen at 1. apply nth_middle.
  - rewrite app_nth1 by lia. rewrite nth_firstn.
    destruct (Nat.ltb_spec j (pred n)); [reflexivity | lia].
Qed.

(** The samples of [np.linspace] between two numbers, two or more: the last
    is the upper bound itself, the others are [k * step + start], each
    operation rounded, or [(k / div) * delta + start] when the step has
    rounded to zero. *)
Lemma linspace_nth {A : arithmetic} (lo hi : R) (num : Z) (l : list float) (j : nat) :
  linspace (Fin lo) (Fin hi) num = Ok l ->
  (2 <= num)%Z -> j < Z.to_nat num ->
  let div := Z.to_nat num - 1 in
  let delta := fsub (Fin hi) (Fin lo) in
  let step := fdiv_count delta div in
  nth j l NaN
  = if j =? div then Fin hi
    else if is_zero step
         then fadd (fmul (fdiv_count (Fin (INR j)) div) delta) (Fin lo)
         else fadd (fmul (Fin (INR j)) step) (Fin lo).
Proof.
  unfold linspace. intros H Hnum Hj. cbv zeta.
  destruct (Z.ltb_spec num 0); [lia|].
  destruct (Nat.ltb_spec 1 (Z.to_nat num)); [|lia].
  apply (f_equal (fun r : result (list float) =>
                    match r with Ok y => y | Raise _ => [] end)) in H.
  cbv beta iota in H. rewrite <- H. clear H. set (n := Z.to_nat num) in *.
  destruct (is_zero (fdiv_count (fsub (Fin hi) (Fin lo)) (n - 1)));
    rewrite set_last_nth by (rewrite length_map, length_seq; exact Hj);
    rewrite length_map, length_seq;
    (destruct (Nat.eqb_spec j (n - 1)) as [->|Hne]; [reflexivity|]);
    rewrite nth_map_seq by exact Hj; reflexivity.
Qed.

(** X9.  The beams of every row are projected along the angles of the
    first scan: when its [min_angle] and [max_angle] are numbers and it
    counts [c] beams, two or more, beam [j] of every output row lies along
    the heading [pa] of the paired position sample plus the sample [j] of
    [np.linspace(min_angle, max_angle, c)]: [max_angle] itself for the last
    beam, and for the others [j * step + min_angle] with
    [step = (max_angle - min_angle) / (c - 1)], every operation rounded
    ([(j / (c - 1)) * (max_angle - min_angle) + min_angle] when the step
    has rounded to zero). *)
Theorem beam_angles {A : arithmetic} (position_data : list Position.row)
    (laser_data : list Laser.row) (out : list Obstacle.row) :
  get_obstacle_data position_data laser_data = Ok out ->
  forall first lo hi,
    hd_error laser_data = Some first ->
    Laser.min_angle first = Fin lo -> Laser.max_angle first = Fin hi ->
    (2 <= Laser.count first)%Z ->
    forall i row, nth_error out i = Some row ->
      length (Obstacle.obs_x row) = Z.to_nat (Laser.count first) /\
      exists lrow p,
        nth_error laser_data i = Some lrow /\
        nth_error position_data (bix (length position_data) i) = Some p /\
        forall j, j < Z.to_nat (Laser.count first) ->
          let r := nth (bix (length (Laser.ranges first)) j) (Laser.ranges lrow) NaN in
          let div := Z.to_nat (Laser.count first) - 1 in
          let delta := fsub (Fin hi) (Fin lo) in
          let step := fdiv_count delta div in
          let sample :=
            if j =? div then Fin hi
            else if is_zero step
                 then fadd (fmul (fdiv_count (Fin (INR j)) div) delta) (Fin lo)
                 else fadd (fmul (Fin (INR j)) step) (Fin lo) in
          nth j (Obstacle.obs_x row) NaN
          = fadd (Position.px p) (fmul r (fcos (fadd (Position.pa p) sample))) /\
          nth j (Obstacle.obs_y row) NaN
          = fadd (Position.py p) (fmul r (fsin (fadd (Position.pa p) sample))).
Proof.
  intros H first lo hi Hfirst Hlo Hhi Hcount i row Hrow.
  apply get_obstacle_data_Ok in H.
  destruct H as (first' & angles & nr & nc & Hfirst' & Hlin & _ & _ & Hdc & _ & _
                 & Hrows).
  rewrite Hfirst in Hfirst'. injection Hfirst' as <-.
  rewrite Hlo, Hhi in Hlin.
  pose proof (linspace_Ok _ _ _ _ Hlin) as (_ & Hc & _).
  destruct (Hrows i row Hrow) as (lrow & p & Hl & Hp & _ & _ & Hlx & _ & Hbeams).
  assert (Hnc : nc = Z.to_nat (Laser.count first)).
  { apply broadcast_dim_Ok in Hdc. rewrite Hc in Hdc. lia. }
  split; [congruence|].
  exists lrow, p. split; [exact Hl|]. split; [exact Hp|].
  intros j Hj. cbv zeta.
  destruct (Hbeams j ltac:(lia)) as [Hx Hy]. cbv zeta in Hx, Hy.
  rewrite Hc in Hx, Hy.
  rewrite (bix_lt _ j Hj) in Hx, Hy.
  pose proof (linspace_nth _ _ _ _ j Hlin Hcount Hj) as Hsample. cbv zeta in Hsample.
  rewrite Hsample in Hx, Hy.
  split; assumption.
Qed.

Section BeamRuns.

(** The examples are run without rounding. *)
#[local] Existing Instance exact.

Lemma three_beams_run :
  exists row, get_obstacle_data one_pose three_beams = Ok [row].
Proof. unfold three_beams, scan. run_projector. eexists. reflexivity. Qed.

(** X9, a run: three beams over the angles 0 to 1; the last one, of range
    3, lies along the angle 1. *)
Lemma beam_angles_witness :
  exists row,
    get_obstacle_data one_pose three_beams = Ok [row] /\
    length (Obstacle.obs_x row) = 3 /\
    nth 2 (Obstacle.obs_x row) NaN = Fin (0 + 3 * cos (0 + 1)).
Proof.
  destruct three_beams_run as (row & Hrun). exists row. split; [exact Hrun|].
  destruct (beam_angles one_pose three_beams _ Hrun
              (scan 0 8 [Fin 1; Fin 2; Fin 3]) 0%R 1%R eq_refl eq_refl eq_refl
              ltac:(cbn; lia) 0 row eq_refl) as (Hlen & lrow & p & Hl & Hp & Hb).
  split; [exact Hlen|].
  injection Hl as <-. injection Hp as <-.
  destruct (Hb 2 ltac:(cbn; lia)) as [Hx _]. cbv zeta in Hx. rewrite Hx.
  reflexivity.
Defined.

End BeamRuns.

(** X10.  Every row of the obstacle table carries the time of the scan of
    the same rank, not the time of the position sample it is paired with,
    and as many [obs_x] as [obs_y] coordinates: one per range of the scan
    when the scans hold more than one range. *)
Theorem obstacle_rows_follow_scans {A : arithmetic} (position_data : list Position.row)
    (laser_data : list Laser.row) (out : list Obstacle.row) :
  get_obstacle_data position_data laser_data = Ok out ->
  forall i row, nth_error out i = Some row ->
    exists lrow,
      nth_error laser_data i = Some lrow /\
      Obstacle.time row = Laser.time lrow /\
      length (Obstacle.obs_y row) = length (Obstacle.obs_x row) /\
      (length (Laser.ranges lrow) <> 1 ->
       length (Obstacle.obs_x row) = length (Laser.ranges lrow)).
Proof.
  intros H i row Hrow. apply get_obstacle_data_Ok in H.
  destruct H as (first & angles & nr & nc & _ & _ & Hlen & _ & Hdc & Hnc & _ & Hrows).
  destruct (Hrows i row Hrow) as (lrow & p & Hl & _ & Ht & _ & Hlx & Hly & _).
  exists lrow. split; [exact Hl|]. split; [exact Ht|]. split; [congruence|].
  intros Hone. rewrite Forall_forall in Hlen.
  rewrite Hlx, (Hlen lrow (nth_error_In _ _ Hl)) in *.
  apply broadcast_dim_Ok in Hdc. lia.
Qed.

Section ScanTimeRuns.

(** The examples are run without rounding. *)
#[local] Existing Instance exact.

(** X10, a run: the scans of times 0 and 1 against two position samples. *)
Lemma obstacle_rows_follow_scans_witness :
  exists out row,
    get_obstacle_data two_poses far_scans = Ok out /\
    nth_error out 1 = Some row /\ Obstacle.time row = Fin 1 /\
    length (Obstacle.obs_x row) = 2.
Proof.
  destruct far_scans_run as (out & Hrun & Hlen).
  destruct out as [|row0 [|row1 out]]; try discriminate.
  exists (row0 :: row1 :: out), row1. split; [exact Hrun|]. split; [reflexivity|].
  destruct (obstacle_rows_follow_scans two_poses far_scans _ Hrun 1 row1 eq_refl)
    as (lrow & Hl & Ht & _ & Hw).
  injection Hl as <-. split; [exact Ht|]. apply Hw. cbn. lia.
Defined.

End ScanTimeRuns.

(** * Further properties of the assembler *)

Section AssemblyProperties.

Context {A : arithmetic}.

Variable to_float : String.string -> float.
Variable files : String.string -> result (list line).

(** X11.  A log that [get_log_data] assembles keeps its metadata, and its
    three tables have the same number of rows, two or more.  The first
    scan then counts 361 beams, or 1, and every obstacle row holds
    361 coordinates. *)
Theorem assembled_log_invariants (log_metadata : LogMetadata) (data : LogData) :
  get_log_data to_float files log_metadata = Ok data ->
  metadata data = log_metadata /\
  2 <= length (laser_data data) /\
  length (position_data data) = length (laser_data data) /\
  length (obstacle_data data) = length (laser_data data) /\
  (exists first,
     hd_error (laser_data data) = Some first /\
     (Laser.count first = 361%Z \/ Laser.count first = 1%Z)) /\
  forall row, In row (obstacle_data data) ->
    length (Obstacle.obs_x row) = 361 /\ length (Obstacle.obs_y row) = 361.
Proof.
  unfold get_log_data. intros H.
  bind_inv H. rename v into laser_lines, E into Hll.
  bind_inv H. rename v into laser, E into Hlaser.
  bind_inv H. rename v into position_lines, E into Hpl.
  bind_inv H. rename v into position, E into Hposition.
  bind_inv H. rename v into obstacle, E into Hobstacle.
  injection H as <-. cbn [metadata laser_data position_data obstacle_data].
  destruct (get_laser_data_length _ _ _ Hlaser) as (_ & Hl2).
  destruct (get_position_data_columns _ _ _ _ Hposition) as (_ & Hp2 & _).
  destruct (get_obstacle_data_length _ _ _ Hobstacle) as (Hsame & Hout & _).
  assert (Heq : length position = length laser) by lia.
  split; [reflexivity|]. split; [exact Hl2|]. split; [exact Heq|].
  split; [apply Hout; lia|].
  apply get_obstacle_data_Ok in Hobstacle.
  destruct Hobstacle as (first & angles & nr & nc & Hfirst & Hlin & _ & _ & Hdc & Hnc
                         & _ & Hrows).
  assert (Hn : length (Laser.ranges first) = 361).
  { destruct laser as [|first' laser]; [discriminate|]. injection Hfirst as ->.
    destruct (nth_error (data_lines (tl laser_lines)) 0) as [l|] eqn:Hl.
    - rewrite (get_laser_data_row _ _ _ 0 l first Hlaser Hl eq_refl).
      cbn [Laser.set_ranges Laser.ranges scan_of_line]. unfold mask_out_of_range.
      rewrite !length_map, length_seq. reflexivity.
    - apply nth_error_None in Hl.
      destruct (get_laser_data_length _ _ _ Hlaser) as (Hlen & _).
      cbn [length] in Hlen. lia. }
  apply linspace_Ok in Hlin. destruct Hlin as (Hpos & Hc & _).
  rewrite Hn, Hc in Hdc. apply broadcast_dim_Ok in Hdc.
  split.
  - exists first. split; [exact Hfirst|]. lia.
  - intros row Hin. apply In_nth_error in Hin. destruct Hin as (i & Hrow).
    destruct (Hrows i row Hrow) as (_ & _ & _ & _ & _ & _ & Hlx & Hly & _). lia.
Qed.

Lemma read_log_none (log_file interface : String.string) (lines : list line) :
  files log_file = Ok lines ->
  (forall l, In l lines -> nth_error l 3 <> Some interface) ->
  read_log files log_file interface = Ok [].
Proof.
  intros Hfile Hnone. unfold read_log. rewrite Hfile. cbn [bind]. f_equal.
  clear Hfile. induction lines as [|l lines IH]; [reflexivity|]. cbn [filter].
  replace ((3 <? length l) && String.eqb (nth 3 l String.EmptyString) interface)
    with false.
  - apply IH. intros l' Hl'. apply Hnone. right. exact Hl'.
  - symmetry. apply andb_false_iff.
    destruct (Nat.ltb_spec 3 (length l)) as [Hlen|Hlen]; [right | left; reflexivity].
    apply String.eqb_neq. intros E. apply (Hnone l); [left; reflexivity|].
    rewrite <- E. apply nth_error_nth'. exact Hlen.
Qed.

(** X12.  What [get_log_data] raises before the obstacle table is built: on
    a path that [open] cannot open, the exception of [open]
    ([FileNotFoundError] when nothing is there); on a log file none of
    whose lines has laser as fourth token, [StopIteration]; and
    [StopIteration] too on a log file whose laser table is built but none
    of whose lines has position2d as fourth token. *)
Theorem assembly_exceptions (log_metadata : LogMetadata) :
  (forall e,
     files (path log_metadata) = Raise e ->
     get_log_data to_float files log_metadata = Raise e) /\
  (forall lines,
     files (path log_metadata) = Ok lines ->
     (forall l, In l lines -> nth_error l 3 <> Some "laser") ->
     get_log_data to_float files log_metadata = Raise StopIteration) /\
  (forall lines laser_lines laser,
     files (path log_metadata) = Ok lines ->
     read_log files (path log_metadata) "laser" = Ok laser_lines ->
     get_laser_data to_float laser_lines = Ok laser ->
     (forall l, In l lines -> nth_error l 3 <> Some "position2d") ->
     get_log_data to_float files log_metadata = Raise StopIteration).
Proof.
  unfold get_log_data. split; [|split].
  - intros e H. unfold read_log. rewrite H. reflexivity.
  - intros lines Hfile Hnone. rewrite (read_log_none _ _ _ Hfile Hnone). reflexivity.
  - intros lines laser_lines laser Hfile H1 H2 Hnone.
    rewrite H1. cbn [bind]. rewrite H2. cbn [bind].
    rewrite (read_log_none _ _ _ Hfile Hnone). reflexivity.
Qed.

End AssemblyProperties.

(** ** The assembler on the example log *)

Lemma run_log_laser :
  get_laser_data float_of_numeral [laser_header; scan_line_run; scan_line_run]
  = Ok (map (Laser.set_ranges (mask_out_of_range (Fin 8)))
          (map (scan_of_line float_of_numeral) [scan_line_run; scan_line_run])).
Proof.
  apply get_laser_data_run; [reflexivity | cbn [length]; lia|].
  repeat apply Forall_cons; try apply Forall_nil; apply scan_line_run_ok.
Qed.

Section ExampleLogRuns.

(** The examples are run without rounding. *)
#[local] Existing Instance exact.

Lemma run_log_assembles :
  exists data, get_log_data float_of_numeral run_files run_metadata = Ok data.
Proof.
  pose proof run_log_laser as Hlaser. set (laser := map _ _) in Hlaser.
  destruct (position_stream_run (-8, -7.5)%R) as (p0 & p1 & Hposition).
  set (first := Laser.set_ranges (mask_out_of_range (Fin 8))
                  (scan_of_line float_of_numeral scan_line_run)).
  assert (Hcount : Laser.count first = 361%Z).
  { unfold first. cbn [Laser.set_ranges Laser.count scan_of_line].
    replace (token_float float_of_numeral scan_line_run 12) with (Fin 361)
      by token_value.
    apply (cast_int64_IZR 361). lia. }
  assert (Hranges : length (Laser.ranges first) = 361).
  { unfold first. cbn [Laser.set_ranges Laser.ranges scan_of_line].
    unfold mask_out_of_range. rewrite !length_map, length_seq. reflexivity. }
  destruct (get_obstacle_data_total [p0; p1] laser first 2 361) as (obstacle & Hobstacle).
  { reflexivity. }
  { rewrite Hcount. lia. }
  { unfold laser. cbn [map]. repeat apply Forall_cons; try apply Forall_nil; reflexivity. }
  { reflexivity. }
  { rewrite Hcount, Hranges. reflexivity. }
  { lia. }
  eexists. unfold get_log_data.
  change (read_log run_files (path run_metadata) "laser")
    with (Ok [laser_header; scan_line_run; scan_line_run] : result (list line)).
  cbn [bind]. rewrite Hlaser. cbn [bind].
  change (read_log run_files (path run_metadata) "position2d")
    with (Ok position_stream : result (list line)).
  cbn [bind].
  change (target_position_of run_metadata) with (-8, -7.5)%R.
  rewrite Hposition. cbn [bind]. rewrite Hobstacle. reflexivity.
Qed.

(** X11, a run: the example log. *)
Lemma assembled_log_invariants_witness :
  exists data,
    get_log_data float_of_numeral run_files run_metadata = Ok data /\
    length (position_data data) = length (laser_data data) /\
    length (obstacle_data data) = length (laser_data data).
Proof.
  destruct run_log_assembles as (data & Hrun). exists data. split; [exact Hrun|].
  destruct (assembled_log_invariants float_of_numeral run_files run_metadata data Hrun)
    as (_ & _ & Hp & Ho & _).
  split; assumption.
Defined.

(** X12, a run: the example log without its position lines. *)
Lemma assembly_exceptions_witness :
  get_log_data float_of_numeral laser_only_files run_metadata = Raise StopIteration.
Proof.
  destruct (assembly_exceptions float_of_numeral laser_only_files run_metadata)
    as (_ & _ & Hpos).
  apply (Hpos [laser_header; scan_line_run; scan_line_run]
              [laser_header; scan_line_run; scan_line_run] _ eq_refl eq_refl
              run_log_laser).
  assert (H3 : forall l, In l [laser_header; scan_line_run; scan_line_run] ->
                         nth_error l 3 = Some "laser").
  { intros l [<-|[<-|[<-|[]]]]; reflexivity. }
  intros l Hl. rewrite (H3 l Hl). discriminate.
Defined.

End ExampleLogRuns.

(** * Further properties of the grouping *)

Section GroupByProperties.

Context {T K : Type}.
Variable key_eqb : K -> K -> bool.
Variable key_function : T -> K.
Hypothesis key_eqb_eq : forall a b, key_eqb a b = true <-> a = b.

Lemma groupby_nonempty (l : list T) (k : K) (g : list T) :
  In (k, g) (groupby key_eqb key_function l) -> g <> [].
Proof.
  revert k g; induction l as [|x l IH]; intros k g Hin; [contradiction|].
  cbn [groupby] in Hin.
  destruct (groupby key_eqb key_function l) as [|[k' g'] gs].
  - destruct Hin as [Hin|[]]. injection Hin as <- <-. discriminate.
  - destruct (key_eqb (key_function x) k').
    + destruct Hin as [Hin|Hin]; [injection Hin as <- <-; discriminate|].
      apply (IH k g). right. exact Hin.
    + destruct Hin as [Hin|Hin]; [injection Hin as <- <-; discriminate|].
      apply (IH k g). exact Hin.
Qed.

(** Every element is in the run of its key. *)
Lemma groupby_keys (l : list T) (x : T) :
  In x l -> In (key_function x) (map fst (groupby key_eqb key_function l)).
Proof.
  intros Hx.
  rewrite <- (groupby_concat key_eqb key_function l) in Hx.
  apply in_concat in Hx. destruct Hx as (g & Hg & Hx).
  apply in_map_iff in Hg. destruct Hg as ([k g'] & Heq & Hin).
  cbn [snd] in Heq. subst g'.
  apply in_map_iff. exists (k, g). split; [|exact Hin].
  symmetry. apply (groupby_key key_eqb key_function key_eqb_eq l k g x Hin Hx).
Qed.

Lemma dict_set_keys (k : K) (v : list T) (d : list (K * list T)) (k' : K) :
  In k' (map fst (dict_set key_eqb k v d)) <-> k' = k \/ In k' (map fst d).
Proof.
  induction d as [|[k0 v0] d IH]; cbn [dict_set map fst In].
  - intuition congruence.
  - destruct (key_eqb k k0) eqn:E; cbn [map fst In].
    + apply key_eqb_eq in E. subst k0. intuition congruence.
    + rewrite IH. intuition congruence.
Qed.

Lemma dict_set_NoDup (k : K) (v : list T) (d : list (K * list T)) :
  NoDup (map fst d) -> NoDup (map fst (dict_set key_eqb k v d)).
Proof.
  induction d as [|[k0 v0] d IH]; cbn [dict_set map fst]; intros Hnd.
  - constructor; [intros [] | constructor].
  - inversion Hnd as [|k1 ks Hk Hnd']; subst k1 ks.
    destruct (key_eqb k k0) eqn:E; cbn [map fst].
    + constructor; assumption.
    + constructor; [|apply IH; assumption].
      rewrite dict_set_keys. intros [H|H]; [|contradiction].
      subst k0. assert (key_eqb k k = true) by (apply key_eqb_eq; reflexivity).
      congruence.
Qed.

Lemma dict_set_In (k : K) (v : list T) (d : list (K * list T)) (k' : K) (v' : list T) :
  NoDup (map fst d) ->
  (In (k', v') (dict_set key_eqb k v d)
   <-> (k' = k /\ v' = v) \/ (k' <> k /\ In (k', v') d)).
Proof.
  induction d as [|[k0 v0] d IH]; cbn [dict_set map fst In]; intros Hnd.
  - split.
    + intros [H|[]]. injection H as <- <-. left. split; reflexivity.
    + intros [[-> ->]|[_ []]]. left. reflexivity.
  - inversion Hnd as [|k1 ks Hk Hnd']; subst k1 ks.
    destruct (key_eqb k k0) eqn:E; cbn [In].
    + apply key_eqb_eq in E. subst k0. split.
      * intros [H|H].
        -- injection H as <- <-. left. split; reflexivity.
        -- right. split; [|right; exact H].
           intros ->. apply Hk. apply in_map_iff. exists (k, v'). auto.
      * intros [[-> ->]|[Hne [H|H]]].
        -- left. reflexivity.
        -- injection H as <- _. congruence.
        -- right. exact H.
    + assert (Hne : k <> k0).
      { intros ->. assert (key_eqb k0 k0 = true) by (apply key_eqb_eq; reflexivity).
        congruence. }
      rewrite (IH Hnd'). split.
      * intros [H|[H|[H1 H2]]].
        -- injection H as <- <-. right. split; [congruence | left; reflexivity].
        -- left. exact H.
        -- right. split; [exact H1 | right; exact H2].
      * intros [H|[H1 [H2|H2]]].
        -- right. left. exact H.
        -- left. exact H2.
        -- right. right. split; assumption.
Qed.

(** The sum of the sizes of the values of a dictionary. *)
Lemma dict_set_size (k : K) (v : list T) (d : list (K * list T)) :
  (~ In k (map fst d) /\
   length (concat (map snd (dict_set key_eqb k v d)))
   = length (concat (map snd d)) + length v) \/
  (exists old, In (k, old) d /\
     length (concat (map snd (dict_set key_eqb k v d))) + length old
     = length (concat (map snd d)) + length v).
Proof.
  induction d as [|[k0 v0] d IH]; cbn [dict_set map fst snd concat].
  - left. split; [intros []|]. rewrite app_nil_r. reflexivity.
  - destruct (key_eqb k k0) eqn:E.
    + apply key_eqb_eq in E. subst k0. right. exists v0.
      split; [left; reflexivity|].
      cbn [map snd concat]. rewrite !length_app. lia.
    + assert (Hne : k <> k0).
      { intros ->. assert (key_eqb k0 k0 = true) by (apply key_eqb_eq; reflexivity).
        congruence. }
      cbn [map snd concat]. rewrite !length_app.
      destruct IH as [[Hk Hlen]|(old & Hold & Hlen)].
      * left. split; [|lia]. cbn [In]. intros [H|H]; [congruence | contradiction].
      * right. exists old. split; [right; exact Hold | lia].
Qed.

Lemma fold_dict_set_NoDup (kvs : list (K * list T)) :
  NoDup (map fst (fold_left (fun d (kg : K * list T) => dict_set key_eqb (fst kg) (snd kg) d) kvs [])).
Proof.
  induction kvs as [|[k v] kvs IH] using rev_ind; [constructor|].
  rewrite fold_left_app. cbn [fold_left fst snd]. apply dict_set_NoDup. exact IH.
Qed.

Lemma fold_dict_set_keys (kvs : list (K * list T)) (k : K) :
  In k (map fst (fold_left (fun d (kg : K * list T) => dict_set key_eqb (fst kg) (snd kg) d) kvs [])) <-> In k (map fst kvs).
Proof.
  induction kvs as [|[k0 v0] kvs IH] using rev_ind; [reflexivity|].
  rewrite fold_left_app. cbn [fold_left fst snd].
  rewrite dict_set_keys, IH, map_app, in_app_iff. cbn [map fst In]. intuition congruence.
Qed.

(** The dictionary holds, for each key, the last of the key's values. *)
Lemma fold_dict_set_last (kvs : list (K * list T)) (k : K) (g : list T) :
  In (k, g) (fold_left (fun d (kg : K * list T) => dict_set key_eqb (fst kg) (snd kg) d) kvs [])
  <-> exists before after,
        kvs = before ++ (k, g) :: after /\ ~ In k (map fst after).
Proof.
  revert k g. induction kvs as [|[k0 v0] kvs IH] using rev_ind; intros k g.
  - split; [intros [] | intros (before & after & H & _)].
    destruct before; discriminate.
  - rewrite fold_left_app. cbn [fold_left fst snd].
    rewrite (dict_set_In _ _ _ _ _ (fold_dict_set_NoDup kvs)). split.
    + intros [[-> ->]|[Hne Hin]].
      * exists kvs, []. split; [reflexivity | intros []].
      * apply IH in Hin. destruct Hin as (before & after & -> & Hafter).
        exists before, (after ++ [(k0, v0)]). split.
        -- rewrite <- app_assoc. reflexivity.
        -- rewrite map_app, in_app_iff. cbn [map fst In]. intuition congruence.
    + intros (before & after & Heq & Hafter).
      destruct after as [|a after _] using rev_ind.
      * apply app_inj_tail in Heq. destruct Heq as [_ Heq]. injection Heq as <- <-.
        left. split; reflexivity.
      * change (before ++ (k, g) :: after ++ [a])
          with (before ++ ((k, g) :: after) ++ [a]) in Heq.
        rewrite app_assoc in Heq. apply app_inj_tail in Heq.
        destruct Heq as [-> <-]. right.
        rewrite map_app, in_app_iff in Hafter. cbn [map fst In] in Hafter. split.
        -- intros ->. apply Hafter. right. left. reflexivity.
        -- apply IH. exists before, after. split; [reflexivity|].
           intros H. apply Hafter. left. exact H.
Qed.

Lemma fold_dict_set_size (kvs : list (K * list T)) :
  Forall (fun kg => snd kg <> []) kvs ->
  length (concat (map snd (fold_left (fun d (kg : K * list T) => dict_set key_eqb (fst kg) (snd kg) d) kvs []))) <= length (concat (map snd kvs)) /\
  (length (concat (map snd (fold_left (fun d (kg : K * list T) => dict_set key_eqb (fst kg) (snd kg) d) kvs []))) = length (concat (map snd kvs)) ->
   NoDup (map fst kvs)).
Proof.
  induction kvs as [|[k0 v0] kvs IH] using rev_ind; intros Hne.
  - split; [reflexivity | constructor].
  - apply Forall_app in Hne. destruct Hne as [Hne _].
    destruct (IH Hne) as [Hle Heq].
    rewrite fold_left_app. cbn [fold_left fst snd].
    rewrite !map_app, concat_app, length_app. cbn [map fst snd concat].
    rewrite app_nil_r.
    destruct (dict_set_size k0 v0 (fold_left (fun d (kg : K * list T) => dict_set key_eqb (fst kg) (snd kg) d) kvs []))
      as [[Hk Hlen]|(old & Hold & Hlen)].
    + split; [lia|]. intros H.
      apply NoDup_app; [apply Heq; lia | constructor; [intros [] | constructor] |].
      intros k Hk1 [<-|[]]. apply Hk. apply fold_dict_set_keys. exact Hk1.
    + assert (Hold' : old <> []).
      { apply fold_dict_set_last in Hold. destruct Hold as (before & after & -> & _).
        apply Forall_app in Hne. destruct Hne as [_ Hne].
        inversion Hne as [|kg rest H _]. exact H. }
      assert (0 < length old) by (destruct old; [congruence | cbn [length]; lia]).
      split; lia.
Qed.

(** X13.  The dictionary of [group_by], for any sequence: its keys are
    distinct and are the keys of the elements of the sequence, and the
    bucket of a key is the last of the runs of consecutive elements with
    that key; the earlier runs of the key are in no bucket. *)
Theorem group_by_keeps_last_run (iterable : list T) :
  let d := group_by key_eqb key_function iterable in
  NoDup (map fst d) /\
  (forall x, In x iterable -> In (key_function x) (map fst d)) /\
  (forall k g, In (k, g) d ->
     g <> [] /\ forall x, In x g -> In x iterable /\ key_function x = k) /\
  (forall k g,
     In (k, g) d
     <-> exists before after,
           groupby key_eqb key_function iterable = before ++ (k, g) :: after /\
           ~ In k (map fst after)).
Proof.
  cbv zeta. unfold group_by. split; [|split; [|split]].
  - apply fold_dict_set_NoDup.
  - intros x Hx. apply fold_dict_set_keys. apply groupby_keys. exact Hx.
  - intros k g Hin. apply fold_dict_set_last in Hin.
    destruct Hin as (before & after & Heq & _).
    assert (Hrun : In (k, g) (groupby key_eqb key_function iterable)).
    { rewrite Heq. apply in_or_app. right. left. reflexivity. }
    split; [apply (groupby_nonempty iterable k g Hrun)|].
    intros x Hx. split.
    + rewrite <- (groupby_concat key_eqb key_function iterable).
      apply in_concat. exists g. split; [|exact Hx].
      apply in_map_iff. exists (k, g). split; [reflexivity | exact Hrun].
    + apply (groupby_key key_eqb key_function key_eqb_eq iterable k g x Hrun Hx).
  - intros k g. apply fold_dict_set_last.
Qed.

Lemma group_by_size (iterable : list T) :
  length (concat (map snd (group_by key_eqb key_function iterable))) <= length iterable /\
  (length (concat (map snd (group_by key_eqb key_function iterable))) = length iterable ->
   NoDup (map fst (groupby key_eqb key_function iterable))).
Proof.
  assert (Hne : Forall (fun kg : K * list T => snd kg <> [])
                       (groupby key_eqb key_function iterable)).
  { apply Forall_forall. intros [k g] Hin. apply (groupby_nonempty iterable k g Hin). }
  destruct (fold_dict_set_size _ Hne) as [Hle Heq].
  rewrite (groupby_concat key_eqb key_function iterable) in Hle, Heq.
  split; assumption.
Qed.

(** X14.  The buckets of [group_by] never hold more elements than the
    sequence, and they hold all of them, in their order, exactly when no key
    heads two runs of the sequence. *)
Theorem group_by_lossless_iff (iterable : list T) :
  let buckets := concat (map snd (group_by key_eqb key_function iterable)) in
  length buckets <= length iterable /\
  (buckets = iterable <-> NoDup (map fst (groupby key_eqb key_function iterable))) /\
  (length buckets = length iterable
   <-> NoDup (map fst (groupby key_eqb key_function iterable))).
Proof.
  cbv zeta. destruct (group_by_size iterable) as [Hle Heq].
  assert (Hall : NoDup (map fst (groupby key_eqb key_function iterable)) ->
                 concat (map snd (group_by key_eqb key_function iterable)) = iterable).
  { intros Hnd. rewrite (group_by_runs key_eqb key_function key_eqb_eq iterable Hnd).
    apply groupby_concat. }
  split; [exact Hle|]. split; split.
  - intros H. apply Heq. rewrite H. reflexivity.
  - exact Hall.
  - exact Heq.
  - intros Hnd. rewrite (Hall Hnd). reflexivity.
Qed.

End GroupByProperties.

(** X13, a run: the algorithms of three records in which vfh comes back. *)
Lemma group_by_keeps_last_run_witness :
  NoDup (map fst (group_by String.eqb (fun ld => algorithm (metadata ld))
                    interleaved_logs)) /\
  In ("vfh", [bare_log 3 "vfh" "realistic"])
     (group_by String.eqb (fun ld => algorithm (metadata ld)) interleaved_logs).
Proof.
  destruct (group_by_keeps_last_run String.eqb (fun ld => algorithm (metadata ld))
              String.eqb_eq interleaved_logs) as (Hnd & _ & _ & Hlast).
  split; [exact Hnd|]. apply Hlast.
  exists [("vfh", [bare_log 1 "vfh" "easy"]); ("nd", [bare_log 2 "nd" "easy"])], [].
  split; [reflexivity | intros []].
Defined.

(** X14, a run: the same three records. *)
Lemma group_by_lossless_iff_witness :
  length (concat (map snd (group_by String.eqb (fun ld => algorithm (metadata ld))
                             interleaved_logs)))
  <= length interleaved_logs /\
  concat (map snd (group_by String.eqb (fun ld => algorithm (metadata ld))
                     interleaved_logs))
  <> interleaved_logs.
Proof.
  destruct (group_by_lossless_iff String.eqb (fun ld => algorithm (metadata ld))
              String.eqb_eq interleaved_logs) as (Hle & Hall & _).
  split; [exact Hle|]. intros H. apply Hall in H.
  inversion H as [|k ks Hk _]. apply Hk. right. left. reflexivity.
Defined.

(** ** The two levels of [process_log_dir] *)

Lemma concat_length_le {A B C : Type} (f : A -> list B) (g : A -> list C) (l : list A) :
  (forall x, In x l -> length (f x) <= length (g x)) ->
  length (concat (map f l)) <= length (concat (map g l)) /\
  (length (concat (map f l)) = length (concat (map g l)) ->
   forall x, In x l -> length (f x) = length (g x)).
Proof.
  induction l as [|y l IH]; intros Hle.
  - split; [reflexivity | intros _ x []].
  - cbn [map concat]. rewrite !length_app.
    assert (Hy : length (f y) <= length (g y)) by (apply Hle; left; reflexivity).
    destruct IH as [IH1 IH2]; [intros x Hx; apply Hle; right; exact Hx|].
    split; [lia|]. intros Heq x [<-|Hx]; [lia|]. apply IH2; [lia | exact Hx].
Qed.

Lemma all_records_adjacent (logs_data : list LogData) :
  keys_adjacent (fun ld => algorithm (metadata ld)) logs_data ->
  (forall a logs,
     In (a, logs) (groupby String.eqb (fun ld => algorithm (metadata ld)) logs_data) ->
     keys_adjacent (fun ld => difficulty (metadata ld)) logs) ->
  all_records (group_by_algorithm_and_difficulty logs_data) = logs_data.
Proof.
  intros Halg Hdiff. rewrite (all_records_runs _ Halg Hdiff).
  unfold all_records. rewrite map_map. cbn [snd].
  rewrite <- (groupby_concat String.eqb (fun ld => algorithm (metadata ld)) logs_data)
    at 2.
  f_equal. apply map_ext. intros [a logs]. cbn [snd]. apply groupby_concat.
Qed.

(** X15.  The two-level grouping of [process_log_dir] never holds more
    records than it is given, and it holds all of them exactly when the
    records of one algorithm are adjacent in the sequence and, among them,
    those of one difficulty are adjacent: in any other order a record is
    left out of the time comparison. *)
Theorem two_level_grouping_lossless_iff (logs_data : list LogData) :
  let grouped := group_by_algorithm_and_difficulty logs_data in
  length (all_records grouped) <= length logs_data /\
  (all_records grouped = logs_data
   <-> keys_adjacent (fun ld => algorithm (metadata ld)) logs_data /\
       forall a logs,
         In (a, logs)
            (groupby String.eqb (fun ld => algorithm (metadata ld)) logs_data) ->
         keys_adjacent (fun ld => difficulty (metadata ld)) logs).
Proof.
  cbv zeta.
  set (by_algorithm := group_by String.eqb (fun ld => algorithm (metadata ld)) logs_data).
  assert (Hshape : all_records (group_by_algorithm_and_difficulty logs_data)
                   = concat (map (fun al : String.string * list LogData =>
                                    concat (map snd
                                      (group_by String.eqb
                                         (fun ld => difficulty (metadata ld)) (snd al))))
                                 by_algorithm)).
  { unfold all_records, group_by_algorithm_and_difficulty. rewrite map_map. reflexivity. }
  destruct (concat_length_le
              (fun al : String.string * list LogData =>
                 concat (map snd (group_by String.eqb
                                    (fun ld => difficulty (metadata ld)) (snd al))))
              (fun al : String.string * list LogData => snd al) by_algorithm)
    as [Hin1 Hin2].
  { intros al _.
    apply (group_by_size String.eqb (fun ld => difficulty (metadata ld)) String.eqb_eq). }
  destruct (group_by_size String.eqb (fun ld => algorithm (metadata ld)) String.eqb_eq
              logs_data) as [Hout1 Hout2].
  fold by_algorithm in Hout1, Hout2.
  change (map (fun al : String.string * list LogData => snd al) by_algorithm)
    with (map snd by_algorithm) in Hin1, Hin2.
  rewrite <- Hshape in Hin1, Hin2.
  split; [lia|]. split.
  - intros Hall. apply (f_equal (@length LogData)) in Hall.
    assert (Halg : keys_adjacent (fun ld => algorithm (metadata ld)) logs_data)
      by (apply Hout2; lia).
    split; [exact Halg|]. intros a logs Hin.
    apply (group_by_size String.eqb (fun ld => difficulty (metadata ld)) String.eqb_eq).
    apply (Hin2 ltac:(lia) (a, logs)). unfold by_algorithm.
    rewrite (group_by_runs String.eqb _ String.eqb_eq _ Halg). exact Hin.
  - intros [Halg Hdiff]. apply all_records_adjacent; assumption.
Qed.

(** * Properties of the log discovery *)

Lemma nth_error_enumerate (A : Type) (start : nat) (l : list A) (n : nat) :
  nth_error (enumerate start l) n = option_map (fun x => (start + n, x)) (nth_error l n).
Proof.
  unfold enumerate. revert start n; induction l as [|y l IH]; intros start n.
  - destruct n; reflexivity.
  - destruct n as [|n]; cbn [length seq combine nth_error option_map].
    + rewrite Nat.add_0_r. reflexivity.
    + rewrite IH. replace (S start + n) with (start + S n) by lia. reflexivity.
Qed.

Lemma enumerate_In (A : Type) (l : list A) (i : nat) (x : A) :
  In (i, x) (enumerate 1 l) <-> 1 <= i /\ nth_error l (i - 1) = Some x.
Proof.
  split.
  - intros Hin. apply In_nth_error in Hin. destruct Hin as (n & Hn).
    rewrite nth_error_enumerate in Hn.
    destruct (nth_error l n) as [y|] eqn:Hy; [|discriminate].
    injection Hn as <- <-. split; [lia|].
    rewrite <- Hy. f_equal. lia.
  - intros [Hi Hx]. apply (nth_error_In _ (i - 1)).
    rewrite nth_error_enumerate, Hx. cbn [option_map].
    replace (1 + (i - 1)) with i by lia. reflexivity.
Qed.

(** The entries of a dictionary that a test keeps have distinct keys as
    the dictionary has. *)
Lemma filter_distinct_keys (K V : Type) (keep : K * V -> bool) (entries : list (K * V)) :
  NoDup (map fst entries) -> NoDup (map fst (filter keep entries)).
Proof.
  induction entries as [|[k v] entries IH]; intros Hnd; [constructor|].
  cbn [map fst] in Hnd. inversion Hnd as [|k' ks Hk Hnd']; subst k' ks.
  cbn [filter]. destruct (keep (k, v)); [|apply IH; exact Hnd'].
  cbn [map fst]. constructor; [|apply IH; exact Hnd'].
  intros Hin. apply Hk. apply in_map_iff in Hin. destruct Hin as (kv & Hkv & Hin).
  apply in_map_iff. exists kv. split; [exact Hkv|].
  apply filter_In in Hin. apply Hin.
Qed.

Lemma groupby_map (T U K : Type) (key_eqb : K -> K -> bool) (key_function : U -> K)
    (h : T -> U) (l : list T) :
  groupby key_eqb key_function (map h l)
  = map (fun kg : K * list T => (fst kg, map h (snd kg)))
        (groupby key_eqb (fun x => key_function (h x)) l).
Proof.
  induction l as [|x l IH]; [reflexivity|].
  cbn [map groupby]. rewrite IH.
  destruct (groupby key_eqb (fun x => key_function (h x)) l) as [|[k g] gs];
    [reflexivity|].
  cbn [map fst snd]. destruct (key_eqb (key_function (h x)) k); reflexivity.
Qed.

(** A sequence made of blocks, each of one key and no two of the same key,
    some of them empty, has its blocks that are not empty for runs. *)
Lemma groupby_concat_blocks (T K : Type) (key_eqb : K -> K -> bool)
    (key_function : T -> K) (blocks : list (K * list T)) :
  (forall a b, key_eqb a b = true <-> a = b) ->
  NoDup (map fst blocks) ->
  Forall (fun kg => Forall (fun x => key_function x = fst kg) (snd kg)) blocks ->
  groupby key_eqb key_function (concat (map snd blocks))
  = filter (fun kg : K * list T => match snd kg with [] => false | _ => true end) blocks.
Proof.
  intros key_eqb_eq. induction blocks as [|[k g] blocks IH]; intros Hnd Hall;
    [reflexivity|].
  inversion Hnd as [|k' ks Hk Hnd']; subst k' ks.
  inversion Hall as [|kg bs Hg Hall']; subst kg bs.
  cbn [map concat snd fst filter] in *. destruct g as [|x g].
  - apply IH; assumption.
  - rewrite (groupby_block key_eqb key_function key_eqb_eq k).
    + rewrite IH by assumption. reflexivity.
    + discriminate.
    + exact Hg.
    + rewrite IH by assumption. intros Hin. apply Hk.
      apply in_map_iff in Hin. destruct Hin as (kg & Hkg & Hin).
      apply in_map_iff. exists kg. split; [exact Hkg|].
      apply filter_In in Hin. apply Hin.
Qed.

Lemma Forall2_combine_In (A B : Type) (P : A -> B -> Prop) (f : A -> String.string)
    (l : list A) (l' : list B) (k : String.string) (b : B) :
  Forall2 P l l' -> In (k, b) (combine (map f l) l') ->
  exists a, In a l /\ k = f a /\ P a b.
Proof.
  induction 1 as [|a b' l l' Hab _ IH]; cbn [map combine In]; [intros []|].
  intros [Heq|Hin].
  - injection Heq as <- <-. exists a. auto.
  - destruct (IH Hin) as (a' & Ha' & Hk & HP). exists a'. auto.
Qed.

Lemma Forall2_combine_keys (A B : Type) (P : A -> B -> Prop) (f : A -> String.string)
    (l : list A) (l' : list B) :
  Forall2 P l l' ->
  map fst (combine (map f l) l') = map f l /\ map snd (combine (map f l) l') = l'.
Proof.
  induction 1 as [|a b l l' _ _ [IH1 IH2]]; cbn [map combine fst snd];
    [split; reflexivity|].
  rewrite IH1, IH2. split; reflexivity.
Qed.

Section DiscoveryProperties.

Context {E : Type}.
Variable iterdir : String.string -> E + list String.string.
Variable glob_log : String.string -> E + list String.string.
Variable stem : String.string -> String.string.

Lemma for_each_inr (A : Type) (body : A -> E + list LogMetadata) (iterable : list A)
    (records : list LogMetadata) :
  for_each body iterable = inr records
  <-> exists blocks,
        Forall2 (fun x block => body x = inr block) iterable blocks /\
        records = concat blocks.
Proof.
  revert records; induction iterable as [|x rest IH]; intros records; cbn [for_each].
  - split.
    + intros H. injection H as <-. exists []. split; [constructor | reflexivity].
    + intros (blocks & HF & ->). inversion HF. reflexivity.
  - split.
    + destruct (body x) as [e|block] eqn:Hx; [discriminate|].
      destruct (for_each body rest) as [e|more] eqn:Hrest; [discriminate|].
      intros H. injection H as <-.
      destruct (proj1 (IH more) eq_refl) as (blocks & HF & ->).
      exists (block :: blocks). split; [constructor; assumption | reflexivity].
    + intros (blocks & HF & ->).
      inversion HF as [|x' block rest' blocks' Hx HF']; subst.
      rewrite Hx. rewrite (proj2 (IH (concat blocks')));
        [reflexivity | exists blocks'; auto].
Qed.

Lemma for_each_inl (A : Type) (body : A -> E + list LogMetadata) (iterable : list A)
    (e : E) :
  for_each body iterable = inl e -> exists x, In x iterable /\ body x = inl e.
Proof.
  induction iterable as [|x rest IH]; cbn [for_each]; [discriminate|].
  destruct (body x) as [e'|block] eqn:Hx.
  - intros H. injection H as <-. exists x. split; [left; reflexivity | exact Hx].
  - destruct (for_each body rest) as [e'|more]; [|discriminate].
    intros H. injection H as <-. destruct (IH eq_refl) as (y & Hy & Hby).
    exists y. split; [right; exact Hy | exact Hby].
Qed.

Lemma Forall2_In_l (A B : Type) (P : A -> B -> Prop) (l : list A) (l' : list B) (a : A) :
  Forall2 P l l' -> In a l -> exists b, In b l' /\ P a b.
Proof.
  induction 1 as [|x y l l' Hxy _ IH]; intros Hin; [contradiction|].
  destruct Hin as [<-|Hin].
  - exists y. split; [left; reflexivity | exact Hxy].
  - destruct (IH Hin) as (b & Hb & HP). exists b. split; [right; exact Hb | exact HP].
Qed.

Lemma Forall2_In_r (A B : Type) (P : A -> B -> Prop) (l : list A) (l' : list B) (b : B) :
  Forall2 P l l' -> In b l' -> exists a, In a l /\ P a b.
Proof.
  induction 1 as [|x y l l' Hxy _ IH]; intros Hin; [contradiction|].
  destruct Hin as [<-|Hin].
  - exists x. split; [left; reflexivity | exact Hxy].
  - destruct (IH Hin) as (a & Ha & HP). exists a. split; [right; exact Ha | exact HP].
Qed.

(** The records of one difficulty folder. *)
Lemma difficulty_logs_In (algorithm_path difficulty_path : String.string)
    (records : list LogMetadata) (m : LogMetadata) :
  difficulty_logs glob_log stem algorithm_path difficulty_path = inr records ->
  (In m records
   <-> exists log_files,
         glob_log difficulty_path = inr log_files /\
         1 <= index m /\
         nth_error log_files (index m - 1) = Some (path m) /\
         algorithm m = stem algorithm_path /\
         difficulty m = stem difficulty_path).
Proof.
  unfold difficulty_logs.
  destruct (glob_log difficulty_path) as [e|log_files]; [discriminate|].
  intros H. injection H as <-. rewrite in_map_iff. split.
  - intros ([i f] & <- & Hin). apply enumerate_In in Hin.
    exists log_files. cbn [index path algorithm difficulty fst snd].
    destruct Hin. auto.
  - intros (log_files' & Heq & Hi & Hn & Ha & Hd). injection Heq as <-.
    exists (index m, path m). split.
    + destruct m as [i p a d]. cbn [index path algorithm difficulty fst snd] in *.
      subst a d. reflexivity.
    + apply enumerate_In. auto.
Qed.


Lemma for_each_returns (A : Type) (body : A -> E + list LogMetadata) (iterable : list A) :
  (exists records, for_each body iterable = inr records)
  <-> forall x, In x iterable -> exists block, body x = inr block.
Proof.
  split.
  - intros (records & H) x Hx. apply for_each_inr in H. destruct H as (blocks & HF & _).
    destruct (Forall2_In_l _ _ _ _ _ _ HF Hx) as (block & _ & Hb). exists block. exact Hb.
  - induction iterable as [|x rest IH]; intros Hall; cbn [for_each]; [eexists; reflexivity|].
    destruct (Hall x (or_introl eq_refl)) as (block & ->).
    destruct IH as (more & ->); [intros y Hy; apply Hall; right; exact Hy|].
    eexists. reflexivity.
Qed.

(** X17.  [get_logs_metadata] returns exactly when the log directory can be
    listed, every path in it can be listed and [glob] returns on every path
    in those: one entry of the log directory that cannot be listed leaves
    no record at all.  An exception of [get_logs_metadata] is the exception
    of one of these listings. *)
Theorem discovery_returns_iff (log_dir : String.string) :
  ((exists records, get_logs_metadata iterdir glob_log stem log_dir = inr records)
   <-> exists algorithm_paths,
         iterdir log_dir = inr algorithm_paths /\
         forall algorithm_path, In algorithm_path algorithm_paths ->
           exists difficulty_paths,
             iterdir algorithm_path = inr difficulty_paths /\
             forall difficulty_path, In difficulty_path difficulty_paths ->
               exists log_files, glob_log difficulty_path = inr log_files) /\
  (forall e,
     get_logs_metadata iterdir glob_log stem log_dir = inl e ->
     iterdir log_dir = inl e \/
     exists algorithm_paths algorithm_path,
       iterdir log_dir = inr algorithm_paths /\
       In algorithm_path algorithm_paths /\
       (iterdir algorithm_path = inl e \/
        exists difficulty_paths difficulty_path,
          iterdir algorithm_path = inr difficulty_paths /\
          In difficulty_path difficulty_paths /\
          glob_log difficulty_path = inl e)).
Proof.
  unfold get_logs_metadata. split.
  - destruct (iterdir log_dir) as [e|algorithm_paths].
    + split; [intros (records & H); discriminate | intros (aps & H & _); discriminate].
    + rewrite for_each_returns. split.
      * intros Hall. exists algorithm_paths. split; [reflexivity|].
        intros algorithm_path Hap. destruct (Hall _ Hap) as (block & Hblock).
        unfold algorithm_logs in Hblock.
        destruct (iterdir algorithm_path) as [e|difficulty_paths]; [discriminate|].
        exists difficulty_paths. split; [reflexivity|].
        intros difficulty_path Hdp.
        destruct (proj1 (for_each_returns _ _ _) (ex_intro _ block Hblock) _ Hdp)
          as (dblock & Hd).
        unfold difficulty_logs in Hd.
        destruct (glob_log difficulty_path) as [e|log_files]; [discriminate|].
        exists log_files. reflexivity.
      * intros (aps & Haps & Hall) algorithm_path Hap. injection Haps as <-.
        destruct (Hall _ Hap) as (difficulty_paths & Hdps & Hglob).
        unfold algorithm_logs. rewrite Hdps. apply for_each_returns.
        intros difficulty_path Hdp. destruct (Hglob _ Hdp) as (log_files & Hlf).
        unfold difficulty_logs. rewrite Hlf. eexists. reflexivity.
  - intros e. destruct (iterdir log_dir) as [e'|algorithm_paths].
    + intros H. left. injection H as <-. reflexivity.
    + intros H. right. apply for_each_inl in H.
      destruct H as (algorithm_path & Hap & H).
      exists algorithm_paths, algorithm_path. split; [reflexivity|]. split; [exact Hap|].
      unfold algorithm_logs in H.
      destruct (iterdir algorithm_path) as [e'|difficulty_paths].
      * left. injection H as <-. reflexivity.
      * right. apply for_each_inl in H. destruct H as (difficulty_path & Hdp & H).
        exists difficulty_paths, difficulty_path. split; [reflexivity|].
        split; [exact Hdp|]. unfold difficulty_logs in H.
        destruct (glob_log difficulty_path) as [e'|log_files]; [|discriminate].
        injection H as <-. reflexivity.
Qed.

(** The runs of the records of a directory whose folders have stems of
    their own. *)
Lemma blocks_adjacent (key_function : LogMetadata -> String.string)
    (body : String.string -> E + list LogMetadata) (iterable : list String.string)
    (records : list LogMetadata) :
  NoDup (map stem iterable) ->
  for_each body iterable = inr records ->
  (forall x block m, In x iterable -> body x = inr block -> In m block ->
     key_function m = stem x) ->
  NoDup (map fst (groupby String.eqb key_function records)) /\
  forall k g, In (k, g) (groupby String.eqb key_function records) ->
    exists x, In x iterable /\ body x = inr g.
Proof.
  intros Hnd H Hkey. apply for_each_inr in H. destruct H as (blocks & HF & ->).
  destruct (Forall2_combine_keys _ _ _ stem _ _ HF) as [Hfst Hsnd].
  assert (Hruns : groupby String.eqb key_function (concat blocks)
                  = filter (fun kg : String.string * list LogMetadata =>
                              match snd kg with [] => false | _ => true end)
                           (combine (map stem iterable) blocks)).
  { rewrite <- Hsnd at 1. apply groupby_concat_blocks.
    - exact String.eqb_eq.
    - rewrite Hfst. exact Hnd.
    - apply Forall_forall. intros [k g] Hin. cbn [fst snd].
      destruct (Forall2_combine_In _ _ _ stem _ _ _ _ HF Hin) as (x & Hx & -> & Hb).
      apply Forall_forall. intros m Hm. apply (Hkey x g m Hx Hb Hm). }
  rewrite Hruns. split.
  - apply filter_distinct_keys. rewrite Hfst. exact Hnd.
  - intros k g Hin. apply filter_In in Hin. destruct Hin as [Hin _].
    destruct (Forall2_combine_In _ _ _ stem _ _ _ _ HF Hin) as (x & Hx & _ & Hb).
    exists x. split; assumption.
Qed.

Context {arith : arithmetic}.
Variable to_float : String.string -> float.
Variable files : String.string -> result (list line).

Lemma get_log_data_metadata (log_metadata : LogMetadata) (data : LogData) :
  get_log_data to_float files log_metadata = Ok data -> metadata data = log_metadata.
Proof.
  unfold get_log_data. intros H. do 5 bind_inv H. injection H as <-. reflexivity.
Qed.

Lemma mapM_get_log_data (records : list LogMetadata) (logs_data : list LogData) :
  mapM (get_log_data to_float files) records = Ok logs_data ->
  map metadata logs_data = records.
Proof.
  revert logs_data; induction records as [|m records IH]; intros logs_data H;
    cbn [mapM] in H.
  - injection H as <-. reflexivity.
  - bind_inv H. bind_inv H. injection H as <-. cbn [map].
    rewrite (get_log_data_metadata _ _ E0), (IH _ E1). reflexivity.
Qed.

(** X18.  From the directory to the time comparison: when the folders of
    the log directory have stems of their own, and so have the folders of
    each of them, the logs that [get_logs_metadata] finds, once all of them
    are assembled, are all in the two-level grouping of [process_log_dir],
    in the order they were found, each with the metadata it was found
    with. *)
Theorem discovered_logs_all_compared (log_dir : String.string)
    (algorithm_paths : list String.string) (records : list LogMetadata)
    (logs_data : list LogData) :
  iterdir log_dir = inr algorithm_paths ->
  NoDup (map stem algorithm_paths) ->
  (forall algorithm_path difficulty_paths,
     In algorithm_path algorithm_paths ->
     iterdir algorithm_path = inr difficulty_paths ->
     NoDup (map stem difficulty_paths)) ->
  get_logs_metadata iterdir glob_log stem log_dir = inr records ->
  mapM (get_log_data to_float files) records = Ok logs_data ->
  map metadata logs_data = records /\
  all_records (group_by_algorithm_and_difficulty logs_data) = logs_data.
Proof.
  intros Hiter Hnd Hnd' Hwalk Hdata.
  pose proof (mapM_get_log_data _ _ Hdata) as Hmeta.
  split; [exact Hmeta|].
  unfold get_logs_metadata in Hwalk. rewrite Hiter in Hwalk.
  assert (Hin_block : forall algorithm_path block m,
             algorithm_logs iterdir glob_log stem algorithm_path = inr block ->
             In m block -> algorithm m = stem algorithm_path).
  { intros algorithm_path block m Hb Hm. unfold algorithm_logs in Hb.
    destruct (iterdir algorithm_path) as [e|difficulty_paths]; [discriminate|].
    apply for_each_inr in Hb. destruct Hb as (dblocks & HF & ->).
    apply in_concat in Hm. destruct Hm as (dblock & Hdblock & Hm).
    destruct (Forall2_In_r _ _ _ _ _ _ HF Hdblock) as (difficulty_path & _ & Hd).
    apply (difficulty_logs_In _ _ _ m Hd) in Hm. destruct Hm as (_ & _ & _ & _ & Ha & _).
    exact Ha. }
  destruct (blocks_adjacent algorithm _ _ _ Hnd Hwalk) as [Halg Hblocks].
  { intros x block m _ Hb Hm. apply (Hin_block x block m Hb Hm). }
  rewrite <- Hmeta in Halg, Hblocks. rewrite groupby_map in Halg, Hblocks.
  rewrite map_map in Halg. cbn [fst] in Halg.
  apply all_records_adjacent; [exact Halg|].
  intros a logs Hin. unfold keys_adjacent.
  destruct (Hblocks a (map metadata logs)) as (algorithm_path & Hap & Hb).
  { apply in_map_iff. exists (a, logs). split; [reflexivity | exact Hin]. }
  unfold algorithm_logs in Hb.
  destruct (iterdir algorithm_path) as [e|difficulty_paths] eqn:Hdps; [discriminate|].
  destruct (blocks_adjacent difficulty _ _ _ (Hnd' _ _ Hap Hdps) Hb) as [Hdiff _].
  { intros x block m _ Hd Hm. apply (difficulty_logs_In _ _ _ m Hd) in Hm.
    destruct Hm as (_ & _ & _ & _ & _ & Hm). exact Hm. }
  rewrite groupby_map, map_map in Hdiff. cbn [fst] in Hdiff. exact Hdiff.
Qed.

End DiscoveryProperties.

(** ** The discovery on the example directory *)


Section DiscoveryRuns.

(** The examples are run without rounding. *)
#[local] Existing Instance exact.

(** X18, a run: the example directory and its log. *)
Lemma discovered_logs_all_compared_witness :
  exists logs_data,
    mapM (get_log_data float_of_numeral run_files) [run_metadata] = Ok logs_data /\
    map metadata logs_data = [run_metadata] /\
    all_records (group_by_algorithm_and_difficulty logs_data) = logs_data.
Proof.
  destruct run_log_assembles as (data & Hrun). exists [data].
  assert (Hmap : mapM (get_log_data float_of_numeral run_files) [run_metadata]
                 = Ok [data]).
  { cbn [mapM]. rewrite Hrun. reflexivity. }
  split; [exact Hmap|].
  apply (discovered_logs_all_compared example_iterdir example_glob_log example_stem
           float_of_numeral run_files "logs" ["logs/vfh"; "logs/nd"] [run_metadata]
           [data]).
  - reflexivity.
  - repeat constructor; cbn; intuition discriminate.
  - intros algorithm_path difficulty_paths [<-|[<-|[]]] H; injection H as <-;
      repeat constructor; cbn; intuition discriminate.
  - reflexivity.
  - exact Hmap.
Defined.

End DiscoveryRuns.

(** * Properties of the plots directory *)

Lemma node_induction (P : node -> Prop) :
  P File ->
  (forall entries, Forall (fun entry => P (snd entry)) entries -> P (Dir entries)) ->
  forall tree, P tree.
Proof.
  intros HF HD. fix IH 1. intros [|entries]; [exact HF|]. apply HD.
  induction entries as [|[name sub] rest IHrest]; constructor; [apply IH | exact IHrest].
Qed.

Lemma clear_entries_spec (entries : list (String.string * node)) :
  Forall (fun entry : String.string * node =>
            match snd entry with
            | File => True
            | Dir _ =>
                exists kept,
                  clear_dir (snd entry) = Left (Dir kept) /\
                  file_paths (Dir kept) = [] /\
                  dir_paths (Dir kept) = dir_paths (snd entry) /\
                  clear_dir (Dir kept) = Left (Dir kept)
            end) entries ->
  exists kept,
    clear_entries clear_dir entries = Some kept /\
    flat_map (fun entry : String.string * node =>
                map (cons (fst entry)) (file_paths (snd entry))) kept = [] /\
    flat_map (fun entry : String.string * node =>
                map (cons (fst entry)) (dir_paths (snd entry))) kept
    = flat_map (fun entry : String.string * node =>
                  map (cons (fst entry)) (dir_paths (snd entry))) entries /\
    clear_entries clear_dir kept = Some kept.
Proof.
  induction 1 as [|[name sub] rest Hsub _ (kept & Hrest & Hfiles & Hdirs & Hagain)].
  - exists []. repeat split; reflexivity.
  - cbn [snd] in Hsub. destruct sub as [|sub_entries].
    + exists kept. cbn [clear_entries flat_map fst snd dir_paths map app].
      repeat split; assumption.
    + destruct Hsub as (sub_kept & Hclear & Hsub_files & Hsub_dirs & Hsub_again).
      exists ((name, Dir sub_kept) :: kept).
      cbn [clear_entries flat_map fst snd].
      rewrite Hclear, Hrest, Hsub_again, Hagain, Hsub_files, Hfiles, Hsub_dirs, Hdirs.
      repeat split; reflexivity.
Qed.

(** A directory is cleared of its files, keeps its directories and is
    then left as it is by a second clearing. *)
Lemma clear_dir_tree (tree : node) :
  match tree with
  | File => True
  | Dir _ =>
      exists kept,
        clear_dir tree = Left (Dir kept) /\
        file_paths (Dir kept) = [] /\
        dir_paths (Dir kept) = dir_paths tree /\
        clear_dir (Dir kept) = Left (Dir kept)
  end.
Proof.
  induction tree as [|entries IH] using node_induction; [exact I|].
  destruct (clear_entries_spec entries IH) as (kept & Hkept & Hfiles & Hdirs & Hagain).
  exists kept. cbn [clear_dir file_paths dir_paths].
  rewrite Hkept, Hagain, Hfiles, Hdirs. repeat split; reflexivity.
Qed.

